(** * Pose-feedback analyzer: a shallow embedding and its properties

    The development follows the two source modules of the analyzer:

    - the frame module ([PoseLandmark], [LIMB_CONNECTIONS], [FrameData],
      [toDegrees], [calculateLimbAngles]);
    - the [Feedback] class ([analyze], [getFeedback],
      [computeAngleDifference], [calculateAccuracy],
      [createFeedbackPrompt], [validateExistingLandmarks], ...);
    - the helper [adjustLandmarks] of the test cases.

    Conventions of the embedding.

    - A JavaScript number is an IEEE-754 binary64 value: Rocq's primitive
      [float], whose operations are specified by [SpecFloat].
    - A JavaScript string is a Rocq [string] holding its UTF-8 encoding.
    - An array is a [list]; a hole or an index outside the array reads as
      [None] (JavaScript's [undefined]).
    - [Math.atan2] is implementation-approximated in ECMAScript, the
      digit generation of [Number::toString] and the language model behind
      [GeminiLLM] are outside the repository: they are parameters. *)

From Stdlib Require Import ZArith Zpower List String Ascii Bool Floats Lia.
From Stdlib Require Uint63.
From Stdlib Require Import DecimalString.
Import ListNotations.

Set Implicit Arguments.

(** * Part I: definitions *)

(** ** JavaScript strings *)

Module JSString.
Local Open Scope string_scope.
Local Open Scope char_scope.

Definition singleton (c : ascii) : string := String c EmptyString.

Definition newline : string := singleton "010".
Definition dquote : string := singleton "034".

Fixpoint of_list (l : list ascii) : string :=
  match l with
  | [] => EmptyString
  | c :: l' => String c (of_list l')
  end.

(** [Array.prototype.join]. *)
Definition join (sep : string) (l : list string) : string :=
  String.concat sep l.

(** [s.split(sep)] for a one-character separator: always at least one
    piece. *)
Fixpoint split (sep : ascii) (s : string) : list string :=
  match s with
  | EmptyString => [EmptyString]
  | String c r =>
      if Ascii.eqb c sep then EmptyString :: split sep r
      else match split sep r with
           | p :: ps => String c p :: ps
           | [] => [singleton c]
           end
  end.

(** The last character is removed when it is [c0]: the regular
    expression [c0$]. *)
Fixpoint removeTrailing (c0 : ascii) (s : string) : string :=
  match s with
  | EmptyString => EmptyString
  | String c EmptyString => if Ascii.eqb c c0 then EmptyString else s
  | String c r => String c (removeTrailing c0 r)
  end.

(** The first character is removed when it is [c0]: the regular
    expression [^c0]. *)
Definition removeLeading (c0 : ascii) (s : string) : string :=
  match s with
  | String c r => if Ascii.eqb c c0 then r else s
  | EmptyString => s
  end.

(** *** White space

    [String.prototype.trim] and the regular expression class [\s] use
    ECMAScript's WhiteSpace and LineTerminator code points: U+0009 to
    U+000D, U+0020, U+00A0, U+1680, U+2000 to U+200A, U+2028, U+2029,
    U+202F, U+205F, U+3000 and U+FEFF. In UTF-8 they take one, two or
    three bytes. *)

Definition code (c : ascii) : nat := nat_of_ascii c.

Definition ws1 (c : ascii) : bool :=
  (Nat.leb 9 (code c) && Nat.leb (code c) 13) || Nat.eqb (code c) 32.

Definition ws2 (c1 c2 : ascii) : bool :=
  Nat.eqb (code c1) 194 && Nat.eqb (code c2) 160.

Definition ws3 (c1 c2 c3 : ascii) : bool :=
  let a := code c1 in
  let b := code c2 in
  let c := code c3 in
  (Nat.eqb a 225 && Nat.eqb b 154 && Nat.eqb c 128)
  || (Nat.eqb a 226 && Nat.eqb b 128
      && ((Nat.leb 128 c && Nat.leb c 138)
          || Nat.eqb c 168 || Nat.eqb c 169 || Nat.eqb c 175))
  || (Nat.eqb a 226 && Nat.eqb b 129 && Nat.eqb c 159)
  || (Nat.eqb a 227 && Nat.eqb b 128 && Nat.eqb c 128)
  || (Nat.eqb a 239 && Nat.eqb b 187 && Nat.eqb c 191).

(** A string is read as a sequence of tokens: a white-space character
    (with its bytes) or one other byte. *)
Definition token : Type := bool * string.

Fixpoint tokens (s : string) : list token :=
  match s with
  | EmptyString => []
  | String c1 r1 =>
      if ws1 c1 then (true, singleton c1) :: tokens r1
      else
        match r1 with
        | EmptyString => (false, singleton c1) :: tokens r1
        | String c2 r2 =>
            if ws2 c1 c2 then (true, of_list [c1; c2]) :: tokens r2
            else
              match r2 with
              | EmptyString => (false, singleton c1) :: tokens r1
              | String c3 r3 =>
                  if ws3 c1 c2 c3
                  then (true, of_list [c1; c2; c3]) :: tokens r3
                  else (false, singleton c1) :: tokens r1
              end
        end
  end.

Definition untokens (l : list token) : string :=
  String.concat EmptyString (map snd l).

Fixpoint dropWhile {A} (p : A -> bool) (l : list A) : list A :=
  match l with
  | [] => []
  | x :: l' => if p x then dropWhile p l' else l
  end.

Definition dropWhileEnd {A} (p : A -> bool) (l : list A) : list A :=
  rev (dropWhile p (rev l)).

(** [String.prototype.trim]. *)
Definition trim (s : string) : string :=
  untokens (dropWhileEnd fst (dropWhile fst (tokens s))).

(** A string made of white space only (the empty string included). *)
Definition whitespaceOnly (s : string) : bool := forallb fst (tokens s).

(** [s.split(/\s+/)]: the pieces between maximal runs of white space.
    [cur] is the piece being read, [inRun] tells that the previous
    token was white space. *)
Fixpoint splitRuns (l : list token) (cur : string) (inRun : bool)
  : list string :=
  match l with
  | [] => [cur]
  | (true, _) :: l' =>
      if inRun then splitRuns l' cur true
      else cur :: splitRuns l' EmptyString true
  | (false, b) :: l' => splitRuns l' (cur ++ b) false
  end.

Definition splitWhitespace (s : string) : list string :=
  splitRuns (tokens s) EmptyString false.

(** [String.prototype.toUpperCase] on the letters a to z; the other
    bytes are kept. No other character has an upper case among the
    letters A to Z, so comparisons with an upper-case ASCII word are
    exact. *)
Definition upper (c : ascii) : ascii :=
  if Nat.leb 97 (code c) && Nat.leb (code c) 122
  then ascii_of_nat (code c - 32) else c.

Fixpoint toUpperCase (s : string) : string :=
  match s with
  | EmptyString => EmptyString
  | String c r => String (upper c) (toUpperCase r)
  end.

(** [s.includes(sub)], as a proposition and as a test. *)
Definition Includes (s sub : string) : Prop :=
  exists pre post, s = pre ++ sub ++ post.

Fixpoint includes (s sub : string) : bool :=
  String.prefix sub s
  || match s with
     | EmptyString => false
     | String _ r => includes r sub
     end.

(** No byte of [s] has its code in [codes]. *)
Fixpoint noneOf (codes : list nat) (s : string) : bool :=
  match s with
  | EmptyString => true
  | String c r =>
      forallb (fun k => negb (Nat.eqb (code c) k)) codes && noneOf codes r
  end.

(** The lines of a text. *)
Definition lines (s : string) : list string := split "010" s.

(** Decimal digits of a natural number and of a non-negative integer. *)
Definition ofNat (n : nat) : string :=
  NilEmpty.string_of_uint (Nat.to_uint n).

Definition ofN (n : N) : string :=
  NilEmpty.string_of_uint (N.to_uint n).

Fixpoint zeros (n : nat) : string :=
  match n with
  | O => EmptyString
  | S n' => String "0" (zeros n')
  end.

End JSString.

(** ** JavaScript numbers *)

Module JSNumber.
Local Open Scope float_scope.

Definition number : Type := float.

Definition NaN : number := nan.

(** The global [isNaN] on a number. *)
Definition isNaN (x : number) : bool := is_nan x.

(** [Math.PI], the binary64 number nearest to the circle constant. *)
Definition Math_PI : number := 0x1.921fb54442d18p+1.

Definition Math_abs (x : number) : number := abs x.

(** [Math.max] of two numbers: [NaN] when one of them is, and [+0]
    above [-0]. *)
Definition Math_max (x y : number) : number :=
  if is_nan x || is_nan y then NaN
  else if x <? y then y
  else if y <? x then x
  else if get_sign x then y else x.

(** The relations [x <= y] and [x < y] of JavaScript, as propositions:
    both are false as soon as one side is [NaN]. *)
Definition le (x y : number) : Prop := (x <=? y) = true.
Definition lt (x y : number) : Prop := (x <? y) = true.

(** *** Decimal rendering *)

(** The integer [n] for which [n / 10^f - x] is nearest to zero, the
    larger one on a tie, for a non-negative finite [x] given by its
    exact value [m * 2^e]. *)
Definition nearestScaled (f : nat) (x : spec_float) : Z :=
  match x with
  | S754_finite _ m e =>
      let scaled := (Zpos m * 10 ^ Z.of_nat f)%Z in
      if (0 <=? e)%Z then (scaled * 2 ^ e)%Z
      else ((2 * scaled + 2 ^ (- e)) / 2 ^ (1 - e))%Z
  | _ => 0%Z
  end.

Section ToString.
Local Open Scope string_scope.
Local Open Scope float_scope.

(** The digits [Number::toString] generates for a positive finite
    number (the shortest decimal that reads back as the number). *)
Variable finiteToString : number -> string.

(** [Number::toString] in radix 10. *)
Definition Number_toString (x : number) : string :=
  if is_nan x then "NaN"
  else if is_zero x then "0"
  else (if x <? 0 then "-" else EmptyString)
         ++ (if is_infinity x then "Infinity"
             else finiteToString (abs x)).

(** [Number.prototype.toFixed] with [f] fraction digits. *)
Definition toFixed (x : number) (f : nat) : string :=
  if is_nan x || is_infinity x then Number_toString x
  else
    let s := if x <? 0 then "-" else EmptyString in
    let ax := abs x in
    if 1e21 <=? ax then s ++ Number_toString ax
    else
      let n := nearestScaled f (Prim2SF ax) in
      let m := JSString.ofN (Z.to_N n) in
      match f with
      | O => s ++ m
      | S _ =>
          let m' :=
            if Nat.leb (String.length m) f
            then JSString.zeros (f + 1 - String.length m) ++ m
            else m in
          let k := String.length m' in
          s ++ substring 0 (k - f) m' ++ "." ++ substring (k - f) f m'
      end.

(** [JSON.stringify] of a number: a number that is not finite is
    written [null]. *)
Definition JSON_number (x : number) : string :=
  if is_nan x || is_infinity x then "null" else Number_toString x.
End ToString.

End JSNumber.

(** ** The frame module *)

Module Frame.
Import JSNumber.
Local Open Scope string_scope.
Local Open Scope list_scope.
Local Open Scope float_scope.

(** The enum [PoseLandmark], with the number and the name of each
    member. *)
Inductive PoseLandmark : Type :=
| LEFT_SHOULDER
| RIGHT_SHOULDER
| LEFT_ELBOW
| RIGHT_ELBOW
| LEFT_WRIST
| RIGHT_WRIST.

Definition index (p : PoseLandmark) : nat :=
  match p with
  | LEFT_SHOULDER => 0
  | RIGHT_SHOULDER => 1
  | LEFT_ELBOW => 2
  | RIGHT_ELBOW => 3
  | LEFT_WRIST => 4
  | RIGHT_WRIST => 5
  end.

Definition name (p : PoseLandmark) : string :=
  match p with
  | LEFT_SHOULDER => "LEFT_SHOULDER"
  | RIGHT_SHOULDER => "RIGHT_SHOULDER"
  | LEFT_ELBOW => "LEFT_ELBOW"
  | RIGHT_ELBOW => "RIGHT_ELBOW"
  | LEFT_WRIST => "LEFT_WRIST"
  | RIGHT_WRIST => "RIGHT_WRIST"
  end.

Definition members : list PoseLandmark :=
  [LEFT_SHOULDER; RIGHT_SHOULDER; LEFT_ELBOW; RIGHT_ELBOW;
   LEFT_WRIST; RIGHT_WRIST].

(** At run time a numeric enum is an object with the reverse mapping
    (number to name) and the mapping (name to number). Its own keys are
    enumerated with the integer keys first. *)
Inductive EnumValue : Type :=
| EnumName (s : string)
| EnumNumber (n : nat).

Definition PoseLandmark_entries : list (string * EnumValue) :=
  map (fun p => (JSString.ofNat (index p), EnumName (name p))) members
  ++ map (fun p => (name p, EnumNumber (index p))) members.

(** The properties every object inherits from [Object.prototype]. *)
Definition Object_prototype_keys : list string :=
  ["constructor"; "hasOwnProperty"; "isPrototypeOf";
   "propertyIsEnumerable"; "toLocaleString"; "toString"; "valueOf";
   "__proto__"; "__defineGetter__"; "__defineSetter__";
   "__lookupGetter__"; "__lookupSetter__"].

(** [key in PoseLandmark]: own and inherited properties. *)
Definition in_PoseLandmark (key : string) : bool :=
  existsb (String.eqb key)
    (map fst PoseLandmark_entries ++ Object_prototype_keys).

Definition LIMB_CONNECTIONS : list (PoseLandmark * PoseLandmark) :=
  [(LEFT_SHOULDER, LEFT_ELBOW);
   (LEFT_ELBOW, LEFT_WRIST);
   (RIGHT_SHOULDER, RIGHT_ELBOW);
   (RIGHT_ELBOW, RIGHT_WRIST)].

(** An array of points, possibly with holes. *)
Definition Landmarks : Type := list (option (number * number)).

Record FrameData : Type := {
  id : string;
  landmarks : Landmarks;
  angles : list number;
  frameNumber : number
}.

(** [frameLandmarks[i]]: [None] for a hole and outside the array. *)
Definition at_index (frameLandmarks : Landmarks) (i : nat)
  : option (number * number) :=
  match nth_error frameLandmarks i with
  | Some (Some point) => Some point
  | _ => None
  end.

Definition toDegrees (radians : number) : number :=
  radians * (180 / Math_PI).

Section CalculateLimbAngles.
(** [Math.atan2 y x]. *)
Variable Math_atan2 : number -> number -> number.

(** The body of the [try] block of one connection; [None] when it
    throws. *)
Definition tryLimbAngle (frameLandmarks : Landmarks)
    (connection : PoseLandmark * PoseLandmark) : option number :=
  let '(start, end_) := connection in
  match at_index frameLandmarks (index start),
        at_index frameLandmarks (index end_) with
  | Some startPoint, Some endPoint =>
      let dx := fst endPoint - fst startPoint in
      let dy := snd endPoint - snd startPoint in
      let angle := Math_atan2 dx dy in
      let normalizedAngle :=
        if angle <? 0 then 2 * Math_PI + angle else angle in
      let finalAngle :=
        if Math_PI <? normalizedAngle
        then 2 * Math_PI - normalizedAngle
        else normalizedAngle in
      Some (toDegrees finalAngle)
  | _, _ => None
  end.

(** One turn of the loop: the angle, or [NaN] from the [catch]. *)
Definition limbAngle (frameLandmarks : Landmarks)
    (connection : PoseLandmark * PoseLandmark) : number :=
  match tryLimbAngle frameLandmarks connection with
  | Some angle => angle
  | None => NaN
  end.

Definition calculateLimbAngles (frameLandmarks : Landmarks)
  : list number :=
  let frameAngles : list number := [] in
  let limbAngles :=
    fold_left
      (fun limbAngles connection =>
         limbAngles ++ [limbAngle frameLandmarks connection])
      LIMB_CONNECTIONS [] in
  frameAngles ++ limbAngles.
End CalculateLimbAngles.

End Frame.

(** ** The [Feedback] class *)

Module Feedback.
Import JSNumber Frame.
Local Open Scope string_scope.
Local Open Scope list_scope.
Local Open Scope float_scope.

Record FeedbackEntry : Type := {
  feedbackID : string;
  referenceFrameData : FrameData;
  practiceFrameData : FrameData;
  feedback : string;
  accuracyValue : number
}.

(** *** The difference scorer *)

(** The loop assigns [differences[i]] for [i] from 0 upwards, so each
    assignment extends the array by one entry. *)
Definition computeAngleDifference (reference practice : FrameData)
  : list number :=
  fold_left
    (fun differences i =>
       differences ++
         [match nth_error (angles practice) i with
          | Some p => p - nth i (angles reference) NaN
          | None => 0
          end])
    (seq 0 (List.length (angles reference))) [].

Definition calculateAccuracy (differences : list number) : number :=
  let values := differences in
  if Nat.eqb (List.length values) 0 then 0
  else
    let '(sum, count) :=
      fold_left
        (fun '(sum, count) val =>
           if negb (isNaN val)
           then (sum + Math_abs val, count + 1)
           else (sum, count))
        values (0, 0) in
    if count =? 0 then 0
    else
      let avgDiff := sum / count in
      Math_max 0 (100 - avgDiff).

(** *** The prompt builder *)

(** [Object.entries] of an array without holes: the indices, as
    strings, with the values. *)
Definition Object_entries (a : list number) : list (string * number) :=
  combine (map JSString.ofNat (seq 0 (List.length a))) a.

Definition promptIntro : string :=
"
You are a professional dance or movement coach AI.
You are given differences between a reference choreography pose and a user's practice pose.

Analyze these angle differences and provide constructive, encouraging feedback
with clear instructions on how the user can improve their form.

DATA:
Accuracy Score: ".

Definition promptAngles : string :=
"%
Angle Differences:
".

Definition promptConnections : string :=
"
LimbConnections associated with each angle for reference:
".

Definition promptReference : string :=
"

Reference Landmarks Coordinates (PoseLandmark enum index order):
".

Definition promptPractice : string :=
"
Practice Landmarks Coordinates (PoseLandmark enum index order):
".

Definition promptEnum : string :=
"
PoseLandmark enum for reference:
".

Definition promptInstructions : string :=
"

Make sure to add a concise note on potential landmark detection issues at the end if:
1. If there is a landmark coordinate (don't mention angles) that is extremely different from other coordinates
within that set of reference or practice pose, highlight it as a potential mis-detection of the joint. DO NOT attempt
to give any feedback on any angle involving that joint.
2. If an angle is NaN, it means one of the joints involved in that angle is missing. Mention the specific missing joints
using the LimbConnections and PoseLandmark enum reference.

Respond with a short, natural paragraph explaining:
1. Identify which body parts need adjustment based on the angle differences
(DO NOT including any angles involving a joint that's an outlier).
3. For mismatches, provide concise coaching tips for improvement.
4. Provide a motivational remark to encourage the user.


".

Section Prompt.
Variable finiteToString : number -> string.

(** [JSON.stringify] of the landmark array: a hole is written
    [null]. *)
Definition JSON_point (point : option (number * number)) : string :=
  match point with
  | Some (x, y) =>
      ("[" ++ JSON_number finiteToString x ++ ","
           ++ JSON_number finiteToString y ++ "]")%string
  | None => "null"
  end.

Definition JSON_stringify (l : Landmarks) : string :=
  ("[" ++ JSString.join "," (map JSON_point l) ++ "]")%string.

Definition angleLine (entry : string * number) : string :=
  let '(angle, diff) := entry in
  ("- " ++ angle ++ ": difference = "
        ++ toFixed finiteToString diff 2)%string.

Definition connectionText (connection : PoseLandmark * PoseLandmark)
  : string :=
  let '(start, end_) := connection in
  (name start ++ " to " ++ name end_)%string.

Definition enumLine (entry : string * EnumValue) : option string :=
  match entry with
  | (name, EnumNumber value) =>
      Some (JSString.ofNat value ++ " = " ++ name)%string
  | (_, EnumName _) => None
  end.

Fixpoint filterMap {A B} (f : A -> option B) (l : list A) : list B :=
  match l with
  | [] => []
  | x :: l' =>
      match f x with
      | Some y => y :: filterMap f l'
      | None => filterMap f l'
      end
  end.

Definition createFeedbackPrompt (differences : list number)
    (accuracyValue : number)
    (referenceFrameData practiceFrameData : FrameData) : string :=
  let angleFeedback :=
    JSString.join JSString.newline
      (map angleLine (Object_entries differences)) in
  let limbConnectionsString :=
    JSString.join ", " (map connectionText LIMB_CONNECTIONS) in
  let refLandmarks := landmarks referenceFrameData in
  let practiceLandmarks := landmarks practiceFrameData in
  let poseEnumString :=
    JSString.join JSString.newline
      (filterMap enumLine PoseLandmark_entries) in
  (promptIntro ++ toFixed finiteToString accuracyValue 1
   ++ promptAngles ++ angleFeedback
   ++ promptConnections ++ limbConnectionsString
   ++ promptReference ++ JSON_stringify refLandmarks
   ++ promptPractice ++ JSON_stringify practiceLandmarks
   ++ promptEnum ++ poseEnumString
   ++ promptInstructions)%string.
End Prompt.

(** *** The follow-up requests *)

Definition createCheckExistingLandmarkPrompt (feedback : string)
  : string :=
  ("given this feedback " ++ feedback
   ++ ", give me a list of all the joints
mentioned in the feedback in one list in this format:
[JOINT_A, JOINT_B, ...]
1. Only include joints that are mentioned in the feedback.
2. Use all caps and seperate words with underscores "
   ++ JSString.dquote ++ "_" ++ JSString.dquote ++ ".")%string.

Definition createCheckMoodPrompt (feedback : string) : string :=
  ("given this feedback " ++ feedback
   ++ ", is the overall mood of the feedback positive?
Respond with one word "
   ++ JSString.dquote ++ "TRUE" ++ JSString.dquote ++ " or "
   ++ JSString.dquote ++ "FALSE" ++ JSString.dquote ++ ".")%string.

(** The tokens [validateExistingLandmarks] reads in the answer. *)
Definition extractedLandmarks (existingLandmarksStr : string)
  : list string :=
  map JSString.trim
    (JSString.split ","
       (JSString.removeTrailing "]"
          (JSString.removeLeading "[" existingLandmarksStr))).

(** *** State, exceptions and the methods *)

Section Methods.
(** The language model: its state, what a failed call throws, and
    [executeLLM]. *)
Variable LLM : Type.
Variable LLMError : Type.
Variable executeLLM : LLM -> string -> LLM * (LLMError + string).

Variable finiteToString : number -> string.

Inductive Exception : Type :=
| FeedbackNotFound (feedbackID : string)
| UnknownLandmark (lm : string)
| LLMFailure (e : LLMError).

(** The text of the [Error] objects the class throws itself. *)
Definition message (e : Exception) : option string :=
  match e with
  | FeedbackNotFound feedbackID =>
      Some ("Feedback with ID " ++ feedbackID ++ " not found.")%string
  | UnknownLandmark lm =>
      Some ("LLM referenced unknown landmark: " ++ JSString.dquote
            ++ lm ++ JSString.dquote)%string
  | LLMFailure _ => None
  end.

(** The warnings written with [console.warn]; the lines written with
    [console.log] are not recorded. *)
Inductive Warning : Type :=
| MoodNotPositive (feedbackID : string)
| FeedbackTooLong (feedbackID : string).

Record World : Type := {
  feedbackList : list FeedbackEntry;
  llm : LLM;
  warnings : list Warning
}.

Inductive Outcome (A : Type) : Type :=
| Returned (a : A)
| Thrown (e : Exception).
Arguments Returned {A} a.
Arguments Thrown {A} e.

(** A method: it reads and writes the world and returns or throws.
    What was written before a [throw] stays written. *)
Definition M (A : Type) : Type := World -> World * Outcome A.

Definition ret {A} (a : A) : M A := fun w => (w, Returned a).

Definition throw {A} (e : Exception) : M A := fun w => (w, Thrown e).

Definition bind {A B} (c : M A) (k : A -> M B) : M B :=
  fun w =>
    match c w with
    | (w', Returned a) => k a w'
    | (w', Thrown e) => (w', Thrown e)
    end.

Notation "x <- c ;; k" := (bind c (fun x => k))
  (at level 61, c at next level, right associativity).
Notation "c ;; k" := (bind c (fun _ => k))
  (at level 61, right associativity).

(** [await llm.executeLLM(prompt)]. *)
Definition await_executeLLM (prompt : string) : M string :=
  fun w =>
    match executeLLM (llm w) prompt with
    | (l, inr text) =>
        ({| feedbackList := feedbackList w; llm := l;
            warnings := warnings w |}, Returned text)
    | (l, inl e) =>
        ({| feedbackList := feedbackList w; llm := l;
            warnings := warnings w |}, Thrown (LLMFailure e))
    end.

(** [this.feedbackList.push(entry)]. *)
Definition push (entry : FeedbackEntry) : M unit :=
  fun w =>
    ({| feedbackList := feedbackList w ++ [entry]; llm := llm w;
        warnings := warnings w |}, Returned tt).

Definition console_warn (x : Warning) : M unit :=
  fun w =>
    ({| feedbackList := feedbackList w; llm := llm w;
        warnings := warnings w ++ [x] |}, Returned tt).

(** A [for ... of] loop whose body may throw. *)
Fixpoint forOf {A} (l : list A) (body : A -> M unit) : M unit :=
  match l with
  | [] => ret tt
  | x :: l' => body x ;; forOf l' body
  end.

Definition validateExistingLandmarks (existingLandmarksStr : string)
  : M unit :=
  let landmarks := extractedLandmarks existingLandmarksStr in
  forOf landmarks
    (fun lm =>
       if negb (in_PoseLandmark lm) then throw (UnknownLandmark lm)
       else ret tt).

Definition analyze (referenceFrameData practiceFrameData : FrameData)
  : M string :=
  let diff :=
    computeAngleDifference referenceFrameData practiceFrameData in
  let accuracyValue := calculateAccuracy diff in
  let prompt :=
    createFeedbackPrompt finiteToString diff accuracyValue
      referenceFrameData practiceFrameData in
  aiFeedback <- await_executeLLM prompt ;;
  let feedbackID :=
    ("fb-" ++ id referenceFrameData ++ "-"
     ++ id practiceFrameData)%string in
  let entry :=
    {| feedbackID := feedbackID;
       referenceFrameData := referenceFrameData;
       practiceFrameData := practiceFrameData;
       feedback := aiFeedback;
       accuracyValue := accuracyValue |} in
  push entry ;;
  let checkLandmarkPromt :=
    createCheckExistingLandmarkPrompt aiFeedback in
  existingLandmarks <- await_executeLLM checkLandmarkPromt ;;
  validateExistingLandmarks existingLandmarks ;;
  let checkMoodPrompt := createCheckMoodPrompt aiFeedback in
  isPositive <- await_executeLLM checkMoodPrompt ;;
  let isPositiveBool :=
    String.eqb (JSString.toUpperCase (JSString.trim isPositive))
      "TRUE" in
  (if negb isPositiveBool
   then console_warn (MoodNotPositive feedbackID)
   else ret tt) ;;
  let wordCount :=
    List.length (JSString.splitWhitespace (JSString.trim aiFeedback)) in
  (if Nat.ltb 500 wordCount
   then console_warn (FeedbackTooLong feedbackID)
   else ret tt) ;;
  ret feedbackID.

Definition getFeedback (feedbackID : string) : M (string * number) :=
  fun w =>
    match
      find (fun f => String.eqb (Feedback.feedbackID f) feedbackID)
        (feedbackList w)
    with
    | None => throw (FeedbackNotFound feedbackID) w
    | Some entry => ret (feedback entry, accuracyValue entry) w
    end.
End Methods.

Arguments Returned {LLMError A} a.
Arguments Thrown {LLMError A} e.
Arguments FeedbackNotFound {LLMError} feedbackID.
Arguments UnknownLandmark {LLMError} lm.

End Feedback.

(** ** Binary64 numbers as [spec_float]

    The predicates used to reason on the operations through their
    specification in [SpecFloat]. *)

Module SF64.
Local Open Scope Z_scope.

(** The last step of [binary_round_aux]. *)
Definition pack (sx : bool) (m e : Z) : spec_float :=
  match m with
  | Z0 => S754_zero sx
  | Zpos p =>
      if e <=? emax - prec then S754_finite sx p e else S754_infinity sx
  | Zneg _ => S754_nan
  end.

(** A number of sign [sx] that is not [NaN]. *)
Definition signed (sx : bool) (x : spec_float) : Prop :=
  match x with
  | S754_zero s | S754_infinity s | S754_finite s _ _ => s = sx
  | S754_nan => False
  end.

(** A number of sign [sx] that is neither [NaN] nor zero. *)
Definition nonzero (sx : bool) (x : spec_float) : Prop :=
  match x with
  | S754_infinity s | S754_finite s _ _ => s = sx
  | _ => False
  end.

(** A zero, a positive number or [+Infinity]. *)
Definition nonneg (x : spec_float) : Prop :=
  match x with
  | S754_zero _ | S754_infinity false | S754_finite false _ _ => True
  | _ => False
  end.

(** A zero or a finite number. *)
Definition finite (x : spec_float) : Prop :=
  match x with
  | S754_zero _ | S754_finite _ _ _ => True
  | _ => False
  end.

(** The numbers 1 and 2^53. *)
Definition one64 : spec_float := S754_finite false 4503599627370496 (-52).
Definition two53 : spec_float := S754_finite false 4503599627370496 1.

(** The whole number [K], from 1 to 2^53, as binary64: mantissa of 53
    bits, except for 2^53 itself. *)
Definition normal64 (K : Z) : spec_float :=
  if K <? 2 ^ 53
  then S754_finite false (Z.to_pos (K * 2 ^ (53 - Zdigits2 K)))
         (Zdigits2 K - 53)
  else S754_finite false 4503599627370496 1.

(** What a counter incremented at least once holds: a positive finite
    number, at most 2^53. *)
Definition counted (x : spec_float) : Prop :=
  exists m e, x = S754_finite false m e /\ SFleb x two53 = true.

End SF64.

(** ** The words of the specification *)

Module Spec.
Import JSNumber.
Local Open Scope float_scope.

(** An angle value: the sentinel, or a number of degrees in [0, 180]. *)
Definition AngleValue (a : number) : Prop :=
  isNaN a = true \/ (le 0 a /\ le a 180).

(** What ECMAScript promises of [Math.atan2]: [NaN], or a number from
    [-Math.PI] to [Math.PI]. *)
Definition atan2_in_range (Math_atan2 : number -> number -> number)
  : Prop :=
  forall y x : number,
    isNaN (Math_atan2 y x) = true
    \/ (le (- Math_PI) (Math_atan2 y x) /\ le (Math_atan2 y x) Math_PI).

(** The positions whose delta is numeric. *)
Definition numericDeltas (deltas : list number) : list number :=
  filter (fun delta => negb (isNaN delta)) deltas.

Definition sumOf (l : list number) : number :=
  fold_left (fun sum x => sum + x) l 0.

(** The whole number [n] as a number (exact up to 2^53). *)
Definition numberOf (n : nat) : number :=
  of_uint63 (Uint63Axioms.of_Z (Z.of_nat n)).

Definition mean (l : list number) : number :=
  sumOf l / numberOf (List.length l).

(** The entries of [l] counted as the program counts them, by
    increments from 0. *)
Definition countOf {A} (l : list A) : number :=
  fold_left (fun count _ => count + 1) l 0.

(** Aggregate accuracy = max(0, 100 - mean(|delta|)) over the positions
    whose delta is numeric; 0 when there is none. *)
Definition accuracy (deltas : list number) : number :=
  match numericDeltas deltas with
  | [] => 0
  | numeric => Math_max 0 (100 - mean (map Math_abs numeric))
  end.

(** The request [analyze] sends first, and the record it stores once
    the answer [aiFeedback] has come. *)
Definition primaryPrompt (finiteToString : number -> string)
    (referenceFrameData practiceFrameData : Frame.FrameData) : string :=
  let diff :=
    Feedback.computeAngleDifference referenceFrameData practiceFrameData in
  Feedback.createFeedbackPrompt finiteToString diff
    (Feedback.calculateAccuracy diff) referenceFrameData practiceFrameData.

Definition identifierOf (referenceFrameData practiceFrameData
    : Frame.FrameData) : string :=
  ("fb-" ++ Frame.id referenceFrameData ++ "-"
   ++ Frame.id practiceFrameData)%string.

Definition recordOf (referenceFrameData practiceFrameData
    : Frame.FrameData) (aiFeedback : string) : Feedback.FeedbackEntry :=
  {| Feedback.feedbackID :=
       identifierOf referenceFrameData practiceFrameData;
     Feedback.referenceFrameData := referenceFrameData;
     Feedback.practiceFrameData := practiceFrameData;
     Feedback.feedback := aiFeedback;
     Feedback.accuracyValue :=
       Feedback.calculateAccuracy
         (Feedback.computeAngleDifference referenceFrameData
            practiceFrameData) |}.

(** A stored record with the identifier [feedbackID]. *)
Definition stored (feedbackID : string)
    (entries : list Feedback.FeedbackEntry) : Prop :=
  exists entry,
    In entry entries /\ Feedback.feedbackID entry = feedbackID.

End Spec.

(** ** Data of the examples *)

Module Examples.
Import JSNumber Frame Feedback.
Local Open Scope string_scope.
Local Open Scope list_scope.
Local Open Scope float_scope.

(** [Math.atan2] on the directions of the axes and of the diagonals,
    where it is a multiple of a quarter of [Math.PI] rounded to nearest;
    the other directions are not tabulated and read [NaN]. *)
Definition atan2_directions (y x : number) : number :=
  if is_nan y || is_nan x then NaN
  else if y =? 0 then
    if (x <? 0) || (is_zero x && get_sign x)
    then (if get_sign y then -0x1.921fb54442d18p+1 else 0x1.921fb54442d18p+1)
    else (if get_sign y then neg_zero else 0)
  else if x =? 0 then
    (if 0 <? y then 0x1.921fb54442d18p+0 else -0x1.921fb54442d18p+0)
  else if abs y =? abs x then
    if 0 <? y
    then (if 0 <? x then 0x1.921fb54442d18p-1 else 0x1.2d97c7f3321d2p+1)
    else (if 0 <? x then -0x1.921fb54442d18p-1 else -0x1.2d97c7f3321d2p+1)
  else NaN.

(** The digits of [Number::toString] on the whole numbers below 1e21:
    the decimal digits of the integer. The examples print no other
    number. *)
Definition wholeDigits (x : number) : string :=
  JSString.ofN (Z.to_N (nearestScaled 0 (Prim2SF x))).

(** The snapshot of the test [testPerfectPoses]. *)
Definition perfectSnapshot : Landmarks :=
  [Some (2, 4); Some (4, 4); Some (2, 3); Some (4, 3);
   Some (1, 2); Some (5, 2)].

(** The snapshot of the test [testMissingLandmarks]: no right wrist. *)
Definition missingWristSnapshot : Landmarks :=
  [Some (2, 4); Some (4, 4); Some (2, 3); Some (4, 3); Some (1, 2)].

Definition frameOf (name : string) (l : Landmarks) : FrameData :=
  {| id := name;
     landmarks := l;
     angles := calculateLimbAngles atan2_directions l;
     frameNumber := 1 |}.

Definition referencePose : FrameData := frameOf "reference" perfectSnapshot.
Definition practicePose : FrameData := frameOf "practice" perfectSnapshot.

(** The deltas and the accuracy of the example of the specification
    where the left wrist moved: [0, 45, 0, 0] and 88.75. *)
Definition movedWristDeltas : list number := [0; 45; 0; 0].

Definition movedWristPrompt : string :=
  createFeedbackPrompt wholeDigits movedWristDeltas 88.75
    referencePose practicePose.

(** A frame with given angles. *)
Definition frameWithAngles (name : string) (a : list number) : FrameData :=
  {| id := name; landmarks := []; angles := a; frameNumber := 1 |}.

(** A language model that answers from a script, and fails when the
    script is over. *)
Definition Script : Type := list string.

Definition playScript (script : Script) (prompt : string)
  : Script * (unit + string) :=
  match script with
  | [] => ([], inl tt)
  | answer :: rest => (rest, inr answer)
  end.

Definition world (entries : list FeedbackEntry) (script : Script)
  : World Script :=
  {| feedbackList := entries; llm := script; warnings := [] |}.

(** A record of an earlier analysis of the two poses. *)
Definition earlierRecord : FeedbackEntry :=
  Spec.recordOf referencePose practicePose "Well done.".

(** The answers of a model that names a joint outside the vocabulary,
    and of one that keeps to it, for two analyses. *)
Definition unknownJointScript : Script :=
  ["Keep your tail level."; "[LEFT_ELBOW, TAIL]"; "TRUE"].

Definition twoAnalysesScript : Script :=
  ["Lift the left wrist."; "[LEFT_WRIST]"; "TRUE";
   "Lower the right elbow."; "[RIGHT_ELBOW]"; "TRUE"].

(** Angle sequences of different lengths, with an undefined angle. *)
Definition longReference : FrameData :=
  frameWithAngles "reference" [180; NaN; 90].

Definition shortPractice : FrameData :=
  frameWithAngles "practice" [135; 45].

End Examples.

(** ** The helper of the test cases *)

Module Tests.
Import JSNumber Frame.
Local Open Scope string_scope.
Local Open Scope list_scope.
Local Open Scope float_scope.

(** [Object.values(PoseLandmark).filter((v) => typeof v === "number")]:
    the numbers of the enum, in the order of its keys. *)
Definition landmarkIndices : list nat :=
  Feedback.filterMap
    (fun v => match v with
              | EnumNumber n => Some n
              | EnumName _ => None
              end)
    (map snd PoseLandmark_entries).

(** The array after [a[idx][0] += dx; a[idx][1] += dy] on the point
    [a[idx]]: the point at [idx] has the new coordinates. *)
Fixpoint setPoint (a : Landmarks) (idx : nat) (point : number * number)
  : Landmarks :=
  match a, idx with
  | [], _ => []
  | _ :: a', O => Some point :: a'
  | p :: a', S i => p :: setPoint a' i point
  end.

(** How a call ends: it returns, or a [TypeError] is thrown by the
    access to a coordinate of [undefined]. *)
Inductive Completion : Type :=
| Normal
| TypeError.

(** The array [originalLandmarks] after the call (it is changed in
    place, and returned when the call returns), the lines written with
    [console.error], and how the call ended. *)
Record Adjusted : Type := {
  adjusted : Landmarks;
  console_error : list string;
  completion : Completion
}.

Definition missingLandmark (idx : nat) : string :=
  "Missing landmark at index: " ++ JSString.ofNat idx.

(** The test of one turn of the loop:
    [idx < originalLandmarks.length && idx < changes.length]. *)
Definition inside (originalLandmarks changes : Landmarks) (idx : nat)
  : bool :=
  Nat.ltb idx (List.length originalLandmarks)
  && Nat.ltb idx (List.length changes).

(** The loop over the indices. [changes] is an array of its own, as in
    every call of the tests: it is only read. *)
Fixpoint adjustLoop (changes : Landmarks) (indices : list nat)
    (originalLandmarks : Landmarks) (console : list string) : Adjusted :=
  match indices with
  | [] =>
      {| adjusted := originalLandmarks; console_error := console;
         completion := Normal |}
  | idx :: rest =>
      if inside originalLandmarks changes idx
      then
        match at_index originalLandmarks idx, at_index changes idx with
        | Some (x, y), Some (dx, dy) =>
            adjustLoop changes rest
              (setPoint originalLandmarks idx (x + dx, y + dy)) console
        | _, _ =>
            {| adjusted := originalLandmarks; console_error := console;
               completion := TypeError |}
        end
      else
        adjustLoop changes rest originalLandmarks
          (console ++ [missingLandmark idx])
  end.

Definition adjustLandmarks (originalLandmarks changes : Landmarks)
  : Adjusted :=
  adjustLoop changes landmarkIndices originalLandmarks [].

End Tests.

(** ** Words and white space

    The shapes of text used to state what [trim], [split] and the
    checks of [analyze] do. *)

Module Text.
Import JSString.
Local Open Scope string_scope.

(** A byte that is no white space and starts no white-space
    character. *)
Definition wordByte (c : ascii) : bool :=
  negb (ws1 c)
  && forallb (fun k => negb (Nat.eqb (code c) k)) [194; 225; 226; 227; 239].

(** A word: at least one byte, all of them word bytes. *)
Fixpoint wordBytes (s : string) : bool :=
  match s with
  | EmptyString => true
  | String c r => wordByte c && wordBytes r
  end.


(** A gap: at least one white-space character, and nothing else. *)
Definition gap (s : string) : Prop :=
  s <> EmptyString /\ whitespaceOnly s = true.


(** The tokens of a word, one for each byte, and the tokens of a
    sentence. *)
Definition byteTokens (s : string) : list token :=
  map (fun c => (false, singleton c)) (list_ascii_of_string s).


(** A sequence of tokens that neither starts nor ends with white
    space. *)
Definition startsWithWord (l : list token) : bool :=
  match l with
  | [] => true
  | t :: _ => negb (fst t)
  end.

Definition trimmed (l : list token) : bool :=
  startsWithWord l && startsWithWord (rev l).

(** The answers to the request for the joints: the names between
    brackets, separated by commas, each one after some white space. *)
Definition pieceOf (item : string * Frame.PoseLandmark) : string :=
  fst item ++ Frame.name (snd item).

Definition listed (items : list (string * Frame.PoseLandmark))
  : string :=
  join "," (map pieceOf items).

End Text.

(** ** The checks of [analyze]

    The worlds [analyze] leaves and the warnings of its last two
    checks, named to state its runs. *)

Module Checks.
Import Feedback.
Local Open Scope list_scope.

(** The world with a store, a state of the model and warnings. *)
Definition after {LLM : Type} (entries : list FeedbackEntry) (l : LLM)
    (warned : list Warning) : World LLM :=
  {| feedbackList := entries; llm := l; warnings := warned |}.

(** [isPositive.trim().toUpperCase() === "TRUE"], and the warning
    written when it is false. *)
Definition moodWarning (feedbackID isPositive : string) : list Warning :=
  if String.eqb (JSString.toUpperCase (JSString.trim isPositive)) "TRUE"
  then [] else [MoodNotPositive feedbackID].

(** [aiFeedback.trim().split(/\s+/).length > 500], and the warning
    written when it is true. *)
Definition wordCount (aiFeedback : string) : nat :=
  List.length (JSString.splitWhitespace (JSString.trim aiFeedback)).

Definition lengthWarning (feedbackID aiFeedback : string) : list Warning :=
  if Nat.ltb 500 (wordCount aiFeedback)
  then [FeedbackTooLong feedbackID] else [].

End Checks.

(** ** More data for the examples *)

Module MoreExamples.
Import JSNumber Frame Feedback Examples.
Local Open Scope string_scope.
Local Open Scope list_scope.
Local Open Scope float_scope.

(** The answers of a model whose list of joints ends with a line
    break, and of one that also reports a mood that is not positive,
    in lower case. *)
Definition lineBreakScript : Script :=
  ["Lift the left wrist."; ("[LEFT_WRIST]" ++ JSString.newline)%string; "TRUE"].

Definition gloomyScript : Script :=
  ["Lift the left wrist."; "[LEFT_WRIST, LEFT_ELBOW]"; "false"].

Definition lowerCaseScript : Script :=
  ["Lift the left wrist."; "[LEFT_WRIST]";
   (" true" ++ JSString.newline)%string].

(** A model that answers once, and one that answers twice. *)
Definition oneAnswerScript : Script := ["Lift the left wrist."].

Definition twoAnswersScript : Script :=
  ["Lift the left wrist."; "[LEFT_WRIST]"].

(** The changes of the test [testLeftWristTooInward]. *)
Definition wristInward : Landmarks :=
  [Some (0, 0); Some (0, 0); Some (0, 0); Some (0, 0);
   Some (1, 0); Some (0, 0)].

Definition noChange : Landmarks :=
  [Some (0, 0); Some (0, 0); Some (0, 0); Some (0, 0);
   Some (0, 0); Some (0, 0)].


(** Two pairs of frames whose identifiers join to the same text. *)
Definition firstReference : FrameData := frameWithAngles "take-1" [180; 90].
Definition firstPractice : FrameData := frameWithAngles "a" [135; 90].
Definition secondReference : FrameData := frameWithAngles "take" [10; 20].
Definition secondPractice : FrameData := frameWithAngles "1-a" [10; 25].

End MoreExamples.
(** * Part II: properties *)

(** ** Rounding in binary64

    The operations of [SpecFloat] round an exact mantissa with
    [binary_round_aux]. The lemmas below follow one rounding on the
    integers: what the shifts keep, that the result keeps its sign, and
    that a value below a valid number is rounded below it. *)

Module Binary64.
Import SF64.
Local Open Scope Z_scope.

Abbreviation fexp := (SpecFloat.fexp prec emax).

Lemma fexp_spec e : fexp e = Z.max (e - 53) (-1074).
Proof. reflexivity. Qed.

(** *** Number of binary digits *)

Lemma digits2_pos_bounds (p : positive) :
  2 ^ (Zpos (digits2_pos p) - 1) <= Zpos p < 2 ^ Zpos (digits2_pos p).
Proof.
  induction p as [p IH | p IH | ]; simpl digits2_pos.
  - rewrite Pos2Z.inj_succ.
    replace (Z.succ (Zpos (digits2_pos p)) - 1)
      with (Z.succ (Zpos (digits2_pos p) - 1)) by lia.
    rewrite !Z.pow_succ_r by lia. lia.
  - rewrite Pos2Z.inj_succ.
    replace (Z.succ (Zpos (digits2_pos p)) - 1)
      with (Z.succ (Zpos (digits2_pos p) - 1)) by lia.
    rewrite !Z.pow_succ_r by lia. lia.
  - simpl. lia.
Qed.

Lemma Zdigits2_bounds (m : Z) :
  0 < m -> 2 ^ (Zdigits2 m - 1) <= m < 2 ^ Zdigits2 m.
Proof.
  destruct m as [ | p | p]; try lia. intros _. apply digits2_pos_bounds.
Qed.

Lemma Zdigits2_pos (m : Z) : 0 < m -> 0 < Zdigits2 m.
Proof. destruct m; simpl; lia. Qed.

(** A number below [2^k] has at most [k] digits; a number from [2^k]
    on has more than [k]. *)
Lemma Zdigits2_le (m k : Z) : 0 < m -> 0 <= k -> m < 2 ^ k -> Zdigits2 m <= k.
Proof.
  intros Hm Hk Hlt.
  destruct (Z_le_gt_dec (Zdigits2 m) k) as [ | Hgt]; [assumption | exfalso].
  pose proof (Zdigits2_bounds Hm) as [Hlo _].
  assert (2 ^ k <= 2 ^ (Zdigits2 m - 1)) by (apply Z.pow_le_mono_r; lia).
  lia.
Qed.

Lemma Zdigits2_gt (m k : Z) : 0 < m -> 0 <= k -> 2 ^ k <= m -> k < Zdigits2 m.
Proof.
  intros Hm Hk Hle.
  destruct (Z_lt_ge_dec k (Zdigits2 m)) as [ | Hge]; [assumption | exfalso].
  pose proof (Zdigits2_bounds Hm) as [_ Hhi].
  pose proof (Zdigits2_pos Hm).
  assert (2 ^ Zdigits2 m <= 2 ^ k) by (apply Z.pow_le_mono_r; lia).
  lia.
Qed.

(** *** Shifting to the right *)

Lemma iter_pos_nat {A} (f : A -> A) (p : positive) (x : A) :
  iter_pos f p x = Nat.iter (Pos.to_nat p) f x.
Proof.
  revert x. induction p as [p IH | p IH | ]; intros x; simpl iter_pos.
  - rewrite !IH, Pos2Nat.inj_xI, <- Nat.iter_add, <- Nat.iter_succ_r.
    f_equal. lia.
  - rewrite !IH, Pos2Nat.inj_xO, <- Nat.iter_add. f_equal. lia.
  - reflexivity.
Qed.

Lemma shr_1_m (mrs : shr_record) :
  0 <= shr_m mrs -> shr_m (shr_1 mrs) = shr_m mrs / 2.
Proof.
  destruct mrs as [m r s]; simpl shr_m. intros Hm.
  destruct m as [ | p | p]; [reflexivity | | lia].
  destruct p as [p | p | ]; simpl shr_m.
  - apply Z.div_unique with (r := 1); lia.
  - apply Z.div_unique with (r := 0); lia.
  - reflexivity.
Qed.

Lemma shr_1_exact (mrs : shr_record) :
  0 <= shr_m mrs -> shr_r mrs = false -> shr_s mrs = false ->
  shr_m mrs mod 2 = 0 ->
  shr_r (shr_1 mrs) = false /\ shr_s (shr_1 mrs) = false.
Proof.
  destruct mrs as [m r s]; simpl. intros Hm -> -> Hmod.
  destruct m as [ | p | p]; [split; reflexivity | | lia].
  destruct p as [p | p | ]; simpl; try (split; reflexivity).
  - exfalso. rewrite Pos2Z.inj_xI in Hmod.
    replace (2 * Zpos p + 1) with (1 + Zpos p * 2) in Hmod by lia.
    rewrite Z.mod_add in Hmod by lia. discriminate.
  - discriminate.
Qed.

(** After [n] steps the mantissa is divided by [2^n]; from an exact
    record, the record stays exact when nothing is lost. *)
Lemma iter_shr_1 (n : nat) (m : Z) (r s : bool) :
  0 <= m ->
  let mrs := Nat.iter n shr_1 (Build_shr_record m r s) in
  shr_m mrs = m / 2 ^ Z.of_nat n
  /\ (r = false -> s = false -> m mod 2 ^ Z.of_nat n = 0 ->
      shr_r mrs = false /\ shr_s mrs = false).
Proof.
  intros Hm. induction n as [ | n IH].
  - simpl. rewrite Z.div_1_r. auto.
  - cbn zeta in *. rewrite Nat2Z.inj_succ, Z.pow_succ_r by lia.
    simpl Nat.iter. destruct IH as [IHm IHx].
    assert (Hpow : 0 < 2 ^ Z.of_nat n) by (apply Z.pow_pos_nonneg; lia).
    assert (Hnn : 0 <= shr_m (Nat.iter n shr_1 (Build_shr_record m r s))).
    { rewrite IHm. apply Z.div_pos; lia. }
    split.
    + rewrite shr_1_m by assumption. rewrite IHm.
      rewrite Z.div_div by lia. f_equal. lia.
    + intros Hr Hs Hmod.
      assert (Hmod' : m mod 2 ^ Z.of_nat n = 0).
      { apply Z.mod_divide in Hmod; [ | lia].
        apply Z.mod_divide; [lia | ].
        destruct Hmod as [q Hq]. exists (q * 2). lia. }
      destruct (IHx Hr Hs Hmod') as [Hr' Hs'].
      apply shr_1_exact; try assumption.
      rewrite IHm.
      apply Z.mod_divide in Hmod; [ | lia]. destruct Hmod as [q Hq].
      subst m. replace (q * (2 * 2 ^ Z.of_nat n)) with (q * 2 * 2 ^ Z.of_nat n) by lia.
      rewrite Z.div_mul by lia. apply Z.mod_mul. lia.
Qed.

Lemma shr_spec (m : Z) (r s : bool) (e n : Z) :
  0 <= m ->
  exists mrs,
    shr (Build_shr_record m r s) e n = (mrs, e + Z.max n 0)
    /\ shr_m mrs = m / 2 ^ Z.max n 0
    /\ (r = false -> s = false -> m mod 2 ^ Z.max n 0 = 0 ->
        shr_r mrs = false /\ shr_s mrs = false).
Proof.
  intros Hm. destruct n as [ | p | p]; simpl shr; simpl Z.max.
  - eexists; split; [f_equal; lia | ]. simpl. rewrite Z.div_1_r. auto.
  - rewrite iter_pos_nat.
    destruct (iter_shr_1 (Pos.to_nat p) r s Hm) as [H1 H2].
    rewrite positive_nat_Z in H1, H2.
    eexists; split; [reflexivity | ]. split; assumption.
  - eexists; split; [f_equal; lia | ]. simpl. rewrite Z.div_1_r. auto.
Qed.

Lemma shr_record_of_loc_m (m : Z) (l : location) :
  exists r s, shr_record_of_loc m l = Build_shr_record m r s.
Proof. destruct l as [ | [ | | ]]; simpl; eauto. Qed.

Lemma round_nearest_even_bounds (mrs : shr_record) :
  let m' := round_nearest_even (shr_m mrs) (loc_of_shr_record mrs) in
  shr_m mrs <= m' <= shr_m mrs + 1
  /\ (shr_r mrs = false -> shr_s mrs = false -> m' = shr_m mrs).
Proof.
  destruct mrs as [m [ | ] [ | ]]; simpl;
    try destruct (Z.even m); split; try lia; try discriminate; auto.
Qed.

(** *** The last step of rounding *)

Lemma binary_round_aux_unfold (sx : bool) (M E : Z) (l : location) :
  0 <= M ->
  exists M1 M2 M3 e1 e3,
    e1 = E + Z.max (fexp (Zdigits2 M + E) - E) 0
    /\ M1 = M / 2 ^ Z.max (fexp (Zdigits2 M + E) - E) 0
    /\ M1 <= M2 <= M1 + 1
    /\ (l = loc_Exact ->
        M mod 2 ^ Z.max (fexp (Zdigits2 M + E) - E) 0 = 0 -> M2 = M1)
    /\ e3 = e1 + Z.max (fexp (Zdigits2 M2 + e1) - e1) 0
    /\ M3 = M2 / 2 ^ Z.max (fexp (Zdigits2 M2 + e1) - e1) 0
    /\ binary_round_aux prec emax sx M E l = pack sx M3 e3.
Proof.
  intros HM. unfold binary_round_aux, shr_fexp.
  destruct (shr_record_of_loc_m M l) as (r & s & Hrs). rewrite Hrs.
  destruct (shr_spec r s E (fexp (Zdigits2 M + E) - E) HM)
    as (mrs1 & Hshr1 & Hm1 & Hx1).
  rewrite Hshr1.
  pose proof (round_nearest_even_bounds mrs1) as [Hb Hex]. cbn zeta in Hb, Hex.
  set (M2 := round_nearest_even (shr_m mrs1) (loc_of_shr_record mrs1)) in *.
  assert (Hpow : 0 < 2 ^ Z.max (fexp (Zdigits2 M + E) - E) 0)
    by (apply Z.pow_pos_nonneg; lia).
  assert (HM1 : 0 <= shr_m mrs1) by (rewrite Hm1; apply Z.div_pos; lia).
  assert (HM2 : 0 <= M2) by lia.
  simpl shr_record_of_loc.
  destruct (shr_spec false false (E + Z.max (fexp (Zdigits2 M + E) - E) 0)
              (fexp (Zdigits2 M2 + (E + Z.max (fexp (Zdigits2 M + E) - E) 0))
               - (E + Z.max (fexp (Zdigits2 M + E) - E) 0)) HM2)
    as (mrs3 & Hshr3 & Hm3 & _).
  rewrite Hshr3.
  exists (shr_m mrs1), M2, (shr_m mrs3).
  eexists. eexists.
  split; [reflexivity | ]. split; [assumption | ]. split; [assumption | ].
  split.
  { intros -> Hmod. simpl in Hrs. injection Hrs as <- <-.
    destruct (Hx1 eq_refl eq_refl Hmod). auto. }
  split; [reflexivity | ]. split; [assumption | ].
  unfold pack. reflexivity.
Qed.

Lemma pack_signed (sx : bool) (m e : Z) : 0 <= m -> signed sx (pack sx m e).
Proof.
  destruct m as [ | p | p]; simpl; intros H; try lia; auto.
  destruct (_ <=? _); simpl; reflexivity.
Qed.

Lemma binary_round_aux_signed (sx : bool) (M E : Z) (l : location) :
  0 <= M -> signed sx (binary_round_aux prec emax sx M E l).
Proof.
  intros HM.
  destruct (binary_round_aux_unfold sx E l HM)
    as (M1 & M2 & M3 & e1 & e3 & _ & HM1 & HM2 & _ & _ & HM3 & ->).
  apply pack_signed. subst M3. apply Z.div_pos.
  - assert (0 <= M1) by (subst M1; apply Z.div_pos;
                          [lia | apply Z.pow_pos_nonneg; lia]). lia.
  - apply Z.pow_pos_nonneg; lia.
Qed.

Lemma Zdigits2_unique (m d : Z) :
  0 < m -> 2 ^ (d - 1) <= m < 2 ^ d -> Zdigits2 m = d.
Proof.
  intros Hm [Hlo Hhi].
  assert (Hd : 0 < d).
  { destruct (Z_lt_le_dec 0 d) as [ | Hd]; [assumption | exfalso].
    destruct (Z.eq_dec d 0) as [-> | ]; [simpl in Hhi; lia | ].
    rewrite Z.pow_neg_r in Hhi by lia. lia. }
  pose proof (@Zdigits2_le m d Hm ltac:(lia) Hhi).
  pose proof (@Zdigits2_gt m (d - 1) Hm ltac:(lia) Hlo).
  lia.
Qed.

Lemma Zdigits2_shift (m k : Z) :
  0 < m -> 0 <= k -> Zdigits2 (m * 2 ^ k) = Zdigits2 m + k.
Proof.
  intros Hm Hk.
  assert (Hpow : 0 < 2 ^ k) by (apply Z.pow_pos_nonneg; lia).
  pose proof (Zdigits2_bounds Hm) as [Hlo Hhi].
  pose proof (Zdigits2_pos Hm).
  apply Zdigits2_unique; [nia | ].
  replace (Zdigits2 m + k - 1) with (Zdigits2 m - 1 + k) by lia.
  rewrite !Z.pow_add_r by lia. nia.
Qed.

(** Rounding an exact mantissa that is not below its format exponent. *)
Lemma binary_round_aux_exact (sx : bool) (M E : Z) :
  0 < M -> E <= fexp (Zdigits2 M + E) ->
  exists M2,
    M / 2 ^ (fexp (Zdigits2 M + E) - E) <= M2
      <= M / 2 ^ (fexp (Zdigits2 M + E) - E) + 1
    /\ (M mod 2 ^ (fexp (Zdigits2 M + E) - E) = 0 ->
        M2 = M / 2 ^ (fexp (Zdigits2 M + E) - E))
    /\ M2 <= 2 ^ 53
    /\ (-1074 < fexp (Zdigits2 M + E) -> 2 ^ 52 <= M2)
    /\ binary_round_aux prec emax sx M E loc_Exact
       = if M2 <? 2 ^ 53 then pack sx M2 (fexp (Zdigits2 M + E))
         else pack sx 4503599627370496 (fexp (Zdigits2 M + E) + 1).
Proof.
  intros HM HE.
  destruct (@binary_round_aux_unfold sx M E loc_Exact ltac:(lia))
    as (M1 & M2 & M3 & e1 & e3 & He1 & HM1 & HM2 & Hex & He3 & HM3 & Heq).
  set (e := fexp (Zdigits2 M + E)) in *.
  replace (Z.max (e - E) 0) with (e - E) in * by lia.
  replace (E + (e - E)) with e in He1 by lia. subst e1.
  assert (Hpow : 0 < 2 ^ (e - E)) by (apply Z.pow_pos_nonneg; lia).
  pose proof (Zdigits2_bounds HM) as [Hlo Hhi].
  pose proof (Zdigits2_pos HM) as Hd.
  assert (He : e = Z.max (Zdigits2 M + E - 53) (-1074)) by reflexivity.
  assert (HM1lt : M1 < 2 ^ 53).
  { subst M1. apply Z.div_lt_upper_bound; [assumption | ].
    rewrite <- Z.pow_add_r by lia.
    apply Z.lt_le_trans with (1 := Hhi). apply Z.pow_le_mono_r; lia. }
  assert (HM1nn : 0 <= M1) by (subst M1; apply Z.div_pos; lia).
  exists M2. split; [subst M1; assumption | ].
  split; [subst M1; auto | ]. split; [lia | ]. split.
  { intros Hgt.
    assert (2 ^ 52 <= M1); [ | lia].
    subst M1. apply Z.div_le_lower_bound; [assumption | ].
    rewrite <- Z.pow_add_r by lia.
    replace (e - E + 52) with (Zdigits2 M - 1) by lia. assumption. }
  rewrite Heq.
  destruct (Z.ltb_spec M2 (2 ^ 53)) as [Hlt | Hge].
  - assert (Z.max (fexp (Zdigits2 M2 + e) - e) 0 = 0) as Hz.
    { destruct (Z.eq_dec M2 0) as [-> | Hnz].
      - simpl Zdigits2. rewrite fexp_spec. lia.
      - pose proof (@Zdigits2_le M2 53 ltac:(lia) ltac:(lia) Hlt).
        rewrite fexp_spec. lia. }
    rewrite Hz in He3, HM3. rewrite Z.div_1_r in HM3.
    subst. f_equal. lia.
  - assert (M2 = 2 ^ 53) by lia. subst M2.
    replace (Zdigits2 (2 ^ 53)) with 54 in * by reflexivity.
    replace (Z.max (fexp (54 + e) - e) 0) with 1 in *
      by (rewrite fexp_spec; lia).
    subst. reflexivity.
Qed.

(** *** Order on valid numbers *)

Lemma bounded_spec (m : positive) (e : Z) :
  bounded prec emax m e = true ->
  fexp (Zpos (digits2_pos m) + e) = e /\ e <= 971.
Proof.
  unfold bounded, canonical_mantissa. intros H.
  apply andb_prop in H. destruct H as [H1 H2].
  apply Z.eqb_eq in H1. apply Z.leb_le in H2. split; assumption.
Qed.

(** A valid mantissa is below [2^53], and has 53 digits above the
    least exponent. *)
Lemma bounded_mantissa (m : positive) (e : Z) :
  bounded prec emax m e = true ->
  -1074 <= e /\ Zpos m < 2 ^ 53 /\ (-1074 < e -> 2 ^ 52 <= Zpos m).
Proof.
  intros H. apply bounded_spec in H. destruct H as [H _].
  rewrite fexp_spec in H.
  pose proof (digits2_pos_bounds m) as [Hlo Hhi].
  split; [lia | ]. split.
  - apply Z.lt_le_trans with (1 := Hhi). apply Z.pow_le_mono_r; lia.
  - intros He. replace 52 with (Zpos (digits2_pos m) - 1) by lia.
    assumption.
Qed.

(** The rounding of an exact value below a valid number stays below
    it: the bound is given on the mantissas, at the exponent [E]. *)
Lemma binary_round_aux_le (M E : Z) (mb : positive) (eb : Z) :
  0 < M -> E <= fexp (Zdigits2 M + E) -> E <= eb ->
  M <= Zpos mb * 2 ^ (eb - E) ->
  bounded prec emax mb eb = true ->
  SFleb (binary_round_aux prec emax false M E loc_Exact)
    (S754_finite false mb eb) = true.
Proof.
  intros HM HE HEb Hle Hb.
  pose proof (bounded_mantissa _ _ Hb) as (Hemin & Hmb & Hnorm).
  pose proof (bounded_spec _ _ Hb) as (Hcan & Hmax).
  destruct (binary_round_aux_exact false HM HE)
    as (M2 & HM2 & Hex & HM2le & HM2ge & ->).
  set (e := fexp (Zdigits2 M + E)) in *.
  pose proof (Zdigits2_bounds HM) as [Hlo Hhi].
  pose proof (digits2_pos_bounds mb) as [Hblo Hbhi].
  assert (Hpe : 0 < 2 ^ (eb - E)) by (apply Z.pow_pos_nonneg; lia).
  assert (Hd : Zdigits2 M + E <= Zpos (digits2_pos mb) + eb).
  { assert (2 ^ (Zdigits2 M - 1) < 2 ^ (Zpos (digits2_pos mb) + (eb - E))).
    { rewrite Z.pow_add_r by lia. nia. }
    apply Z.pow_lt_mono_r_iff in H; lia. }
  assert (Hee : e <= eb).
  { unfold e. rewrite fexp_spec. rewrite fexp_spec in Hcan. lia. }
  assert (Hemin' : -1074 <= e) by (unfold e; rewrite fexp_spec; lia).
  clearbody e.
  assert (Hpn : 0 < 2 ^ (e - E)) by (apply Z.pow_pos_nonneg; lia).
  assert (Hpb : 0 < 2 ^ (eb - e)) by (apply Z.pow_pos_nonneg; lia).
  assert (Hsplit : 2 ^ (eb - E) = 2 ^ (eb - e) * 2 ^ (e - E)).
  { rewrite <- Z.pow_add_r by lia. f_equal. lia. }
  assert (HB : M2 <= Zpos mb * 2 ^ (eb - e)).
  { set (B := Zpos mb * 2 ^ (eb - e)) in *.
    assert (HMB : M <= B * 2 ^ (e - E)) by (unfold B; nia).
    assert (Hq : M / 2 ^ (e - E) <= B).
    { apply Z.div_le_upper_bound; [assumption | nia]. }
    destruct (Z.eq_dec (M / 2 ^ (e - E)) B) as [Heq | Hne]; [ | lia].
    rewrite Hex; [lia | ].
    pose proof (Z.div_mod M (2 ^ (e - E)) ltac:(lia)) as Hdm.
    pose proof (Z.mod_pos_bound M (2 ^ (e - E)) Hpn). nia. }
  assert (HM2nn : 0 <= M2).
  { assert (0 <= M / 2 ^ (e - E)) by (apply Z.div_pos; lia). lia. }
  destruct (Z.ltb_spec M2 (2 ^ 53)) as [Hlt | Hge].
  - destruct M2 as [ | p | p]; [reflexivity | | lia].
    unfold pack. replace (e <=? emax - prec) with true
      by (symmetry; apply Z.leb_le; unfold emax, prec; lia).
    unfold SFleb, SFcompare.
    destruct (Z.compare_spec e eb) as [Heq | Hlt' | Hgt]; [ | reflexivity | lia].
    replace (eb - e) with 0 in HB by lia. simpl in HB.
    pose proof (Pos.compare_spec p mb) as Hc. unfold Pos.compare in Hc.
    destruct Hc; try reflexivity. lia.
  - assert (e + 1 <= eb).
    { destruct (Z.eq_dec e eb) as [Heq | ]; [ | lia].
      replace (eb - e) with 0 in HB by lia. simpl in HB. lia. }
    unfold pack. replace (e + 1 <=? emax - prec) with true
      by (symmetry; apply Z.leb_le; unfold emax, prec; lia).
    unfold SFleb, SFcompare.
    destruct (Z.compare_spec (e + 1) eb) as [Heq | Hlt' | Hgt]; [ | reflexivity | lia].
    pose proof (Pos.compare_spec 4503599627370496 mb) as Hc.
    unfold Pos.compare in Hc.
    destruct Hc; try reflexivity.
    assert (Hn : -1074 < eb) by (clear - Heq Hemin'; lia).
    apply Hnorm in Hn. change (2 ^ 52) with 4503599627370496 in Hn.
    apply Pos2Z.pos_lt_pos in H0. clear - Hn H0. lia.
Qed.

(** *** Alignment and [binary_round] *)

Lemma shl_align_spec (mx : positive) (ex ex' : Z) :
  exists mz,
    shl_align mx ex ex' = (mz, Z.min ex ex')
    /\ Zpos mz = Zpos mx * 2 ^ (ex - Z.min ex ex').
Proof.
  unfold shl_align. destruct (ex' - ex) as [ | d | d] eqn:Hd.
  - exists mx. replace (Z.min ex ex') with ex by lia.
    rewrite Z.sub_diag. split; [reflexivity | simpl; lia].
  - exists mx. replace (Z.min ex ex') with ex by lia.
    rewrite Z.sub_diag. split; [reflexivity | simpl; lia].
  - exists (shift_pos d mx). replace (Z.min ex ex') with ex' by lia.
    split; [reflexivity | ].
    rewrite shift_pos_correct. replace (ex - ex') with (Zpos d) by lia.
    simpl Z.pow. lia.
Qed.

(** Comparing [a * 2^ea] with [b * 2^eb] does not depend on the common
    exponent they are scaled to. *)
Lemma scaled_le (a b ea eb e0 e1 : Z) :
  e0 <= ea -> e0 <= eb -> e1 <= ea -> e1 <= eb ->
  a * 2 ^ (ea - e0) <= b * 2 ^ (eb - e0) ->
  a * 2 ^ (ea - e1) <= b * 2 ^ (eb - e1).
Proof.
  intros H0a H0b H1a H1b Hle.
  destruct (Z_le_gt_dec e0 e1) as [H01 | H01].
  - assert (Hp : 0 < 2 ^ (e1 - e0)) by (apply Z.pow_pos_nonneg; lia).
    replace (ea - e0) with ((ea - e1) + (e1 - e0)) in Hle by lia.
    replace (eb - e0) with ((eb - e1) + (e1 - e0)) in Hle by lia.
    rewrite !Z.pow_add_r, !Z.mul_assoc in Hle by lia.
    apply Z.mul_le_mono_pos_r in Hle; assumption.
  - assert (Hp : 0 < 2 ^ (e0 - e1)) by (apply Z.pow_pos_nonneg; lia).
    replace (ea - e1) with ((ea - e0) + (e0 - e1)) by lia.
    replace (eb - e1) with ((eb - e0) + (e0 - e1)) by lia.
    rewrite !Z.pow_add_r, !Z.mul_assoc by lia.
    apply Z.mul_le_mono_pos_r; assumption.
Qed.

Lemma binary_round_aligned (sx : bool) (mx : positive) (ex : Z) :
  exists M E,
    binary_round prec emax sx mx ex
    = binary_round_aux prec emax sx M E loc_Exact
    /\ 0 < M
    /\ E = Z.min ex (fexp (Zpos (digits2_pos mx) + ex))
    /\ M = Zpos mx * 2 ^ (ex - E)
    /\ Zdigits2 M + E = Zpos (digits2_pos mx) + ex.
Proof.
  unfold binary_round.
  destruct (shl_align_spec mx ex (fexp (Zpos (digits2_pos mx) + ex)))
    as (mz & -> & Hmz).
  exists (Zpos mz), (Z.min ex (fexp (Zpos (digits2_pos mx) + ex))).
  split; [reflexivity | ]. split; [lia | ]. split; [reflexivity | ].
  split; [assumption | ].
  rewrite Hmz, Zdigits2_shift by lia. simpl Zdigits2. lia.
Qed.

Lemma binary_round_signed (sx : bool) (mx : positive) (ex : Z) :
  signed sx (binary_round prec emax sx mx ex).
Proof.
  destruct (binary_round_aligned sx mx ex) as (M & E & -> & HM & _).
  apply binary_round_aux_signed. lia.
Qed.

Lemma binary_round_le (mx : positive) (ex : Z) (mb : positive)
    (eb e0 : Z) :
  e0 <= ex -> e0 <= eb ->
  Zpos mx * 2 ^ (ex - e0) <= Zpos mb * 2 ^ (eb - e0) ->
  bounded prec emax mb eb = true ->
  SFleb (binary_round prec emax false mx ex) (S754_finite false mb eb)
  = true.
Proof.
  intros H0x H0b Hle Hb.
  destruct (binary_round_aligned false mx ex)
    as (M & E & -> & HM & HE & HMeq & Hdig).
  pose proof (bounded_spec _ _ Hb) as (Hcan & _).
  pose proof (digits2_pos_bounds mx) as [Hxlo Hxhi].
  pose proof (digits2_pos_bounds mb) as [Hblo Hbhi].
  assert (Hd : Zpos (digits2_pos mx) + ex <= Zpos (digits2_pos mb) + eb).
  { assert (Hp0 : 0 < 2 ^ (ex - e0)) by (apply Z.pow_pos_nonneg; lia).
    assert (Hp1 : 0 < 2 ^ (eb - e0)) by (apply Z.pow_pos_nonneg; lia).
    assert (2 ^ (Zpos (digits2_pos mx) - 1 + (ex - e0))
            < 2 ^ (Zpos (digits2_pos mb) + (eb - e0))).
    { rewrite !Z.pow_add_r by lia. nia. }
    apply Z.pow_lt_mono_r_iff in H; lia. }
  assert (HEb : E <= eb).
  { rewrite fexp_spec in Hcan. rewrite fexp_spec in HE. lia. }
  apply binary_round_aux_le; try assumption.
  - rewrite Hdig. lia.
  - subst M. apply scaled_le with (e0 := e0); lia.
Qed.

Lemma binary_round_nonzero (sx : bool) (mx : positive) (ex : Z) :
  -1074 <= ex -> nonzero sx (binary_round prec emax sx mx ex).
Proof.
  intros Hex.
  destruct (binary_round_aligned sx mx ex)
    as (M & E & -> & HM & HE & HMeq & Hdig).
  assert (HEf : E <= fexp (Zdigits2 M + E)) by (rewrite Hdig; lia).
  destruct (binary_round_aux_exact sx HM HEf)
    as (M2 & HM2 & _ & _ & HM2ge & ->).
  assert (HM2pos : 0 < M2).
  { destruct (Z_lt_le_dec (-1074) (fexp (Zdigits2 M + E))) as [Hgt | Hle].
    - apply HM2ge in Hgt. change (2 ^ 52) with 4503599627370496 in Hgt. lia.
    - assert (Hf : fexp (Zdigits2 M + E) = E).
      { rewrite Hdig in *. rewrite fexp_spec in *. lia. }
      rewrite Hf, Z.sub_diag in HM2. simpl in HM2.
      rewrite Z.div_1_r in HM2. lia. }
  destruct (M2 <? 2 ^ 53).
  - destruct M2 as [ | p | p]; try lia. simpl.
    destruct (_ <=? _); reflexivity.
  - simpl. destruct (_ <=? _); reflexivity.
Qed.

(** *** [binary_normalize] *)

Lemma binary_normalize_signed (M e : Z) :
  0 <= M -> signed false (binary_normalize prec emax M e false).
Proof.
  destruct M as [ | p | p]; simpl; intros H; try lia; try reflexivity.
  apply binary_round_signed.
Qed.

Lemma binary_normalize_signed_neg (M e : Z) :
  M < 0 -> signed true (binary_normalize prec emax M e false).
Proof.
  destruct M as [ | p | p]; simpl; intros H; try lia.
  apply binary_round_signed.
Qed.

Lemma binary_normalize_nonzero (M e : Z) :
  0 < M -> -1074 <= e ->
  nonzero false (binary_normalize prec emax M e false).
Proof.
  destruct M as [ | p | p]; simpl; intros H He; try lia.
  apply binary_round_nonzero. assumption.
Qed.

Lemma signed_true_le (x : spec_float) (mb : positive) (eb : Z) :
  signed true x -> SFleb x (S754_finite false mb eb) = true.
Proof. destruct x as [s | s | | s m e]; simpl; intros H; subst; tauto. Qed.

Lemma binary_normalize_le (M e : Z) (mb : positive) (eb e0 : Z) :
  e0 <= e -> e0 <= eb ->
  M * 2 ^ (e - e0) <= Zpos mb * 2 ^ (eb - e0) ->
  bounded prec emax mb eb = true ->
  SFleb (binary_normalize prec emax M e false) (S754_finite false mb eb)
  = true.
Proof.
  intros H0 H0b Hle Hb. destruct M as [ | p | p].
  - reflexivity.
  - simpl. apply binary_round_le with (e0 := e0); assumption.
  - apply signed_true_le. apply binary_normalize_signed_neg. lia.
Qed.

(** *** Sums and differences of finite numbers *)

Lemma cond_Zopp_mul (s : bool) (a b : Z) :
  cond_Zopp s a * b = cond_Zopp s (a * b).
Proof. destruct s; simpl; lia. Qed.

Lemma SFadd_finite (sx : bool) (mx : positive) (ex : Z)
    (sy : bool) (my : positive) (ey : Z) :
  SF64add (S754_finite sx mx ex) (S754_finite sy my ey)
  = binary_normalize prec emax
      (cond_Zopp sx (Zpos mx * 2 ^ (ex - Z.min ex ey))
       + cond_Zopp sy (Zpos my * 2 ^ (ey - Z.min ex ey)))
      (Z.min ex ey) false.
Proof.
  unfold SF64add, SFadd.
  destruct (shl_align_spec mx ex (Z.min ex ey)) as (ax & -> & Hax).
  destruct (shl_align_spec my ey (Z.min ex ey)) as (ay & -> & Hay).
  simpl fst.
  replace (Z.min ex (Z.min ex ey)) with (Z.min ex ey) in Hax by lia.
  replace (Z.min ey (Z.min ex ey)) with (Z.min ex ey) in Hay by lia.
  rewrite Hax, Hay. reflexivity.
Qed.

Lemma SFsub_finite (sx : bool) (mx : positive) (ex : Z)
    (sy : bool) (my : positive) (ey : Z) :
  SF64sub (S754_finite sx mx ex) (S754_finite sy my ey)
  = binary_normalize prec emax
      (cond_Zopp sx (Zpos mx * 2 ^ (ex - Z.min ex ey))
       - cond_Zopp sy (Zpos my * 2 ^ (ey - Z.min ex ey)))
      (Z.min ex ey) false.
Proof.
  unfold SF64sub, SFsub.
  destruct (shl_align_spec mx ex (Z.min ex ey)) as (ax & -> & Hax).
  destruct (shl_align_spec my ey (Z.min ex ey)) as (ay & -> & Hay).
  simpl fst.
  replace (Z.min ex (Z.min ex ey)) with (Z.min ex ey) in Hax by lia.
  replace (Z.min ey (Z.min ex ey)) with (Z.min ex ey) in Hay by lia.
  rewrite Hax, Hay. reflexivity.
Qed.

(** The exact sum, scaled to any common exponent [e0]. *)
Lemma rescale (m e ez e0 : Z) :
  e0 <= ez -> ez <= e ->
  m * 2 ^ (e - ez) * 2 ^ (ez - e0) = m * 2 ^ (e - e0).
Proof.
  intros. rewrite <- Z.mul_assoc, <- Z.pow_add_r by lia. do 2 f_equal. lia.
Qed.

(** *** Order *)

Lemma signed_nonneg (x : spec_float) : signed false x -> nonneg x.
Proof. destruct x as [s | s | | s m e]; simpl; intros H; subst; tauto. Qed.

Lemma nonzero_nonneg (x : spec_float) : nonzero false x -> nonneg x.
Proof. destruct x as [s | s | | s m e]; simpl; intros H; subst; tauto. Qed.

Lemma nonneg_zero_le (x : spec_float) :
  nonneg x -> SFleb (S754_zero false) x = true.
Proof. destruct x as [s | [ | ] | | [ | ] m e]; simpl; tauto. Qed.

Lemma SFltb_SFleb (x y : spec_float) : SFltb x y = true -> SFleb x y = true.
Proof.
  unfold SFltb, SFleb. destruct (SFcompare x y) as [[ | | ] | ];
    intros H; try discriminate; reflexivity.
Qed.

(** Without [NaN] the order is total. *)
Lemma SFltb_false_SFleb (x y : spec_float) :
  x <> S754_nan -> y <> S754_nan ->
  SFltb x y = false -> SFleb y x = true.
Proof.
  intros Hx Hy. unfold SFltb, SFleb.
  destruct x as [sx | sx | | sx mx ex]; try congruence;
    destruct y as [sy | sy | | sy my ey]; try congruence; simpl;
    try (destruct sx; try destruct sy; simpl; congruence).
  destruct sx, sy; simpl; try congruence;
    rewrite (Z.compare_antisym ex ey);
    destruct (ex ?= ey); simpl; try congruence;
    change (Pos.compare_cont Eq my mx) with (Pos.compare my mx);
    change (Pos.compare_cont Eq mx my) with (Pos.compare mx my);
    rewrite (Pos.compare_antisym mx my);
    destruct (mx ?= my)%positive; simpl; congruence.
Qed.

(** The order of two valid positive numbers, on their values. *)
Lemma SFleb_finite (m1 : positive) (e1 : Z) (m2 : positive) (e2 : Z) :
  SFleb (S754_finite false m1 e1) (S754_finite false m2 e2) = true ->
  e1 < e2 \/ (e1 = e2 /\ Zpos m1 <= Zpos m2).
Proof.
  unfold SFleb, SFcompare.
  destruct (Z.compare_spec e1 e2) as [Heq | Hlt | Hgt]; intros H;
    try discriminate; [right | left; assumption].
  split; [assumption | ].
  pose proof (Pos.compare_spec m1 m2) as Hc. unfold Pos.compare in Hc.
  destruct Hc; try discriminate; lia.
Qed.

Lemma SFltb_finite (m1 : positive) (e1 : Z) (m2 : positive) (e2 : Z) :
  SFltb (S754_finite false m1 e1) (S754_finite false m2 e2) = true ->
  e1 < e2 \/ (e1 = e2 /\ Zpos m1 < Zpos m2).
Proof.
  unfold SFltb, SFcompare.
  destruct (Z.compare_spec e1 e2) as [Heq | Hlt | Hgt]; intros H;
    try discriminate; [right | left; assumption].
  split; [assumption | ].
  pose proof (Pos.compare_spec m1 m2) as Hc. unfold Pos.compare in Hc.
  destruct Hc; try discriminate; lia.
Qed.

Lemma SFleb_finite_neg (m1 : positive) (e1 : Z) (m2 : positive) (e2 : Z) :
  SFleb (S754_finite true m1 e1) (S754_finite true m2 e2) = true ->
  e2 < e1 \/ (e1 = e2 /\ Zpos m2 <= Zpos m1).
Proof.
  unfold SFleb, SFcompare.
  destruct (Z.compare_spec e1 e2) as [Heq | Hlt | Hgt]; intros H;
    try discriminate; [right | left; assumption].
  split; [assumption | ].
  pose proof (Pos.compare_spec m1 m2) as Hc. unfold Pos.compare in Hc.
  destruct Hc; simpl in H; try discriminate; lia.
Qed.

Lemma lex_scaled_le (m1 : positive) (e1 : Z) (m2 : positive) (e2 e0 : Z) :
  bounded prec emax m1 e1 = true -> bounded prec emax m2 e2 = true ->
  e1 < e2 \/ (e1 = e2 /\ Zpos m1 <= Zpos m2) ->
  e0 <= e1 -> e0 <= e2 ->
  Zpos m1 * 2 ^ (e1 - e0) <= Zpos m2 * 2 ^ (e2 - e0).
Proof.
  intros Hb1 Hb2 Hlex H01 H02.
  pose proof (bounded_mantissa _ _ Hb1) as (Hmin1 & Hlt1 & _).
  pose proof (bounded_mantissa _ _ Hb2) as (_ & _ & Hn2).
  assert (Hp : 0 < 2 ^ (e1 - e0)) by (apply Z.pow_pos_nonneg; lia).
  destruct Hlex as [Hlt | [-> Hle]].
  - assert (Hm2 : 2 ^ 52 <= Zpos m2) by (apply Hn2; lia).
    assert (Hpp : 2 * 2 ^ (e1 - e0) <= 2 ^ (e2 - e0)).
    { rewrite <- Z.pow_succ_r by lia. apply Z.pow_le_mono_r; lia. }
    change (2 ^ 53) with (2 * 2 ^ 52) in Hlt1.
    clear - Hm2 Hpp Hlt1 Hp. nia.
  - apply Z.mul_le_mono_nonneg_r; lia.
Qed.

Lemma lex_scaled_lt (m1 : positive) (e1 : Z) (m2 : positive) (e2 e0 : Z) :
  bounded prec emax m1 e1 = true -> bounded prec emax m2 e2 = true ->
  e1 < e2 \/ (e1 = e2 /\ Zpos m1 < Zpos m2) ->
  e0 <= e1 -> e0 <= e2 ->
  Zpos m1 * 2 ^ (e1 - e0) < Zpos m2 * 2 ^ (e2 - e0).
Proof.
  intros Hb1 Hb2 Hlex H01 H02.
  pose proof (bounded_mantissa _ _ Hb1) as (Hmin1 & Hlt1 & _).
  pose proof (bounded_mantissa _ _ Hb2) as (_ & _ & Hn2).
  assert (Hp : 0 < 2 ^ (e1 - e0)) by (apply Z.pow_pos_nonneg; lia).
  destruct Hlex as [Hlt | [-> Hle]].
  - assert (Hm2 : 2 ^ 52 <= Zpos m2) by (apply Hn2; lia).
    assert (Hpp : 2 * 2 ^ (e1 - e0) <= 2 ^ (e2 - e0)).
    { rewrite <- Z.pow_succ_r by lia. apply Z.pow_le_mono_r; lia. }
    change (2 ^ 53) with (2 * 2 ^ 52) in Hlt1.
    clear - Hm2 Hpp Hlt1 Hp. nia.
  - apply Z.mul_lt_mono_pos_r; lia.
Qed.

Lemma SFleb_refl_finite (s : bool) (m : positive) (e : Z) :
  SFleb (S754_finite s m e) (S754_finite s m e) = true.
Proof.
  unfold SFleb, SFcompare. rewrite Z.compare_refl.
  change (Pos.compare_cont Eq m m) with (Pos.compare m m).
  rewrite Pos.compare_refl. destruct s; reflexivity.
Qed.

Lemma SFleb_SFltb_false (x y : spec_float) :
  SFleb x y = true -> SFltb y x = false.
Proof.
  unfold SFltb, SFleb.
  destruct x as [sx | sx | | sx mx ex]; try discriminate;
    destruct y as [sy | sy | | sy my ey]; try discriminate; simpl;
    try (destruct sx; try destruct sy; simpl; congruence).
  destruct sx, sy; simpl; try congruence;
    rewrite (Z.compare_antisym ex ey);
    destruct (ex ?= ey); simpl; try congruence;
    change (Pos.compare_cont Eq my mx) with (Pos.compare my mx);
    change (Pos.compare_cont Eq mx my) with (Pos.compare mx my);
    rewrite (Pos.compare_antisym mx my);
    destruct (mx ?= my)%positive; simpl; congruence.
Qed.

(** *** Bounds on the operations *)

(** Taking a non-negative number from a positive one does not
    increase it. *)
Lemma SFsub_nonneg_le (mc : positive) (ec : Z) (y : spec_float) :
  bounded prec emax mc ec = true -> nonneg y ->
  SFleb (SF64sub (S754_finite false mc ec) y) (S754_finite false mc ec)
  = true.
Proof.
  intros Hb Hy. destruct y as [s | s | | s my ey]; simpl in Hy.
  - apply SFleb_refl_finite.
  - destruct s; [tauto | reflexivity].
  - tauto.
  - destruct s; [tauto | ].
    rewrite SFsub_finite. unfold cond_Zopp.
    assert (0 < Zpos my * 2 ^ (ey - Z.min ec ey))
      by (apply Z.mul_pos_pos; [lia | apply Z.pow_pos_nonneg; lia]).
    apply binary_normalize_le with (e0 := Z.min ec ey);
      [lia | lia | | assumption].
    rewrite Z.sub_diag. simpl (2 ^ 0). lia.
Qed.

(** Sums of non-negative numbers are non-negative. *)
Lemma SFadd_nonneg (x y : spec_float) :
  nonneg x -> nonneg y -> nonneg (SF64add x y).
Proof.
  intros Hx Hy.
  destruct x as [sx | [ | ] | | [ | ] mx ex]; simpl in Hx; try tauto;
    destruct y as [sy | [ | ] | | [ | ] my ey]; simpl in Hy; try tauto;
    try exact I; try (destruct sx; try destruct sy; exact I).
  rewrite SFadd_finite. apply signed_nonneg, binary_normalize_signed.
  unfold cond_Zopp.
  assert (0 < 2 ^ (ex - Z.min ex ey)) by (apply Z.pow_pos_nonneg; lia).
  assert (0 < 2 ^ (ey - Z.min ex ey)) by (apply Z.pow_pos_nonneg; lia).
  nia.
Qed.

(** A non-negative number divided by a positive finite one is
    non-negative. *)
Lemma SFdiv_nonneg (x : spec_float) (my : positive) (ey : Z) :
  nonneg x -> nonneg (SF64div x (S754_finite false my ey)).
Proof.
  intros Hx. destruct x as [sx | [ | ] | | [ | ] mx ex]; simpl in Hx;
    try tauto; try exact I.
  unfold SF64div, SFdiv.
  destruct (SFdiv_core_binary prec emax (Zpos mx) ex (Zpos my) ey)
    as [[mz ez] lz] eqn:Hcore.
  apply signed_nonneg. simpl xorb. apply binary_round_aux_signed.
  unfold SFdiv_core_binary in Hcore.
  set (e' := Z.min _ _) in Hcore. set (sh := ex - ey - e') in Hcore.
  set (m' := match sh with
             | Z0 => Zpos mx | Zpos _ => Z.shiftl (Zpos mx) sh | Zneg _ => 0
             end) in Hcore.
  assert (Hm' : 0 <= m').
  { subst m'. destruct sh; try lia. apply Z.shiftl_nonneg. lia. }
  pose proof (Z_div_mod m' (Zpos my) ltac:(lia)) as Hdm.
  destruct (Z.div_eucl m' (Zpos my)) as [q r].
  injection Hcore as <- _ _. destruct Hdm as [Hq Hr]. nia.
Qed.

(** Multiplying by a normal number [k]: below [p], the product stays
    below every valid number above the exact product of [p] and
    [k]. *)
Lemma SFmul_le (mf : positive) (ef : Z) (mk : positive) (ek : Z)
    (mp : positive) (ep : Z) (mb : positive) (eb : Z) :
  bounded prec emax mf ef = true -> bounded prec emax mb eb = true ->
  2 ^ 52 <= Zpos mk -> 2 ^ 52 <= Zpos mp ->
  SFleb (S754_finite false mf ef) (S754_finite false mp ep) = true ->
  ep + ek <= eb ->
  Zpos mp * Zpos mk <= Zpos mb * 2 ^ (eb - (ep + ek)) ->
  SFleb (SF64mul (S754_finite false mf ef) (S754_finite false mk ek))
    (S754_finite false mb eb) = true.
Proof.
  intros Hbf Hbb Hk Hp Hle Hexp Hprod.
  apply SFleb_finite in Hle.
  pose proof (bounded_mantissa _ _ Hbf) as (Hminf & Hltf & _).
  pose proof (digits2_pos_bounds mf) as [Hflo Hfhi].
  unfold SF64mul, SFmul. simpl xorb.
  assert (Hdig : Zpos (digits2_pos mf) + 51 < Zdigits2 (Zpos (mf * mk))).
  { apply Zdigits2_gt; [lia | lia | ].
    replace (Zpos (digits2_pos mf) + 51)
      with (Zpos (digits2_pos mf) - 1 + 52) by lia.
    rewrite Z.pow_add_r, Pos2Z.inj_mul by lia.
    apply Z.mul_le_mono_nonneg; try lia;
      try (apply Z.pow_nonneg; lia). }
  apply binary_round_aux_le; try assumption; try lia.
  - rewrite fexp_spec. lia.
  - rewrite Pos2Z.inj_mul.
    assert (Hp0 : 0 < 2 ^ (eb - (ep + ek)))
      by (apply Z.pow_pos_nonneg; lia).
    destruct Hle as [Hlt | [-> Hle]].
    + assert (Hpp : 2 * 2 ^ (eb - (ep + ek)) <= 2 ^ (eb - (ef + ek))).
      { rewrite <- Z.pow_succ_r by lia. apply Z.pow_le_mono_r; lia. }
      change (2 ^ 53) with (2 * 2 ^ 52) in Hltf.
      assert (Zpos mf * Zpos mk <= 2 * (Zpos mp * Zpos mk)) by nia.
      nia.
    + apply Z.le_trans with (2 := Hprod).
      apply Z.mul_le_mono_nonneg_r; lia.
Qed.

Lemma SFmul_nonneg (x : spec_float) (mk : positive) (ek : Z) :
  nonneg x -> nonneg (SF64mul x (S754_finite false mk ek)).
Proof.
  intros Hx. destruct x as [sx | [ | ] | | [ | ] mx ex]; simpl in Hx;
    try tauto; try exact I.
  unfold SF64mul, SFmul. simpl xorb.
  apply signed_nonneg, binary_round_aux_signed. lia.
Qed.

(** Adding to a positive [x] a negative number no larger in absolute
    value. *)
Lemma SFadd_neg_range (mx : positive) (ex : Z) (ma : positive) (ea : Z) :
  bounded prec emax mx ex = true -> bounded prec emax ma ea = true ->
  ea < ex \/ (ea = ex /\ Zpos ma <= Zpos mx) ->
  signed false (SF64add (S754_finite false mx ex) (S754_finite true ma ea))
  /\ SFleb (SF64add (S754_finite false mx ex) (S754_finite true ma ea))
       (S754_finite false mx ex) = true.
Proof.
  intros Hbx Hba Hlex. rewrite SFadd_finite. unfold cond_Zopp.
  pose proof (@lex_scaled_le ma ea mx ex (Z.min ex ea) Hba Hbx Hlex
                ltac:(lia) ltac:(lia)) as Hs.
  assert (0 < Zpos ma * 2 ^ (ea - Z.min ex ea))
    by (apply Z.mul_pos_pos; [lia | apply Z.pow_pos_nonneg; lia]).
  split.
  - apply binary_normalize_signed. lia.
  - apply binary_normalize_le with (e0 := Z.min ex ea);
      [lia | lia | | assumption].
    rewrite Z.sub_diag. simpl (2 ^ 0). lia.
Qed.

(** Reflecting about [p]: for [p < n <= x] with [x] the double of
    [p], the difference [x - n] lies between zero and [p]. *)
Lemma SFsub_reflect (mp : positive) (ep : Z) (mn : positive) (en : Z) :
  bounded prec emax mp ep = true -> bounded prec emax mp (ep + 1) = true ->
  bounded prec emax mn en = true ->
  SFltb (S754_finite false mp ep) (S754_finite false mn en) = true ->
  SFleb (S754_finite false mn en) (S754_finite false mp (ep + 1)) = true ->
  signed false
    (SF64sub (S754_finite false mp (ep + 1)) (S754_finite false mn en))
  /\ SFleb
       (SF64sub (S754_finite false mp (ep + 1)) (S754_finite false mn en))
       (S754_finite false mp ep) = true.
Proof.
  intros Hbp Hbx Hbn Hlt Hle.
  apply SFltb_finite in Hlt. apply SFleb_finite in Hle.
  rewrite SFsub_finite. unfold cond_Zopp.
  set (ez := Z.min (ep + 1) en).
  pose proof (bounded_mantissa _ _ Hbp) as (Hminp & _ & _).
  pose proof (bounded_mantissa _ _ Hbn) as (Hminn & _ & _).
  split.
  - apply binary_normalize_signed.
    pose proof (@lex_scaled_le mn en mp (ep + 1) ez Hbn Hbx Hle
                  ltac:(lia) ltac:(lia)). lia.
  - set (e0 := Z.min ez ep).
    apply binary_normalize_le with (e0 := e0); [lia | lia | | assumption].
    rewrite Z.mul_sub_distr_r, !rescale by lia.
    pose proof (@lex_scaled_lt mp ep mn en e0 Hbp Hbn Hlt
                  ltac:(lia) ltac:(lia)) as Hpn.
    replace (ep + 1 - e0) with (Z.succ (ep - e0)) by lia.
    rewrite Z.pow_succ_r by lia. lia.
Qed.

(** A number that is zero or finite, minus itself, is [+0]. *)
Lemma SFsub_diag (x : spec_float) :
  finite x -> SF64sub x x = S754_zero false.
Proof.
  destruct x as [[ | ] | s | | s m e]; intros H; simpl in H; try tauto;
    try reflexivity.
  rewrite SFsub_finite, Z.sub_diag. reflexivity.
Qed.

(** *** Counting by repeated increment *)

Lemma count_step (c : spec_float) :
  valid_binary c = true ->
  c = S754_zero false \/ counted c ->
  counted (SF64add c one64).
Proof.
  intros Hv [-> | (m & e & -> & Hle)].
  - exists 4503599627370496%positive, (-52). split; reflexivity.
  - simpl in Hv.
    pose proof (bounded_mantissa _ _ Hv) as (Hmin & Hlt & Hnorm).
    apply SFleb_finite in Hle.
    destruct (Z.eq_dec e 1) as [-> | Hne].
    + assert (Zpos m = 4503599627370496).
      { assert (2 ^ 52 <= Zpos m) by (apply Hnorm; lia).
        change (2 ^ 52) with 4503599627370496 in *. lia. }
      injection H as ->.
      exists 4503599627370496%positive, 1. split; reflexivity.
    + assert (He : e <= 0) by lia. clear Hle Hne Hnorm.
      assert (Hnz : nonzero false (SF64add (S754_finite false m e) one64)).
      { unfold one64. rewrite SFadd_finite. unfold cond_Zopp.
        apply binary_normalize_nonzero; [ | lia].
        assert (0 < 2 ^ (e - Z.min e (-52)))
          by (apply Z.pow_pos_nonneg; lia).
        assert (0 < 2 ^ (-52 - Z.min e (-52)))
          by (apply Z.pow_pos_nonneg; lia).
        nia. }
      assert (Hle : SFleb (SF64add (S754_finite false m e) one64) two53
                    = true).
      { unfold one64, two53. rewrite SFadd_finite. unfold cond_Zopp.
        apply binary_normalize_le with (e0 := Z.min e (-52));
          [lia | lia | | reflexivity].
        rewrite Z.sub_diag. simpl (2 ^ 0). rewrite Z.mul_1_r.
        change 4503599627370496 with (2 ^ 52).
        destruct (Z_le_gt_dec (-52) e) as [Hge | Hlt'].
        - replace (Z.min e (-52)) with (-52) by lia.
          replace (-52 - -52) with 0 by lia.
          replace (1 - -52) with 53 by lia.
          assert (2 ^ (e - -52) <= 2 ^ 52) by (apply Z.pow_le_mono_r; lia).
          assert (0 < 2 ^ (e - -52)) by (apply Z.pow_pos_nonneg; lia).
          change (2 ^ 0) with 1.
          assert (Zpos m * 2 ^ (e - -52) <= (2 ^ 53 - 1) * 2 ^ 52).
          { apply Z.mul_le_mono_nonneg; lia. }
          change (2 ^ 53) with 9007199254740992 in *.
          change (2 ^ 52) with 4503599627370496 in *. lia.
        - replace (Z.min e (-52)) with e by lia.
          rewrite Z.sub_diag. simpl (2 ^ 0). rewrite Z.mul_1_r.
          replace (1 - e) with (53 + (-52 - e)) by lia.
          rewrite Z.pow_add_r by lia.
          assert (2 ^ 1 <= 2 ^ (-52 - e)) by (apply Z.pow_le_mono_r; lia).
          change (2 ^ 1) with 2 in *.
          change (2 ^ 53) with 9007199254740992 in *.
          change (2 ^ 52) with 4503599627370496 in *. nia. }
      destruct (SF64add (S754_finite false m e) one64)
        as [s | s | | s m' e']; simpl in Hnz; try tauto; subst s.
      * discriminate Hle.
      * exists m', e'. split; [reflexivity | assumption].
Qed.

(** *** Whole numbers *)

(** A whole number up to 2^53, given with a scale, is rounded to
    itself. *)
Lemma binary_round_whole (K j : Z) :
  0 < K <= 2 ^ 53 -> 0 <= j ->
  binary_round prec emax false (Z.to_pos (K * 2 ^ j)) (- j) = normal64 K.
Proof.
  intros [HK0 HK] Hj.
  assert (Hpj : 0 < 2 ^ j) by (apply Z.pow_pos_nonneg; lia).
  assert (HP : Zpos (Z.to_pos (K * 2 ^ j)) = K * 2 ^ j)
    by (apply Z2Pos.id; nia).
  destruct (binary_round_aligned false (Z.to_pos (K * 2 ^ j)) (- j))
    as (M & E & -> & HM & HE & HMeq & Hdig).
  change (Zpos (digits2_pos (Z.to_pos (K * 2 ^ j))))
    with (Zdigits2 (Zpos (Z.to_pos (K * 2 ^ j)))) in *.
  rewrite HP in *. rewrite Zdigits2_shift in * by lia.
  replace (Zdigits2 K + j + - j) with (Zdigits2 K) in * by lia.
  pose proof (Zdigits2_bounds HK0) as [Hlo Hhi].
  pose proof (Zdigits2_pos HK0) as Hd.
  assert (Hd54 : Zdigits2 K <= 54).
  { apply Zdigits2_le; [lia | lia | ].
    change (2 ^ 54) with (2 * 2 ^ 53). lia. }
  assert (Hf : fexp (Zdigits2 K) = Zdigits2 K - 53)
    by (rewrite fexp_spec; lia).
  rewrite Hf in HE.
  assert (HEf : E <= fexp (Zdigits2 M + E)) by (rewrite Hdig, Hf; lia).
  destruct (binary_round_aux_exact false HM HEf)
    as (M2 & _ & Hexact & _ & _ & ->).
  rewrite Hdig, Hf in *.
  assert (HMK : M = K * 2 ^ (- E)).
  { rewrite HMeq, <- Z.mul_assoc, <- Z.pow_add_r by lia.
    do 2 f_equal. lia. }
  unfold normal64.
  destruct (Z.ltb_spec K (2 ^ 53)) as [Hlt | Hge].
  - assert (Hd53 : Zdigits2 K <= 53) by (apply Zdigits2_le; lia).
    assert (Hsplit : M = K * 2 ^ (53 - Zdigits2 K)
                         * 2 ^ (Zdigits2 K - 53 - E)).
    { rewrite HMK, <- Z.mul_assoc, <- Z.pow_add_r by lia.
      do 2 f_equal. lia. }
    assert (Hp1 : 0 < 2 ^ (53 - Zdigits2 K))
      by (apply Z.pow_pos_nonneg; lia).
    assert (Hp2 : 0 < 2 ^ (Zdigits2 K - 53 - E))
      by (apply Z.pow_pos_nonneg; lia).
    assert (Hq : M2 = K * 2 ^ (53 - Zdigits2 K)).
    { rewrite Hexact.
      - rewrite Hsplit. apply Z.div_mul. lia.
      - rewrite Hsplit. apply Z.mod_mul. lia. }
    assert (HM2 : M2 < 2 ^ 53).
    { rewrite Hq. replace 53 with (Zdigits2 K + (53 - Zdigits2 K)) at 2 by lia.
      rewrite Z.pow_add_r by lia. nia. }
    destruct (Z.ltb_spec M2 (2 ^ 53)) as [_ | Hc]; [ | lia].
    rewrite <- Hq. unfold pack.
    destruct M2 as [ | p | p]; try nia.
    replace (Zdigits2 K - 53 <=? emax - prec)%Z with true
      by (symmetry; apply Z.leb_le; unfold emax, prec; lia).
    reflexivity.
  - assert (K = 2 ^ 53) by lia. subst K.
    change (Zdigits2 (2 ^ 53)) with 54 in *.
    assert (Hsplit : M = 2 ^ 52 * 2 ^ (54 - 53 - E)).
    { rewrite HMK. change (2 ^ 53) with (2 ^ 52 * 2 ^ 1).
      rewrite <- Z.mul_assoc, <- Z.pow_add_r by lia. do 2 f_equal; lia. }
    assert (Hp2 : 0 < 2 ^ (54 - 53 - E)) by (apply Z.pow_pos_nonneg; lia).
    assert (Hq : M2 = 2 ^ 52).
    { rewrite Hexact.
      - rewrite Hsplit. apply Z.div_mul. lia.
      - rewrite Hsplit. apply Z.mod_mul. lia. }
    rewrite Hq. reflexivity.
Qed.

(** Incrementing a whole number below 2^53. *)
Lemma increment_whole (K : Z) :
  0 < K < 2 ^ 53 -> SF64add (normal64 K) one64 = normal64 (K + 1).
Proof.
  intros [HK0 HK].
  pose proof (Zdigits2_bounds HK0) as [Hlo Hhi].
  pose proof (Zdigits2_pos HK0) as Hd.
  assert (Hd53 : Zdigits2 K <= 53) by (apply Zdigits2_le; lia).
  assert (Hp1 : 0 < 2 ^ (53 - Zdigits2 K)) by (apply Z.pow_pos_nonneg; lia).
  unfold normal64 at 1.
  destruct (Z.ltb_spec K (2 ^ 53)) as [_ | Hc]; [ | lia].
  unfold one64. rewrite SFadd_finite. unfold cond_Zopp.
  replace (Z.min (Zdigits2 K - 53) (-52)) with (-52) by lia.
  rewrite Z2Pos.id by nia.
  replace (-52 - -52) with 0 by lia. change (2 ^ 0) with 1.
  rewrite <- Z.mul_assoc, <- Z.pow_add_r by lia.
  replace (53 - Zdigits2 K + (Zdigits2 K - 53 - -52)) with 52 by lia.
  replace (K * 2 ^ 52 + 4503599627370496 * 1) with ((K + 1) * 2 ^ 52)
    by (change 4503599627370496 with (2 ^ 52); lia).
  assert (Hpos : 0 < (K + 1) * 2 ^ 52) by (change (2 ^ 52) with 4503599627370496; lia).
  unfold binary_normalize.
  destruct ((K + 1) * 2 ^ 52) as [ | p | p] eqn:Hp; try lia.
  replace p with (Z.to_pos ((K + 1) * 2 ^ 52)) by (rewrite Hp; reflexivity).
  apply (@binary_round_whole (K + 1) 52); lia.
Qed.

(** *** Primitive numbers *)

Lemma SFcompare_refl (x : spec_float) :
  x <> S754_nan -> SFcompare x x = Some Eq.
Proof.
  destruct x as [s | s | | s m e]; try congruence; intros _; simpl.
  - reflexivity.
  - destruct s; reflexivity.
  - rewrite Z.compare_refl.
    change (Pos.compare_cont Eq m m) with (Pos.compare m m).
    rewrite Pos.compare_refl. destruct s; reflexivity.
Qed.

Lemma is_nan_spec (x : float) :
  is_nan x = true <-> Prim2SF x = S754_nan.
Proof.
  unfold is_nan. rewrite FloatAxioms.eqb_spec. unfold SFeqb. split.
  - intros H. destruct (Prim2SF x) eqn:E; try reflexivity;
      rewrite SFcompare_refl in H by discriminate; discriminate.
  - intros ->. reflexivity.
Qed.

Lemma is_nan_false (x : float) :
  is_nan x = false <-> Prim2SF x <> S754_nan.
Proof.
  split; intros H.
  - intros E. apply is_nan_spec in E. congruence.
  - destruct (is_nan x) eqn:E; [ | reflexivity].
    apply is_nan_spec in E. contradiction.
Qed.

Lemma valid_finite (x : float) (s : bool) (m : positive) (e : Z) :
  Prim2SF x = S754_finite s m e -> bounded prec emax m e = true.
Proof. intros H. pose proof (Prim2SF_valid x) as Hv. rewrite H in Hv. exact Hv. Qed.

End Binary64.

(** ** Strings *)

Module StringFacts.
Import JSString.
Local Open Scope string_scope.

Lemma eqb_code_neq (c c0 : ascii) :
  code c <> code c0 -> Ascii.eqb c c0 = false.
Proof. intros H. apply Ascii.eqb_neq. congruence. Qed.

Lemma dropWhile_all {A} (p : A -> bool) (l : list A) :
  forallb p l = true -> dropWhile p l = [].
Proof.
  induction l as [ | x l IH]; simpl; [reflexivity | ].
  intros H. apply andb_prop in H. destruct H as [-> H]. auto.
Qed.

Lemma trim_whitespaceOnly (s : string) :
  whitespaceOnly s = true -> trim s = EmptyString.
Proof.
  unfold whitespaceOnly, trim. intros H.
  rewrite (dropWhile_all _ _ H). reflexivity.
Qed.

(** The bytes of white space are none of the comma and the square
    brackets. *)
Lemma ws1_code (c : ascii) :
  ws1 c = true ->
  forallb (fun k => negb (Nat.eqb (code c) k)) [44; 91; 93] = true.
Proof.
  unfold ws1. intros H.
  apply orb_true_iff in H.
  rewrite andb_true_iff, !Nat.leb_le, Nat.eqb_eq in H.
  simpl.
  destruct (Nat.eqb_spec (code c) 44); [lia | ].
  destruct (Nat.eqb_spec (code c) 91); [lia | ].
  destruct (Nat.eqb_spec (code c) 93); [lia | ]. reflexivity.
Qed.

Lemma high_code (c : ascii) :
  128 <= code c ->
  forallb (fun k => negb (Nat.eqb (code c) k)) [44; 91; 93] = true.
Proof.
  intros H. simpl.
  destruct (Nat.eqb_spec (code c) 44); [lia | ].
  destruct (Nat.eqb_spec (code c) 91); [lia | ].
  destruct (Nat.eqb_spec (code c) 93); [lia | ]. reflexivity.
Qed.

Lemma ws2_code (c1 c2 : ascii) :
  ws2 c1 c2 = true -> 128 <= code c1 /\ 128 <= code c2.
Proof.
  unfold ws2. rewrite andb_true_iff, !Nat.eqb_eq. lia.
Qed.

Lemma ws3_code (c1 c2 c3 : ascii) :
  ws3 c1 c2 c3 = true -> 128 <= code c1 /\ 128 <= code c2 /\ 128 <= code c3.
Proof.
  unfold ws3. cbv zeta.
  rewrite !orb_true_iff, !andb_true_iff, !orb_true_iff, !andb_true_iff,
    !Nat.eqb_eq, !Nat.leb_le.
  lia.
Qed.

Lemma whitespaceOnly_noneOf_bounded (n : nat) (s : string) :
  String.length s <= n ->
  whitespaceOnly s = true -> noneOf [44; 91; 93] s = true.
Proof.
  revert s. induction n as [ | n IH]; intros s Hlen.
  - destruct s; [reflexivity | simpl in Hlen; lia].
  - destruct s as [ | c1 r1]; [reflexivity | ].
    unfold whitespaceOnly. simpl tokens.
    destruct (ws1 c1) eqn:H1.
    + simpl forallb. intros H.
      cbn [noneOf]. rewrite (ws1_code _ H1).
      apply IH; [simpl in Hlen; lia | exact H].
    + destruct r1 as [ | c2 r2]; [discriminate | ].
      destruct (ws2 c1 c2) eqn:H2.
      * simpl forallb. intros H. apply ws2_code in H2 as [Ha Hb].
        cbn [noneOf]. rewrite (high_code _ Ha), (high_code _ Hb).
        apply IH; [simpl in Hlen; lia | exact H].
      * destruct r2 as [ | c3 r3]; [discriminate | ].
        destruct (ws3 c1 c2 c3) eqn:H3; [ | discriminate].
        simpl forallb. intros H. apply ws3_code in H3 as (Ha & Hb & Hc).
        cbn [noneOf].
        rewrite (high_code _ Ha), (high_code _ Hb), (high_code _ Hc).
        apply IH; [simpl in Hlen; lia | exact H].
Qed.

Lemma whitespaceOnly_noneOf (s : string) :
  whitespaceOnly s = true -> noneOf [44; 91; 93] s = true.
Proof. apply whitespaceOnly_noneOf_bounded with (n := String.length s). lia. Qed.

Lemma noneOf_head (c : ascii) (r : string) :
  noneOf [44; 91; 93] (String c r) = true ->
  Ascii.eqb c ","%char = false /\ Ascii.eqb c "["%char = false
  /\ Ascii.eqb c "]"%char = false /\ noneOf [44; 91; 93] r = true.
Proof.
  cbn [noneOf forallb]. rewrite !andb_true_iff, !negb_true_iff.
  intros [(H1 & H2 & H3 & _) Hr].
  apply Nat.eqb_neq in H1, H2, H3.
  repeat split; try assumption; apply eqb_code_neq; assumption.
Qed.

Lemma removeLeading_noneOf (s : string) :
  noneOf [44; 91; 93] s = true -> removeLeading "[" s = s.
Proof.
  destruct s as [ | c r]; [reflexivity | ]. intros H.
  apply noneOf_head in H as (_ & H & _). simpl. rewrite H. reflexivity.
Qed.

Lemma removeTrailing_noneOf (s : string) :
  noneOf [44; 91; 93] s = true -> removeTrailing "]" s = s.
Proof.
  induction s as [ | c r IH]; [reflexivity | ]. intros H.
  apply noneOf_head in H as (_ & _ & H & Hr). simpl.
  destruct r as [ | c' r']; [rewrite H; reflexivity | ].
  rewrite IH by assumption. reflexivity.
Qed.

Lemma split_noneOf (s : string) :
  noneOf [44; 91; 93] s = true -> split "," s = [s].
Proof.
  induction s as [ | c r IH]; [reflexivity | ]. intros H.
  apply noneOf_head in H as (H & _ & _ & Hr). simpl.
  rewrite H, IH by assumption. reflexivity.
Qed.

End StringFacts.

(** ** The feedback store and [analyze] *)

Section Store.
Import JSNumber Frame Feedback Spec.
Variable LLM : Type.
Variable LLMError : Type.
Variable executeLLM : LLM -> string -> LLM * (LLMError + string).
Variable finiteToString : number -> string.

Local Abbreviation getFeedback := (Feedback.getFeedback LLMError).
Local Abbreviation analyze := (Feedback.analyze executeLLM finiteToString).
Local Abbreviation validate := (Feedback.validateExistingLandmarks LLMError).

Lemma find_none_iff (feedbackID : string) (entries : list FeedbackEntry) :
  find (fun f => String.eqb (Feedback.feedbackID f) feedbackID) entries = None
  <-> ~ stored feedbackID entries.
Proof.
  split.
  - intros Hnone (entry & Hin & Hid).
    apply (find_none _ _ Hnone) in Hin.
    rewrite Hid, String.eqb_refl in Hin. discriminate.
  - intros Hno.
    destruct (find _ entries) as [entry | ] eqn:Hfind; [ | reflexivity].
    exfalso. apply Hno. apply find_some in Hfind.
    destruct Hfind as [Hin Hid]. apply String.eqb_eq in Hid.
    exists entry. split; assumption.
Qed.

Lemma find_app_first (feedbackID : string)
    (entries later : list FeedbackEntry) (entry : FeedbackEntry) :
  find (fun f => String.eqb (Feedback.feedbackID f) feedbackID) entries
  = Some entry ->
  find (fun f => String.eqb (Feedback.feedbackID f) feedbackID)
    (entries ++ later) = Some entry.
Proof.
  induction entries as [ | e entries IH]; simpl; [discriminate | ].
  destruct (String.eqb (Feedback.feedbackID e) feedbackID); auto.
Qed.

Lemma find_app_later (feedbackID : string)
    (entries later : list FeedbackEntry) :
  find (fun f => String.eqb (Feedback.feedbackID f) feedbackID) entries
  = None ->
  find (fun f => String.eqb (Feedback.feedbackID f) feedbackID)
    (entries ++ later)
  = find (fun f => String.eqb (Feedback.feedbackID f) feedbackID) later.
Proof.
  induction entries as [ | e entries IH]; simpl; [reflexivity | ].
  destruct (String.eqb (Feedback.feedbackID e) feedbackID);
    [discriminate | auto].
Qed.

(** C8: [getFeedback] leaves the world as it is; it throws, and then the
    "not found" error, exactly when no stored record has the identifier;
    otherwise it returns the feedback text and the accuracy of a stored
    record with that identifier (the first one). *)
Theorem getFeedback_found_iff_stored (feedbackID : string)
    (w : World LLM) :
  fst (getFeedback feedbackID w) = w
  /\ (snd (getFeedback feedbackID w) = Thrown (FeedbackNotFound feedbackID)
      <-> ~ stored feedbackID (feedbackList w))
  /\ ((exists e, snd (getFeedback feedbackID w) = Thrown e)
      <-> ~ stored feedbackID (feedbackList w))
  /\ (stored feedbackID (feedbackList w) ->
      exists entry,
        In entry (feedbackList w)
        /\ Feedback.feedbackID entry = feedbackID
        /\ find (fun f => String.eqb (Feedback.feedbackID f) feedbackID)
             (feedbackList w) = Some entry
        /\ snd (getFeedback feedbackID w)
           = Returned (feedback entry, accuracyValue entry)).
Proof.
  unfold Feedback.getFeedback.
  destruct (find _ (feedbackList w)) as [entry | ] eqn:Hfind.
  - assert (Hst : stored feedbackID (feedbackList w)).
    { apply find_some in Hfind. destruct Hfind as [Hin Hid].
      apply String.eqb_eq in Hid. exists entry. split; assumption. }
    split; [reflexivity | ]. split; [ | split].
    + split; [discriminate | intros Hno; contradiction].
    + split; [intros [e He]; discriminate | intros Hno; contradiction].
    + intros _. exists entry.
      apply find_some in Hfind as Hfs. destruct Hfs as [Hin Hid].
      apply String.eqb_eq in Hid. repeat split; assumption.
  - assert (Hno : ~ stored feedbackID (feedbackList w))
      by (apply find_none_iff; assumption).
    split; [reflexivity | ]. split; [ | split].
    + split; [intros _; assumption | reflexivity].
    + split; [intros _; assumption | ].
      intros _. exists (FeedbackNotFound feedbackID). reflexivity.
    + intros Hst. contradiction.
Qed.

(** *** [validateExistingLandmarks] *)

(** The check stops at the first token that is not a property of the
    enum object, and never writes to the world. *)
Lemma validate_first_unknown (existingLandmarksStr : string)
    (w : World LLM) :
  validate existingLandmarksStr w
  = (w,
     match
       find (fun lm => negb (in_PoseLandmark lm))
         (extractedLandmarks existingLandmarksStr)
     with
     | Some lm => Thrown (UnknownLandmark lm)
     | None => Returned tt
     end).
Proof.
  unfold Feedback.validateExistingLandmarks.
  induction (extractedLandmarks existingLandmarksStr) as [ | lm l IH];
    simpl; [reflexivity | ].
  unfold bind. destruct (in_PoseLandmark lm); simpl.
  - exact IH.
  - reflexivity.
Qed.

Lemma find_unknown_exists (l : list string) :
  (exists token, In token l /\ in_PoseLandmark token = false) ->
  exists lm,
    find (fun lm => negb (in_PoseLandmark lm)) l = Some lm
    /\ In lm l /\ in_PoseLandmark lm = false.
Proof.
  intros (token & Hin & Hbad).
  destruct (find (fun lm => negb (in_PoseLandmark lm)) l) as [lm | ] eqn:Hf.
  - exists lm. apply find_some in Hf as [Hl Hn].
    apply negb_true_iff in Hn. auto.
  - apply (find_none _ _ Hf) in Hin. rewrite Hbad in Hin. discriminate.
Qed.

(** *** [analyze] *)

(** When the first request succeeds, [analyze] appends one record,
    whatever happens next. *)
Lemma analyze_appends (referenceFrameData practiceFrameData : FrameData)
    (w : World LLM) (l1 : LLM) (aiFeedback : string) :
  executeLLM (llm w)
    (primaryPrompt finiteToString referenceFrameData practiceFrameData)
  = (l1, inr aiFeedback) ->
  feedbackList (fst (analyze referenceFrameData practiceFrameData w))
  = feedbackList w
    ++ [recordOf referenceFrameData practiceFrameData aiFeedback].
Proof.
  intros H1. unfold Feedback.analyze, bind at 1, await_executeLLM at 1.
  unfold primaryPrompt in H1. rewrite H1.
  unfold bind at 1, push. unfold bind at 1, await_executeLLM at 1.
  cbn [llm feedbackList warnings].
  destruct (executeLLM l1 _) as [l2 [e | existingLandmarks]];
    [reflexivity | ].
  unfold bind at 1. rewrite validate_first_unknown.
  destruct (find _ (extractedLandmarks existingLandmarks));
    [reflexivity | ].
  unfold bind at 1, await_executeLLM at 1. cbn [llm feedbackList warnings].
  destruct (executeLLM l2 _) as [l3 [e | isPositive]]; [reflexivity | ].
  unfold bind, console_warn, ret.
  destruct (negb _); destruct (Nat.ltb 500 _); reflexivity.
Qed.

(** When [analyze] returns, it returns the identifier made of the two
    frame identifiers. *)
Lemma analyze_returns (referenceFrameData practiceFrameData : FrameData)
    (w w' : World LLM) (feedbackID : string) :
  analyze referenceFrameData practiceFrameData w = (w', Returned feedbackID) ->
  feedbackID = identifierOf referenceFrameData practiceFrameData.
Proof.
  unfold Feedback.analyze, bind at 1, await_executeLLM at 1.
  destruct (executeLLM (llm w) _) as [l1 [e | aiFeedback]];
    [discriminate | ].
  unfold bind at 1, push. unfold bind at 1, await_executeLLM at 1.
  cbn [llm feedbackList warnings].
  destruct (executeLLM l1 _) as [l2 [e | existingLandmarks]];
    [discriminate | ].
  unfold bind at 1. rewrite validate_first_unknown.
  destruct (find _ (extractedLandmarks existingLandmarks));
    [discriminate | ].
  unfold bind at 1, await_executeLLM at 1. cbn [llm feedbackList warnings].
  destruct (executeLLM l2 _) as [l3 [e | isPositive]]; [discriminate | ].
  unfold bind, console_warn, ret.
  destruct (negb _); destruct (Nat.ltb 500 _); intros H;
    injection H as _ <-; reflexivity.
Qed.

(** The outcome of [analyze] when the vocabulary check fails. *)
Lemma analyze_unknown_landmark
    (referenceFrameData practiceFrameData : FrameData)
    (w : World LLM) (l1 l2 : LLM) (aiFeedback existingLandmarks lm : string) :
  executeLLM (llm w)
    (primaryPrompt finiteToString referenceFrameData practiceFrameData)
  = (l1, inr aiFeedback) ->
  executeLLM l1 (createCheckExistingLandmarkPrompt aiFeedback)
  = (l2, inr existingLandmarks) ->
  find (fun lm => negb (in_PoseLandmark lm))
    (extractedLandmarks existingLandmarks) = Some lm ->
  analyze referenceFrameData practiceFrameData w
  = ({| feedbackList :=
          feedbackList w
          ++ [recordOf referenceFrameData practiceFrameData aiFeedback];
        llm := l2;
        warnings := warnings w |},
     Thrown (UnknownLandmark lm)).
Proof.
  intros H1 H2 Hfind.
  unfold Feedback.analyze, bind at 1, await_executeLLM at 1.
  unfold primaryPrompt in H1. rewrite H1.
  unfold bind at 1, push. unfold bind at 1, await_executeLLM at 1.
  cbn [llm feedbackList warnings]. rewrite H2.
  unfold bind at 1. rewrite validate_first_unknown, Hfind.
  reflexivity.
Qed.

Lemma stored_app_last (feedbackID : string)
    (entries : list FeedbackEntry) (entry : FeedbackEntry) :
  Feedback.feedbackID entry = feedbackID ->
  stored feedbackID (entries ++ [entry]).
Proof.
  intros H. exists entry. split; [ | assumption].
  apply in_or_app. right. left. reflexivity.
Qed.

(** [getFeedback] on a store with a record appended: an earlier record
    with the identifier wins. *)
Lemma getFeedback_appended (feedbackID : string) (w w' : World LLM)
    (entry : FeedbackEntry) :
  feedbackList w' = feedbackList w ++ [entry] ->
  Feedback.feedbackID entry = feedbackID ->
  snd (getFeedback feedbackID w')
  = match
      find (fun f => String.eqb (Feedback.feedbackID f) feedbackID)
        (feedbackList w)
    with
    | Some earlier => Returned (feedback earlier, accuracyValue earlier)
    | None => Returned (feedback entry, accuracyValue entry)
    end.
Proof.
  intros Hw' Hid. unfold Feedback.getFeedback. rewrite Hw'.
  destruct (find _ (feedbackList w)) as [earlier | ] eqn:Hfind.
  - rewrite (find_app_first _ _ _ Hfind). reflexivity.
  - rewrite (find_app_later _ _ _ Hfind). cbn [find].
    rewrite Hid, String.eqb_refl. reflexivity.
Qed.

(** C2: when the vocabulary check finds a token that is not in the
    vocabulary, [analyze] throws the unknown-landmark error for it, and
    it does so after the record has been appended: the record is in the
    store, and [getFeedback] on its identifier returns (the record's own
    feedback and accuracy when no earlier record has the identifier). *)
Theorem analyze_unknown_landmark_after_store
    (referenceFrameData practiceFrameData : FrameData)
    (w : World LLM) (l1 l2 : LLM) (aiFeedback existingLandmarks : string) :
  executeLLM (llm w)
    (primaryPrompt finiteToString referenceFrameData practiceFrameData)
  = (l1, inr aiFeedback) ->
  executeLLM l1 (createCheckExistingLandmarkPrompt aiFeedback)
  = (l2, inr existingLandmarks) ->
  (exists token,
      In token (extractedLandmarks existingLandmarks)
      /\ in_PoseLandmark token = false) ->
  let w' := fst (analyze referenceFrameData practiceFrameData w) in
  let feedbackID := identifierOf referenceFrameData practiceFrameData in
  let entry := recordOf referenceFrameData practiceFrameData aiFeedback in
  (exists lm,
      snd (analyze referenceFrameData practiceFrameData w)
      = Thrown (UnknownLandmark lm)
      /\ In lm (extractedLandmarks existingLandmarks)
      /\ in_PoseLandmark lm = false)
  /\ feedbackList w' = feedbackList w ++ [entry]
  /\ stored feedbackID (feedbackList w')
  /\ (exists result, snd (getFeedback feedbackID w') = Returned result)
  /\ (~ stored feedbackID (feedbackList w) ->
      snd (getFeedback feedbackID w')
      = Returned (aiFeedback, accuracyValue entry)).
Proof.
  intros H1 H2 Hbad w' feedbackID entry.
  destruct (find_unknown_exists _ Hbad) as (lm & Hfind & Hin & Hlm).
  assert (Hrun := Hfind).
  eapply analyze_unknown_landmark in Hrun; [ | exact H1 | exact H2].
  assert (Hw' : feedbackList w' = feedbackList w ++ [entry])
    by (unfold w'; rewrite Hrun; reflexivity).
  pose proof (@getFeedback_appended feedbackID w w' entry Hw' eq_refl) as Hget.
  split; [exists lm; rewrite Hrun; auto | ].
  split; [assumption | ].
  split; [rewrite Hw'; apply stored_app_last; reflexivity | ].
  split.
  - rewrite Hget. destruct (find _ (feedbackList w)); eauto.
  - intros Hno. apply find_none_iff in Hno. rewrite Hget, Hno. reflexivity.
Qed.

(** C9: an answer ["[]"], empty or made of white space only is read as
    the single empty token, which is no property of the enum object: the
    validation throws the unknown-landmark error, and so does an
    [analyze] that receives this answer. *)
Theorem validate_empty_answer_throws (existingLandmarks : string)
    (w : World LLM) :
  existingLandmarks = "[]"%string
  \/ JSString.whitespaceOnly existingLandmarks = true ->
  extractedLandmarks existingLandmarks = [EmptyString]
  /\ in_PoseLandmark EmptyString = false
  /\ validate existingLandmarks w
     = (w, Thrown (UnknownLandmark EmptyString))
  /\ (forall (referenceFrameData practiceFrameData : FrameData)
             (l1 l2 : LLM) (aiFeedback : string),
        executeLLM (llm w)
          (primaryPrompt finiteToString referenceFrameData
             practiceFrameData) = (l1, inr aiFeedback) ->
        executeLLM l1 (createCheckExistingLandmarkPrompt aiFeedback)
        = (l2, inr existingLandmarks) ->
        snd (analyze referenceFrameData practiceFrameData w)
        = Thrown (UnknownLandmark EmptyString)).
Proof.
  intros Hanswer.
  assert (Htokens : extractedLandmarks existingLandmarks = [EmptyString]).
  { destruct Hanswer as [-> | Hws]; [reflexivity | ].
    unfold extractedLandmarks.
    pose proof (StringFacts.whitespaceOnly_noneOf _ Hws) as Hnone.
    rewrite StringFacts.removeLeading_noneOf,
      StringFacts.removeTrailing_noneOf, StringFacts.split_noneOf
      by assumption.
    simpl. rewrite StringFacts.trim_whitespaceOnly by assumption.
    reflexivity. }
  split; [assumption | ]. split; [reflexivity | ]. split.
  - rewrite validate_first_unknown, Htokens. reflexivity.
  - intros referenceFrameData practiceFrameData l1 l2 aiFeedback H1 H2.
    assert (Hfind :
      find (fun lm => negb (in_PoseLandmark lm))
        (extractedLandmarks existingLandmarks) = Some EmptyString)
      by (rewrite Htokens; reflexivity).
    eapply analyze_unknown_landmark in Hfind; [ | exact H1 | exact H2].
    rewrite Hfind. reflexivity.
Qed.

(** C10: the identifier [analyze] returns is ["fb-"], the reference
    identifier, ["-"] and the practice identifier. Two calls on frames
    with the same two identifiers append two records under that one
    identifier, and [getFeedback] then answers as it did before the
    second record came: with the earliest record of that identifier,
    the first call's record when the store had none. *)
Theorem analyze_twice_same_identifier
    (reference1 practice1 reference2 practice2 : FrameData)
    (w0 : World LLM) (l1 l2 : LLM) (feedback1 feedback2 : string) :
  id reference2 = id reference1 -> id practice2 = id practice1 ->
  let w1 := fst (analyze reference1 practice1 w0) in
  let w2 := fst (analyze reference2 practice2 w1) in
  executeLLM (llm w0) (primaryPrompt finiteToString reference1 practice1)
  = (l1, inr feedback1) ->
  executeLLM (llm w1) (primaryPrompt finiteToString reference2 practice2)
  = (l2, inr feedback2) ->
  let feedbackID := ("fb-" ++ id reference1 ++ "-" ++ id practice1)%string in
  let entry1 := recordOf reference1 practice1 feedback1 in
  let entry2 := recordOf reference2 practice2 feedback2 in
  (forall (w w' : World LLM) (returned : string),
      analyze reference1 practice1 w = (w', Returned returned) ->
      returned = feedbackID)
  /\ feedbackList w2 = feedbackList w0 ++ [entry1; entry2]
  /\ Feedback.feedbackID entry1 = feedbackID
  /\ Feedback.feedbackID entry2 = feedbackID
  /\ snd (getFeedback feedbackID w2) = snd (getFeedback feedbackID w1)
  /\ (exists earliest,
        find (fun f => String.eqb (Feedback.feedbackID f) feedbackID)
          (feedbackList w2) = Some earliest
        /\ snd (getFeedback feedbackID w2)
           = Returned (feedback earliest, accuracyValue earliest))
  /\ (~ stored feedbackID (feedbackList w0) ->
      snd (getFeedback feedbackID w2)
      = Returned (feedback1, accuracyValue entry1)).
Proof.
  intros Hr Hp w1 w2 H1 H2 feedbackID entry1 entry2.
  assert (Hw1 := H1). apply analyze_appends in Hw1.
  assert (Hw2 := H2). apply analyze_appends in Hw2.
  fold w1 in Hw1. fold w2 in Hw2. fold entry1 in Hw1. fold entry2 in Hw2.
  assert (Hid1 : Feedback.feedbackID entry1 = feedbackID) by reflexivity.
  assert (Hid2 : Feedback.feedbackID entry2 = feedbackID).
  { unfold entry2, recordOf, identifierOf, feedbackID. simpl.
    rewrite Hr, Hp. reflexivity. }
  pose proof (@getFeedback_appended feedbackID w0 w1 entry1 Hw1 Hid1) as Hg1.
  pose proof (@getFeedback_appended feedbackID w1 w2 entry2 Hw2 Hid2) as Hg2.
  assert (Hfind1 :
    exists earliest,
      find (fun f => String.eqb (Feedback.feedbackID f) feedbackID)
        (feedbackList w1) = Some earliest).
  { rewrite Hw1.
    destruct (find (fun f => String.eqb (Feedback.feedbackID f) feedbackID)
                (feedbackList w0)) as [e | ] eqn:Hf.
    - exists e. apply find_app_first. assumption.
    - exists entry1. rewrite (find_app_later _ _ _ Hf). cbn [find].
      rewrite Hid1, String.eqb_refl. reflexivity. }
  destruct Hfind1 as (earliest & Hfind1).
  split; [intros w w' returned Hrun; apply analyze_returns in Hrun;
          exact Hrun | ].
  split; [rewrite Hw2, Hw1, <- app_assoc; reflexivity | ].
  split; [assumption | ]. split; [assumption | ].
  split.
  { rewrite Hg2, Hfind1. unfold Feedback.getFeedback. rewrite Hfind1.
    reflexivity. }
  split.
  { exists earliest. split.
    - rewrite Hw2. apply find_app_first. assumption.
    - rewrite Hg2, Hfind1. reflexivity. }
  intros Hno. apply find_none_iff in Hno.
  rewrite Hg2. rewrite Hw1, (find_app_later _ _ _ Hno). cbn [find].
  rewrite Hid1, String.eqb_refl. reflexivity.
Qed.

End Store.

(** ** The prompt builder *)

Section Prompt.
Import JSString JSNumber Frame Feedback.
Local Open Scope string_scope.
Variable finiteToString : number -> string.

Lemma append_assoc (a b c : string) : (a ++ b) ++ c = a ++ (b ++ c).
Proof. induction a as [ | x a IH]; simpl; [ | rewrite IH]; reflexivity. Qed.

Lemma append_nil_r (a : string) : a ++ EmptyString = a.
Proof. induction a as [ | x a IH]; simpl; [ | rewrite IH]; reflexivity. Qed.

Lemma Includes_middle (pre sub post : string) :
  Includes (pre ++ sub ++ post) sub.
Proof. exists pre, post. reflexivity. Qed.

Lemma Includes_app_l (s t sub : string) :
  Includes s sub -> Includes (s ++ t) sub.
Proof.
  intros (pre & post & ->). exists pre, (post ++ t).
  rewrite !append_assoc. reflexivity.
Qed.

Lemma Includes_app_r (s t sub : string) :
  Includes t sub -> Includes (s ++ t) sub.
Proof.
  intros (pre & post & ->). exists (s ++ pre), post.
  rewrite !append_assoc. reflexivity.
Qed.

Lemma Includes_app_l3 (a b c t sub : string) :
  Includes (a ++ b ++ c) sub -> Includes (a ++ b ++ c ++ t) sub.
Proof.
  intros H. replace (a ++ b ++ c ++ t) with ((a ++ b ++ c) ++ t)
    by (rewrite !append_assoc; reflexivity).
  apply Includes_app_l. exact H.
Qed.

Lemma prefix_app (sub post : string) : String.prefix sub (sub ++ post) = true.
Proof.
  induction sub as [ | c sub IH]; simpl.
  - destruct post; reflexivity.
  - destruct (ascii_dec c c); [exact IH | contradiction].
Qed.

Lemma includes_unfold (s sub : string) :
  includes s sub
  = String.prefix sub s
    || match s with
       | EmptyString => false
       | String _ r => includes r sub
       end.
Proof. destruct s; reflexivity. Qed.

(** The test [includes] finds every occurrence. *)
Lemma Includes_includes (s sub : string) :
  Includes s sub -> includes s sub = true.
Proof.
  intros (pre & post & ->). induction pre as [ | c pre IH].
  - simpl append. rewrite includes_unfold, prefix_app. reflexivity.
  - simpl append. rewrite includes_unfold, IH. apply orb_true_r.
Qed.

(** An entry of a joined list stands between two separators, once the
    whole is put between separators. *)
Lemma join_nth (sep : string) (l : list string) (i : nat) (x : string) :
  nth_error l i = Some x ->
  Includes (sep ++ join sep l ++ sep) (sep ++ x ++ sep).
Proof.
  unfold join. revert i. induction l as [ | x0 l IH]; intros i Hi.
  - destruct i; discriminate.
  - destruct l as [ | y l].
    + destruct i as [ | i]; [ | destruct i; discriminate].
      injection Hi as ->. exists EmptyString, EmptyString.
      simpl. rewrite !append_assoc, append_nil_r. reflexivity.
    + change (String.concat sep (x0 :: y :: l))
        with (x0 ++ sep ++ String.concat sep (y :: l)).
      destruct i as [ | i].
      * injection Hi as ->.
        exists EmptyString, (String.concat sep (y :: l) ++ sep).
        simpl. rewrite !append_assoc. reflexivity.
      * simpl in Hi. specialize (IH i Hi).
        replace (sep ++ (x0 ++ sep ++ String.concat sep (y :: l)) ++ sep)
          with ((sep ++ x0) ++ (sep ++ String.concat sep (y :: l) ++ sep))
          by (rewrite !append_assoc; reflexivity).
        apply Includes_app_r. exact IH.
Qed.

Lemma nth_error_combine {A B} (l1 : list A) (l2 : list B) (i : nat)
    (a : A) (b : B) :
  nth_error l1 i = Some a -> nth_error l2 i = Some b ->
  nth_error (combine l1 l2) i = Some (a, b).
Proof.
  revert l2 i. induction l1 as [ | x l1 IH]; intros l2 i H1 H2.
  - destruct i; discriminate.
  - destruct l2 as [ | y l2]; [destruct i; discriminate | ].
    destruct i as [ | i]; simpl in *.
    + injection H1 as ->. injection H2 as ->. reflexivity.
    + apply IH; assumption.
Qed.

Lemma Object_entries_nth (a : list number) (i : nat) (d : number) :
  nth_error a i = Some d ->
  nth_error (Object_entries a) i = Some (ofNat i, d).
Proof.
  unfold Object_entries. intros Hd.
  assert (Hi : i < List.length a)
    by (apply nth_error_Some; rewrite Hd; discriminate).
  apply nth_error_combine; [ | assumption].
  rewrite nth_error_map, nth_error_seq.
  destruct (Nat.ltb_spec i (List.length a)); [reflexivity | lia].
Qed.

(** [toFixed] writes the sentinel as the marker [NaN]. *)
Lemma toFixed_NaN (x : number) (f : nat) :
  isNaN x = true -> toFixed finiteToString x f = "NaN".
Proof.
  unfold isNaN, toFixed, Number_toString. intros ->. reflexivity.
Qed.

(** Below 1e21 in absolute value, [toFixed] writes a number with
    exactly the fraction digits asked for. *)
Lemma append_length (a b : string) :
  String.length (a ++ b) = String.length a + String.length b.
Proof. induction a as [ | x a IH]; simpl; [ | rewrite IH]; reflexivity. Qed.

Lemma zeros_length (n : nat) : String.length (zeros n) = n.
Proof. induction n as [ | n IH]; simpl; [ | rewrite IH]; reflexivity. Qed.

Lemma substring_length (n m : nat) (s : string) :
  n + m <= String.length s -> String.length (substring n m s) = m.
Proof.
  revert m s. induction n as [ | n IH]; intros m s.
  - revert s. induction m as [ | m IHm]; intros s Hlen.
    + destruct s; reflexivity.
    + destruct s as [ | c s]; simpl in *; [lia | ].
      rewrite IHm by lia. reflexivity.
  - intros Hlen. destruct s as [ | c s]; simpl in *; [lia | ].
    apply IH. lia.
Qed.

Lemma toFixed_places (x : number) (f : nat) :
  isNaN x = false -> is_infinity x = false ->
  (1e21 <=? abs x)%float = false ->
  exists whole fraction,
    toFixed finiteToString x (S f)
    = (if (x <? 0)%float then "-" else EmptyString)
      ++ whole ++ "." ++ fraction
    /\ String.length fraction = S f.
Proof.
  unfold isNaN, toFixed. intros -> -> ->. simpl orb. cbv iota zeta.
  set (m := ofN (Z.to_N (nearestScaled (S f) (Prim2SF (abs x))))).
  set (m' := if Nat.leb (String.length m) (S f)
             then zeros (S f + 1 - String.length m) ++ m else m).
  exists (substring 0 (String.length m' - S f) m'),
    (substring (String.length m' - S f) (S f) m').
  split; [reflexivity | ].
  apply substring_length. unfold m'.
  destruct (Nat.leb_spec (String.length m) (S f)).
  - rewrite append_length, zeros_length. lia.
  - lia.
Qed.

(** The fixed text around the scores. *)
Lemma promptIntro_end :
  exists pre, promptIntro = pre ++ "Accuracy Score: ".
Proof.
  exists (substring 0 (String.length promptIntro - 16) promptIntro).
  vm_compute. reflexivity.
Qed.

Lemma promptAngles_text :
  promptAngles = "%" ++ newline ++ "Angle Differences:" ++ newline.
Proof. reflexivity. Qed.

Lemma promptConnections_text :
  promptConnections
  = newline ++ "LimbConnections associated with each angle for reference:"
    ++ newline.
Proof. reflexivity. Qed.

Lemma promptReference_start :
  exists post, promptReference = newline ++ post.
Proof. eexists. reflexivity. Qed.

(** C1, as the program has it: the request text contains the accuracy
    as [toFixed(1)] writes it (one decimal below 1e21), and for each
    delta a line of its own with the delta as [toFixed(2)] writes it (two
    decimals below 1e21, [NaN] for an undefined one). The line is
    labelled by the position of the delta in the sequence; the names of
    the two endpoints of each connection stand on a separate line, in
    the order of the connections. *)
Theorem prompt_renders_scores (differences : list number)
    (accuracyValue : number)
    (referenceFrameData practiceFrameData : FrameData) :
  let prompt :=
    createFeedbackPrompt finiteToString differences accuracyValue
      referenceFrameData practiceFrameData in
  Includes prompt
    ("Accuracy Score: " ++ toFixed finiteToString accuracyValue 1 ++ "%")
  /\ (forall (i : nat) (d : number),
        nth_error differences i = Some d ->
        Includes prompt
          (newline ++ "- " ++ ofNat i ++ ": difference = "
           ++ toFixed finiteToString d 2 ++ newline)
        /\ (isNaN d = true -> toFixed finiteToString d 2 = "NaN"))
  /\ (forall (x : number) (f : nat),
        isNaN x = false -> is_infinity x = false ->
        (1e21 <=? abs x)%float = false ->
        exists whole fraction,
          toFixed finiteToString x (S f)
          = (if (x <? 0)%float then "-" else EmptyString)
            ++ whole ++ "." ++ fraction
          /\ String.length fraction = S f)
  /\ Includes prompt
       (newline
        ++ "LEFT_SHOULDER to LEFT_ELBOW, LEFT_ELBOW to LEFT_WRIST, RIGHT_SHOULDER to RIGHT_ELBOW, RIGHT_ELBOW to RIGHT_WRIST"
        ++ newline)
  /\ (forall (i : nat) (start end_ : PoseLandmark),
        nth_error LIMB_CONNECTIONS i = Some (start, end_) ->
        nth_error (map connectionText LIMB_CONNECTIONS) i
        = Some (name start ++ " to " ++ name end_)).
Proof.
  intros prompt. unfold prompt, createFeedbackPrompt.
  destruct promptIntro_end as (intro & ->).
  destruct promptReference_start as (reference & ->).
  rewrite promptAngles_text, promptConnections_text.
  rewrite !append_assoc.
  set (accuracy := toFixed finiteToString accuracyValue 1).
  set (angleFeedback :=
         join newline (map (angleLine finiteToString)
                         (Object_entries differences))).
  set (rest := reference ++ _).
  split; [ | split; [ | split; [ | split]]].
  - exists intro. eexists. rewrite !append_assoc. reflexivity.
  - intros i d Hd. split; [ | apply toFixed_NaN].
    do 6 apply Includes_app_r. apply Includes_app_l3.
    replace (newline ++ "- " ++ ofNat i ++ ": difference = "
             ++ toFixed finiteToString d 2 ++ newline)
      with (newline ++ angleLine finiteToString (ofNat i, d) ++ newline)
      by (unfold angleLine; rewrite !append_assoc; reflexivity).
    apply join_nth with (i := i).
    apply map_nth_error, Object_entries_nth. assumption.
  - apply toFixed_places.
  - do 10 apply Includes_app_r. apply Includes_app_l3.
    exists EmptyString, EmptyString. vm_compute. reflexivity.
  - intros i start end_ Hi.
    apply map_nth_error with (f := connectionText) in Hi. exact Hi.
Qed.

End Prompt.

(** C1, as stated, fails: in the request text for the deltas
    [0, 45, 0, 0], the delta of the connection from the left elbow to
    the left wrist stands on the line ["- 1: difference = 45.00"], and no
    line with this delta names the two joints. *)
Lemma prompt_delta_line_without_names :
  In "- 1: difference = 45.00"%string
    (JSString.lines Examples.movedWristPrompt)
  /\ ~ (exists line,
          In line (JSString.lines Examples.movedWristPrompt)
          /\ JSString.Includes line "45.00"
          /\ JSString.Includes line (Frame.name Frame.LEFT_ELBOW)
          /\ JSString.Includes line (Frame.name Frame.LEFT_WRIST)).
Proof.
  split.
  - vm_compute. tauto.
  - intros (line & Hin & H1 & H2 & H3).
    apply Includes_includes in H1, H2, H3.
    assert (Hall :
      forallb
        (fun line =>
           negb (JSString.includes line "45.00"
                 && JSString.includes line (Frame.name Frame.LEFT_ELBOW)
                 && JSString.includes line (Frame.name Frame.LEFT_WRIST)))
        (JSString.lines Examples.movedWristPrompt) = true)
      by (vm_compute; reflexivity).
    rewrite forallb_forall in Hall. specialize (Hall line Hin).
    rewrite H1, H2, H3 in Hall. discriminate.
Qed.

(** ** Numbers of the program *)

Module NumberFacts.
Import JSNumber SF64 Binary64.
Local Open Scope float_scope.

(** The constants, as [spec_float]. *)
Lemma Prim2SF_0 : Prim2SF 0 = S754_zero false.
Proof. reflexivity. Qed.

Lemma Prim2SF_1 : Prim2SF 1 = one64.
Proof. reflexivity. Qed.

Lemma Prim2SF_100 : Prim2SF 100 = S754_finite false 7036874417766400 (-46).
Proof. reflexivity. Qed.

Lemma Prim2SF_180 : Prim2SF 180 = S754_finite false 6333186975989760 (-45).
Proof. reflexivity. Qed.

Lemma Prim2SF_PI :
  Prim2SF Math_PI = S754_finite false 7074237752028440 (-51).
Proof. reflexivity. Qed.

Lemma Prim2SF_minus_PI :
  Prim2SF (- Math_PI) = S754_finite true 7074237752028440 (-51).
Proof. reflexivity. Qed.

Lemma Prim2SF_2PI :
  Prim2SF (2 * Math_PI) = S754_finite false 7074237752028440 (-51 + 1).
Proof. reflexivity. Qed.

Lemma Prim2SF_degrees :
  Prim2SF (180 / Math_PI) = S754_finite false 8063664102031864 (-47).
Proof. reflexivity. Qed.

(** There is one [NaN] and one [+0]. *)
Lemma NaN_unique (x : number) : isNaN x = true -> x = NaN.
Proof.
  intros H. apply is_nan_spec in H. apply Prim2SF_inj. rewrite H. reflexivity.
Qed.

Lemma zero_unique (x : number) : Prim2SF x = S754_zero false -> x = 0.
Proof. intros H. apply Prim2SF_inj. rewrite H. reflexivity. Qed.

Lemma le_spec (x y : number) :
  le x y <-> SFleb (Prim2SF x) (Prim2SF y) = true.
Proof. unfold le. rewrite FloatAxioms.leb_spec. tauto. Qed.

Lemma le_not_nan (x y : number) : le x y -> isNaN x = false /\ isNaN y = false.
Proof.
  intros H. apply le_spec in H. split; apply is_nan_false; intros E;
    rewrite E in H; [ | destruct (Prim2SF x)]; discriminate.
Qed.

(** *** Subtraction *)

Lemma sub_NaN (p r : number) :
  isNaN p = true \/ isNaN r = true -> isNaN (p - r) = true.
Proof.
  intros H. apply is_nan_spec. rewrite FloatAxioms.sub_spec.
  destruct H as [H | H]; apply is_nan_spec in H; rewrite H.
  - reflexivity.
  - destruct (Prim2SF p); reflexivity.
Qed.

Lemma sub_diag (x : number) : finite (Prim2SF x) -> x - x = 0.
Proof.
  intros H. apply zero_unique. rewrite FloatAxioms.sub_spec.
  apply SFsub_diag. exact H.
Qed.

(** *** The accumulation of [calculateAccuracy] *)

Lemma abs_nonneg (x : number) :
  isNaN x = false -> nonneg (Prim2SF (Math_abs x)).
Proof.
  intros H. apply is_nan_false in H. unfold Math_abs.
  rewrite FloatAxioms.abs_spec.
  destruct (Prim2SF x); simpl; try exact I; congruence.
Qed.

Lemma add_nonneg (x y : number) :
  nonneg (Prim2SF x) -> nonneg (Prim2SF y) -> nonneg (Prim2SF (x + y)).
Proof. intros Hx Hy. rewrite FloatAxioms.add_spec. apply SFadd_nonneg; assumption. Qed.

Lemma sum_nonneg (l : list number) (s0 : number) :
  nonneg (Prim2SF s0) -> Forall (fun x => nonneg (Prim2SF x)) l ->
  nonneg (Prim2SF (fold_left (fun sum x => sum + x) l s0)).
Proof.
  revert s0. induction l as [ | x l IH]; intros s0 Hs Hl; simpl.
  - assumption.
  - inversion Hl; subst. apply IH; [apply add_nonneg | ]; assumption.
Qed.

Lemma increment_counted (c : number) :
  Prim2SF c = S754_zero false \/ counted (Prim2SF c) ->
  counted (Prim2SF (c + 1)).
Proof.
  intros H. rewrite FloatAxioms.add_spec, Prim2SF_1.
  apply count_step; [apply Prim2SF_valid | assumption].
Qed.

Lemma count_counted {A} (l : list A) (c0 : number) :
  Prim2SF c0 = S754_zero false \/ counted (Prim2SF c0) ->
  l <> [] ->
  counted (Prim2SF (fold_left (fun count _ => count + 1) l c0)).
Proof.
  revert c0. induction l as [ | x l IH]; intros c0 Hc Hl; [congruence | ].
  simpl. destruct l as [ | y l].
  - simpl. apply increment_counted. assumption.
  - apply IH; [right; apply increment_counted; assumption | discriminate].
Qed.

(** Up to 2^53 the counter holds the number of entries exactly. *)
Lemma count_from {A} (l : list A) (c0 : number) (k0 : Z) :
  (k0 = 0%Z /\ Prim2SF c0 = S754_zero false)
  \/ ((0 < k0)%Z /\ Prim2SF c0 = normal64 k0) ->
  (k0 + Z.of_nat (List.length l) <= 2 ^ 53)%Z -> l <> [] ->
  Prim2SF (fold_left (fun count _ => count + 1) l c0)
  = normal64 (k0 + Z.of_nat (List.length l)).
Proof.
  revert c0 k0. induction l as [ | x l IH]; intros c0 k0 Hc Hlen Hl;
    [congruence | ].
  assert (Hstep : Prim2SF (c0 + 1) = normal64 (k0 + 1)).
  { rewrite FloatAxioms.add_spec, Prim2SF_1.
    destruct Hc as [[-> ->] | [Hk ->]]; [reflexivity | ].
    apply increment_whole. simpl List.length in Hlen. lia. }
  simpl fold_left. destruct l as [ | y l].
  - simpl. rewrite Hstep. f_equal.
  - replace (k0 + Z.of_nat (List.length (x :: y :: l)))%Z
      with (k0 + 1 + Z.of_nat (List.length (y :: l)))%Z
      by (simpl List.length; lia).
    apply IH; [right; split; [ | exact Hstep] | | discriminate].
    + destruct Hc as [[-> _] | [Hk _]]; lia.
    + simpl List.length in *. lia.
Qed.

Lemma numberOf_whole (n : nat) :
  (0 < Z.of_nat n <= 2 ^ 53)%Z ->
  Prim2SF (Spec.numberOf n) = normal64 (Z.of_nat n).
Proof.
  intros [Hn0 Hn]. unfold Spec.numberOf.
  rewrite of_uint63_spec, Uint63.of_Z_spec.
  rewrite Z.mod_small.
  - destruct (Z.of_nat n) as [ | p | p] eqn:Hp; try lia.
    simpl binary_normalize.
    replace p with (Z.to_pos (Zpos p * 2 ^ 0)) at 1
      by (simpl; rewrite Pos.mul_1_r; reflexivity).
    apply (@binary_round_whole (Zpos p) 0); lia.
  - split; [lia | ].
    apply Z.le_lt_trans with (1 := Hn). reflexivity.
Qed.

Lemma countOf_numberOf {A} (l : list A) :
  (Z.of_nat (List.length l) <= 2 ^ 53)%Z ->
  Spec.countOf l = Spec.numberOf (List.length l).
Proof.
  intros Hlen. destruct l as [ | x l]; [reflexivity | ].
  apply Prim2SF_inj. unfold Spec.countOf.
  rewrite (@count_from A (x :: l) 0 0%Z);
    [ | left; split; reflexivity | lia | discriminate].
  rewrite numberOf_whole; [reflexivity | ].
  simpl List.length in *. lia.
Qed.

Lemma counted_not_zero (c : number) : counted (Prim2SF c) -> (c =? 0) = false.
Proof.
  intros (m & e & H & _). rewrite FloatAxioms.eqb_spec, H. reflexivity.
Qed.

(** A mean of non-negative numbers is non-negative, and 100 minus it is
    at most 100. *)
Lemma div_counted_nonneg (s c : number) :
  nonneg (Prim2SF s) -> counted (Prim2SF c) -> nonneg (Prim2SF (s / c)).
Proof.
  intros Hs (m & e & Hc & _). rewrite FloatAxioms.div_spec, Hc.
  apply SFdiv_nonneg. assumption.
Qed.

Lemma sub_100_le (y : number) : nonneg (Prim2SF y) -> le (100 - y) 100.
Proof.
  intros Hy. apply le_spec. rewrite FloatAxioms.sub_spec, Prim2SF_100.
  apply SFsub_nonneg_le; [reflexivity | assumption].
Qed.

Lemma lt_le (x y : number) : (x <? y) = true -> le x y.
Proof.
  intros H. apply le_spec. rewrite FloatAxioms.ltb_spec in H.
  apply SFltb_SFleb. assumption.
Qed.

(** [Math.max(0, z)] of a number [z <= 100] lies in [0, 100]. *)
Lemma max_0_range (z : number) :
  le z 100 -> le 0 (Math_max 0 z) /\ le (Math_max 0 z) 100.
Proof.
  intros Hz. destruct (le_not_nan Hz) as [Hn _].
  unfold Math_max. replace (is_nan 0) with false by reflexivity.
  unfold isNaN in Hn. rewrite Hn. simpl orb.
  replace (get_sign 0) with false by reflexivity.
  destruct (0 <? z) eqn:Hlt.
  - split; [apply lt_le; assumption | assumption].
  - destruct (z <? 0); split; reflexivity.
Qed.

End NumberFacts.

(** ** The difference scorer *)

Section Scorer.
Import JSNumber Frame Feedback Spec SF64 Binary64 NumberFacts.
Local Open Scope float_scope.

(** A loop that pushes one value per turn builds the list of the
    values. *)
Lemma fold_left_push {A B} (f : A -> B) (l : list A) (acc : list B) :
  fold_left (fun acc x => acc ++ [f x]) l acc = acc ++ map f l.
Proof.
  revert acc. induction l as [ | x l IH]; intros acc; simpl.
  - rewrite app_nil_r. reflexivity.
  - rewrite IH, <- app_assoc. reflexivity.
Qed.

Lemma computeAngleDifference_nth (reference practice : FrameData)
    (i : nat) (r : number) :
  nth_error (angles reference) i = Some r ->
  nth_error (computeAngleDifference reference practice) i
  = Some match nth_error (angles practice) i with
         | Some p => p - r
         | None => 0
         end.
Proof.
  intros Hr. unfold computeAngleDifference.
  rewrite fold_left_push. simpl app.
  assert (Hi : i < List.length (angles reference))
    by (apply nth_error_Some; rewrite Hr; discriminate).
  rewrite nth_error_map, nth_error_seq.
  destruct (Nat.ltb_spec i (List.length (angles reference))); [ | lia].
  simpl. rewrite (nth_error_nth _ _ NaN Hr). reflexivity.
Qed.

Lemma computeAngleDifference_length (reference practice : FrameData) :
  List.length (computeAngleDifference reference practice)
  = List.length (angles reference).
Proof.
  unfold computeAngleDifference. rewrite fold_left_push. simpl app.
  rewrite length_map, length_seq. reflexivity.
Qed.

(** The loop of [calculateAccuracy] sums the absolute values of the
    numeric deltas and counts them. *)
Lemma accumulate (values : list number) (sum0 count0 : number) :
  fold_left
    (fun '(sum, count) val =>
       if negb (isNaN val)
       then (sum + Math_abs val, count + 1)
       else (sum, count))
    values (sum0, count0)
  = (fold_left (fun sum x => sum + x)
       (map Math_abs (numericDeltas values)) sum0,
     fold_left (fun count _ => count + 1)
       (map Math_abs (numericDeltas values)) count0).
Proof.
  revert sum0 count0.
  induction values as [ | val values IH]; intros sum0 count0; simpl.
  - reflexivity.
  - destruct (isNaN val); simpl; apply IH.
Qed.

Lemma numericDeltas_numeric (deltas : list number) :
  Forall (fun x => isNaN x = false) (numericDeltas deltas).
Proof.
  apply Forall_forall. intros x Hx. apply filter_In in Hx.
  destruct Hx as [_ Hx]. apply negb_true_iff in Hx. exact Hx.
Qed.

Lemma numericDeltas_idempotent (deltas : list number) :
  numericDeltas (numericDeltas deltas) = numericDeltas deltas.
Proof.
  unfold numericDeltas. apply forallb_filter_id, forallb_filter.
Qed.

(** What the program computes, with the sum and the counter of its
    loop. *)
Lemma calculateAccuracy_loop (differences : list number) :
  calculateAccuracy differences
  = match numericDeltas differences with
    | [] => 0
    | numeric =>
        Math_max 0
          (100 - sumOf (map Math_abs numeric)
                 / countOf (map Math_abs numeric))
    end.
Proof.
  unfold calculateAccuracy.
  destruct differences as [ | x differences]; [reflexivity | ].
  simpl Nat.eqb. cbv iota. rewrite accumulate.
  destruct (numericDeltas (x :: differences)) as [ | n numeric] eqn:Hn.
  - reflexivity.
  - assert (Hc : counted (Prim2SF
                            (fold_left (fun count _ => count + 1)
                               (map Math_abs (n :: numeric)) 0))).
    { apply count_counted; [left; reflexivity | discriminate]. }
    rewrite (counted_not_zero _ Hc). reflexivity.
Qed.

(** The program computes the accuracy of the specification. *)
Lemma calculateAccuracy_spec (differences : list number) :
  (Z.of_nat (List.length differences) <= 2 ^ 53)%Z ->
  calculateAccuracy differences = accuracy differences.
Proof.
  intros Hlen. rewrite calculateAccuracy_loop. unfold accuracy, mean.
  assert (Hn : (Z.of_nat (List.length
                            (map Math_abs (numericDeltas differences)))
                <= 2 ^ 53)%Z).
  { rewrite length_map. unfold numericDeltas.
    pose proof (filter_length_le (fun delta => negb (isNaN delta))
                  differences). lia. }
  destruct (numericDeltas differences) as [ | n numeric]; [reflexivity | ].
  rewrite (countOf_numberOf _ Hn). reflexivity.
Qed.

Lemma calculateAccuracy_range (differences : list number) :
  le 0 (calculateAccuracy differences)
  /\ le (calculateAccuracy differences) 100.
Proof.
  rewrite calculateAccuracy_loop.
  pose proof (numericDeltas_numeric differences) as Hnum.
  destruct (numericDeltas differences) as [ | n numeric].
  - split; reflexivity.
  - apply max_0_range, sub_100_le. unfold sumOf, countOf.
    apply div_counted_nonneg.
    + apply sum_nonneg; [exact I | ].
      apply Forall_map. revert Hnum. apply Forall_impl.
      intros x Hx. apply abs_nonneg. exact Hx.
    + apply count_counted; [left; reflexivity | discriminate].
Qed.

(** C5: the accuracy the program computes is max(0, 100 - mean of the
    absolute values of the numeric deltas), the mean being their sum
    divided by their number (for a sequence of at most 2^53 entries; an
    array has fewer than 2^32); it is 0 when no delta is numeric, the
    empty sequence included; it always lies in [0, 100]. *)
Theorem calculateAccuracy_mean_and_range (differences : list number) :
  ((Z.of_nat (List.length differences) <= 2 ^ 53)%Z ->
   calculateAccuracy differences = accuracy differences)
  /\ (Forall (fun delta => isNaN delta = true) differences ->
      calculateAccuracy differences = 0)
  /\ le 0 (calculateAccuracy differences)
  /\ le (calculateAccuracy differences) 100.
Proof.
  split; [apply calculateAccuracy_spec | ]. split.
  - intros Hall. rewrite calculateAccuracy_loop.
    replace (numericDeltas differences) with (@nil number); [reflexivity | ].
    symmetry. unfold numericDeltas.
    induction Hall as [ | x l Hx Hl IH]; simpl; [reflexivity | ].
    rewrite Hx. simpl. exact IH.
  - apply calculateAccuracy_range.
Qed.

(** C6: where the practice sequence has no entry the delta is 0; where
    it has one the delta is practice minus reference, which is [NaN] as
    soon as one of the two is; and the aggregate is computed over the
    numeric deltas only, their sum divided by their count. *)
Theorem computeAngleDifference_cases (reference practice : FrameData)
    (i : nat) (r : number) :
  nth_error (angles reference) i = Some r ->
  let deltas := computeAngleDifference reference practice in
  (nth_error (angles practice) i = None -> nth_error deltas i = Some 0)
  /\ (forall p : number,
        nth_error (angles practice) i = Some p ->
        nth_error deltas i = Some (p - r)
        /\ (isNaN p = true \/ isNaN r = true -> isNaN (p - r) = true))
  /\ calculateAccuracy deltas = calculateAccuracy (numericDeltas deltas)
  /\ calculateAccuracy deltas
     = match numericDeltas deltas with
       | [] => 0
       | numeric =>
           Math_max 0
             (100 - sumOf (map Math_abs numeric)
                    / countOf (map Math_abs numeric))
       end.
Proof.
  intros Hr deltas.
  pose proof (computeAngleDifference_nth reference practice i Hr) as Hd.
  fold deltas in Hd.
  split; [intros Hp; rewrite Hd, Hp; reflexivity | ].
  split.
  - intros p Hp. rewrite Hd, Hp. split; [reflexivity | apply sub_NaN].
  - split; [ | apply calculateAccuracy_loop].
    rewrite !calculateAccuracy_loop, numericDeltas_idempotent.
    reflexivity.
Qed.

End Scorer.

(** ** The angle extractor *)

Section Extractor.
Import JSNumber Frame Feedback Spec SF64 Binary64 NumberFacts.
Local Open Scope float_scope.

(** Degrees of an angle between zero and [Math.PI]. *)
Lemma toDegrees_range (f : number) :
  nonneg (Prim2SF f) -> le f Math_PI ->
  le 0 (toDegrees f) /\ le (toDegrees f) 180.
Proof.
  intros Hf Hle. apply le_spec in Hle. rewrite Prim2SF_PI in Hle.
  unfold toDegrees. rewrite !le_spec, FloatAxioms.mul_spec.
  rewrite Prim2SF_degrees, Prim2SF_0, Prim2SF_180.
  split.
  - apply nonneg_zero_le, SFmul_nonneg. assumption.
  - destruct (Prim2SF f) as [s | s | | s m e] eqn:Hsf; simpl in Hf.
    + destruct s; reflexivity.
    + destruct s; [tauto | discriminate].
    + tauto.
    + destruct s; [tauto | ].
      apply SFmul_le with (mp := 7074237752028440%positive) (ep := (-51)%Z);
        try reflexivity; try assumption.
      * apply (valid_finite _ Hsf).
      * apply Z.leb_le. reflexivity.
      * apply Z.leb_le. reflexivity.
      * apply Z.leb_le. reflexivity.
      * apply Z.leb_le. reflexivity.
Qed.

(** The normalisation and the fold of [calculateLimbAngles] bring every
    angle [Math.atan2] may return into [0, 180] degrees. *)
Lemma fold_angle (angle : number) :
  isNaN angle = true \/ (le (- Math_PI) angle /\ le angle Math_PI) ->
  let normalizedAngle :=
    if angle <? 0 then 2 * Math_PI + angle else angle in
  let finalAngle :=
    if Math_PI <? normalizedAngle
    then 2 * Math_PI - normalizedAngle
    else normalizedAngle in
  AngleValue (toDegrees finalAngle).
Proof.
  intros [Hnan | [Hlo Hhi]].
  - apply NaN_unique in Hnan. subst angle. left. reflexivity.
  - intros normalizedAngle finalAngle. right.
    assert (Hhi' := Hhi). assert (Hlo' := Hlo).
    apply le_spec in Hhi', Hlo'.
    rewrite Prim2SF_PI in Hhi'. rewrite Prim2SF_minus_PI in Hlo'.
    destruct (Prim2SF angle) as [s | s | | s m e] eqn:Hsa.
    + assert (H0 : (angle <? 0) = false)
        by (rewrite FloatAxioms.ltb_spec, Hsa; reflexivity).
      assert (Hpi : (Math_PI <? angle) = false)
        by (rewrite FloatAxioms.ltb_spec, Hsa; reflexivity).
      unfold finalAngle, normalizedAngle. rewrite H0, Hpi.
      apply toDegrees_range; [rewrite Hsa; exact I | assumption].
    + destruct s; discriminate.
    + discriminate.
    + destruct s.
      * (* a negative angle *)
        assert (H0 : (angle <? 0) = true)
          by (rewrite FloatAxioms.ltb_spec, Hsa; reflexivity).
        pose proof (valid_finite _ Hsa) as Hb.
        apply SFleb_finite_neg in Hlo'.
        assert (Hlex : (e < -51 + 1 \/ (e = -51 + 1
                        /\ Zpos m <= 7074237752028440))%Z) by lia.
        destruct (@SFadd_neg_range 7074237752028440 (-51 + 1) m e
                    eq_refl Hb Hlex) as [Hsign Hle2].
        unfold finalAngle, normalizedAngle. rewrite H0.
        set (n := 2 * Math_PI + angle) in *.
        assert (Hn : Prim2SF n
                     = SF64add (S754_finite false 7074237752028440 (-51 + 1))
                         (S754_finite true m e)).
        { unfold n. rewrite FloatAxioms.add_spec, Prim2SF_2PI, Hsa.
          reflexivity. }
        rewrite <- Hn in Hsign, Hle2.
        destruct (Math_PI <? n) eqn:Hpin.
        -- rewrite FloatAxioms.ltb_spec, Prim2SF_PI in Hpin.
           destruct (Prim2SF n) as [sn | sn | | sn mn en] eqn:Hsn;
             simpl in Hsign; try tauto; subst sn; try discriminate.
           pose proof (valid_finite _ Hsn) as Hbn.
           destruct (@SFsub_reflect 7074237752028440 (-51) mn en
                       eq_refl eq_refl Hbn Hpin Hle2) as [Hs Hl].
           apply toDegrees_range.
           ++ rewrite FloatAxioms.sub_spec, Prim2SF_2PI, Hsn.
              apply signed_nonneg. exact Hs.
           ++ apply le_spec.
              rewrite FloatAxioms.sub_spec, Prim2SF_2PI, Hsn, Prim2SF_PI.
              exact Hl.
        -- apply toDegrees_range.
           ++ apply signed_nonneg. exact Hsign.
           ++ apply le_spec. rewrite FloatAxioms.ltb_spec in Hpin.
              apply SFltb_false_SFleb; try assumption.
              ** rewrite Prim2SF_PI. discriminate.
              ** intros E. rewrite E in Hsign. exact Hsign.
      * (* a positive angle *)
        assert (H0 : (angle <? 0) = false)
          by (rewrite FloatAxioms.ltb_spec, Hsa; reflexivity).
        assert (Hpi : (Math_PI <? angle) = false).
        { rewrite FloatAxioms.ltb_spec, Hsa, Prim2SF_PI.
          apply SFleb_SFltb_false. exact Hhi'. }
        unfold finalAngle, normalizedAngle. rewrite H0, Hpi.
        apply toDegrees_range; [rewrite Hsa; exact I | assumption].
Qed.

Variable Math_atan2 : number -> number -> number.

Lemma calculateLimbAngles_map (frameLandmarks : Landmarks) :
  calculateLimbAngles Math_atan2 frameLandmarks
  = map (limbAngle Math_atan2 frameLandmarks) LIMB_CONNECTIONS.
Proof.
  unfold calculateLimbAngles. rewrite fold_left_push. reflexivity.
Qed.

Lemma limbAngle_range (frameLandmarks : Landmarks)
    (connection : PoseLandmark * PoseLandmark) :
  atan2_in_range Math_atan2 ->
  AngleValue (limbAngle Math_atan2 frameLandmarks connection).
Proof.
  intros Hrange. unfold limbAngle, tryLimbAngle.
  destruct connection as [start end_].
  destruct (at_index frameLandmarks (index start)) as [startPoint | ];
    [ | left; reflexivity].
  destruct (at_index frameLandmarks (index end_)) as [endPoint | ];
    [ | left; reflexivity].
  apply fold_angle. apply Hrange.
Qed.

Lemma calculateLimbAngles_angle_values (frameLandmarks : Landmarks) :
  atan2_in_range Math_atan2 ->
  Forall AngleValue (calculateLimbAngles Math_atan2 frameLandmarks).
Proof.
  intros Hrange. rewrite calculateLimbAngles_map.
  apply Forall_map, Forall_forall. intros connection _.
  apply limbAngle_range. exact Hrange.
Qed.

(** C4: the angle sequence has one entry per limb connection, in the
    order of the connections, and each entry is the sentinel [NaN] or a
    number in [0, 180], for every [Math.atan2] that keeps to the range
    ECMAScript gives it. *)
Theorem calculateLimbAngles_range (frameLandmarks : Landmarks) :
  atan2_in_range Math_atan2 ->
  List.length (calculateLimbAngles Math_atan2 frameLandmarks)
  = List.length LIMB_CONNECTIONS
  /\ (forall (i : nat) (connection : PoseLandmark * PoseLandmark),
        nth_error LIMB_CONNECTIONS i = Some connection ->
        nth_error (calculateLimbAngles Math_atan2 frameLandmarks) i
        = Some (limbAngle Math_atan2 frameLandmarks connection))
  /\ Forall AngleValue (calculateLimbAngles Math_atan2 frameLandmarks).
Proof.
  intros Hrange. split; [ | split].
  - rewrite calculateLimbAngles_map. apply length_map.
  - intros i connection Hi. rewrite calculateLimbAngles_map.
    apply map_nth_error. exact Hi.
  - apply calculateLimbAngles_angle_values. exact Hrange.
Qed.

(** C7: on the snapshot of the example the angles are 180, 135, 180
    and 135 degrees, given the values of [Math.atan2] in the three
    directions the snapshot has (straight down, and down to either
    side). *)
Theorem calculateLimbAngles_example :
  Math_atan2 0 (-1) = Math_PI ->
  Math_atan2 (-1) (-1) = -0x1.2d97c7f3321d2p+1 ->
  Math_atan2 1 (-1) = 0x1.2d97c7f3321d2p+1 ->
  calculateLimbAngles Math_atan2 Examples.perfectSnapshot
  = [180; 135; 180; 135].
Proof.
  intros Hdown Hleft Hright. rewrite calculateLimbAngles_map.
  unfold Examples.perfectSnapshot, LIMB_CONNECTIONS, limbAngle,
    tryLimbAngle, at_index.
  simpl map. cbn [index nth_error fst snd].
  replace (2 - 2) with 0 by reflexivity.
  replace (3 - 4) with (-1) by reflexivity.
  replace (1 - 2) with (-1) by reflexivity.
  replace (2 - 3) with (-1) by reflexivity.
  replace (4 - 4) with 0 by reflexivity.
  replace (5 - 4) with 1 by reflexivity.
  rewrite Hdown, Hleft, Hright. reflexivity.
Qed.

End Extractor.

(** ** Identical snapshots *)

Section Identical.
Import JSNumber Frame Feedback Spec SF64 Binary64 NumberFacts.
Local Open Scope float_scope.

Lemma AngleValue_finite (x : number) :
  AngleValue x -> isNaN x = false -> finite (Prim2SF x).
Proof.
  intros [Hnan | [Hlo Hhi]] Hx; [congruence | ].
  apply le_spec in Hlo, Hhi. rewrite Prim2SF_0 in Hlo.
  rewrite Prim2SF_180 in Hhi.
  destruct (Prim2SF x) as [s | s | | s m e]; simpl; try exact I.
  - destruct s; discriminate.
  - discriminate.
Qed.

(** The deltas of a sequence of angle values against itself. *)
Lemma self_difference (reference practice : FrameData) (a : list number) :
  angles reference = a -> angles practice = a -> Forall AngleValue a ->
  computeAngleDifference reference practice
  = map (fun x => if isNaN x then NaN else 0) a.
Proof.
  intros Hr Hp Ha. apply nth_error_ext. intros n.
  destruct (nth_error a n) as [x | ] eqn:Hx.
  - assert (Hxr := Hx). rewrite <- Hr in Hxr.
    rewrite (computeAngleDifference_nth reference practice n Hxr).
    rewrite Hp, Hx. rewrite (map_nth_error _ _ _ Hx). apply f_equal.
    destruct (isNaN x) eqn:Hnan.
    + apply NaN_unique, sub_NaN. left. exact Hnan.
    + apply sub_diag, AngleValue_finite; [ | exact Hnan].
      rewrite Forall_forall in Ha. apply Ha.
      apply nth_error_In with (n := n). exact Hx.
  - assert (Hlen : (List.length a <= n)%nat) by (apply nth_error_None; exact Hx).
    transitivity (@None number); [ | symmetry]; apply nth_error_None.
    + rewrite computeAngleDifference_length, Hr. exact Hlen.
    + rewrite length_map. exact Hlen.
Qed.

Lemma numericDeltas_self (a : list number) :
  numericDeltas (map (fun x => if isNaN x then NaN else 0) a)
  = map (fun _ => 0) (numericDeltas a).
Proof.
  induction a as [ | x a IH]; [reflexivity | ].
  simpl. destruct (isNaN x); simpl; [ | f_equal]; exact IH.
Qed.

Lemma sum_zeros {A} (l : list A) :
  fold_left (fun sum x => sum + x) (map Math_abs (map (fun _ => 0) l)) 0 = 0.
Proof. induction l as [ | x l IH]; simpl; [reflexivity | exact IH]. Qed.

Lemma zero_div_counted (c : number) : counted (Prim2SF c) -> 0 / c = 0.
Proof.
  intros (m & e & Hc & _). apply zero_unique.
  rewrite FloatAxioms.div_spec, Hc. reflexivity.
Qed.

Lemma existsb_numeric (a : list number) :
  existsb (fun x => negb (isNaN x)) a
  = match numericDeltas a with [] => false | _ :: _ => true end.
Proof.
  induction a as [ | x a IH]; [reflexivity | ].
  simpl. destruct (isNaN x); simpl; [exact IH | reflexivity].
Qed.

Lemma accuracy_self (a : list number) :
  calculateAccuracy (map (fun x => if isNaN x then NaN else 0) a)
  = if existsb (fun x => negb (isNaN x)) a then 100 else 0.
Proof.
  rewrite calculateAccuracy_loop, existsb_numeric.
  rewrite numericDeltas_self.
  destruct (numericDeltas a) as [ | x numeric]; [reflexivity | ].
  change (map (fun _ : number => 0) (x :: numeric))
    with (0 :: map (fun _ : number => 0) numeric).
  cbv iota.
  change (0 :: map (fun _ : number => 0) numeric)
    with (map (fun _ : number => 0) (x :: numeric)).
  unfold sumOf, countOf. rewrite sum_zeros.
  rewrite zero_div_counted; [reflexivity | ].
  apply count_counted; [left; reflexivity | discriminate].
Qed.

Variable Math_atan2 : number -> number -> number.

(** C3, as the program has it: for identical snapshots the delta of a
    connection is 0 where its angle is defined and [NaN] where it is
    not; the accuracy is 100 when at least one angle is defined and 0
    when none is. *)
Theorem identical_snapshots_deltas (frameLandmarks : Landmarks)
    (referenceId practiceId : string)
    (referenceNumber practiceNumber : number) :
  atan2_in_range Math_atan2 ->
  let frameAngles := calculateLimbAngles Math_atan2 frameLandmarks in
  let reference :=
    {| id := referenceId; landmarks := frameLandmarks;
       angles := frameAngles; frameNumber := referenceNumber |} in
  let practice :=
    {| id := practiceId; landmarks := frameLandmarks;
       angles := frameAngles; frameNumber := practiceNumber |} in
  let deltas := computeAngleDifference reference practice in
  deltas = map (fun angle => if isNaN angle then NaN else 0) frameAngles
  /\ calculateAccuracy deltas
     = if existsb (fun angle => negb (isNaN angle)) frameAngles
       then 100 else 0.
Proof.
  intros Hrange frameAngles reference practice deltas.
  assert (Hd : deltas
               = map (fun angle => if isNaN angle then NaN else 0)
                   frameAngles).
  { apply self_difference; try reflexivity.
    apply calculateLimbAngles_angle_values. exact Hrange. }
  split; [exact Hd | ]. rewrite Hd. apply accuracy_self.
Qed.

End Identical.

(** C3, as stated, fails: with the right wrist absent from both
    snapshots (the test [testMissingLandmarks]) the deltas are
    [0, 0, 0, NaN], not all zero; with no joint at all the accuracy is 0,
    not 100. *)
Lemma identical_snapshots_missing_joint :
  let reference :=
    Examples.frameOf "reference" Examples.missingWristSnapshot in
  let practice :=
    Examples.frameOf "practice" Examples.missingWristSnapshot in
  let nothing := Examples.frameOf "empty" [] in
  Feedback.computeAngleDifference reference practice
  = [0; 0; 0; JSNumber.NaN]%float
  /\ ~ (Forall (fun delta => delta = 0%float)
          (Feedback.computeAngleDifference reference practice)
        /\ Feedback.calculateAccuracy
             (Feedback.computeAngleDifference reference practice)
           = 100%float)
  /\ Feedback.calculateAccuracy
       (Feedback.computeAngleDifference nothing nothing) = 0%float.
Proof.
  intros reference practice nothing.
  assert (Hd : Feedback.computeAngleDifference reference practice
               = [0; 0; 0; JSNumber.NaN]%float) by (vm_compute; reflexivity).
  split; [exact Hd | ]. split; [ | vm_compute; reflexivity].
  rewrite Hd. intros [Hall _].
  inversion Hall as [ | ? ? _ H1]; subst.
  inversion H1 as [ | ? ? _ H2]; subst.
  inversion H2 as [ | ? ? _ H3]; subst.
  inversion H3 as [ | ? ? Hnan _]; subst.
  apply (f_equal is_nan) in Hnan. vm_compute in Hnan. discriminate.
Qed.

(** ** The theorems at work on the examples *)

Section Witnesses.
Import JSNumber Frame Feedback Spec Examples.
Local Open Scope string_scope.
Local Open Scope float_scope.

(** The tabulated [Math.atan2] keeps to the range from [-Math.PI] to
    [Math.PI]. *)
Lemma atan2_directions_in_range : atan2_in_range atan2_directions.
Proof.
  intros y x. unfold atan2_directions.
  destruct (is_nan y || is_nan x); [left; reflexivity | ].
  destruct (y =? 0).
  - destruct ((x <? 0) || (is_zero x && get_sign x)); destruct (get_sign y);
      right; split; reflexivity.
  - destruct (x =? 0).
    + destruct (0 <? y); right; split; reflexivity.
    + destruct (abs y =? abs x); [ | left; reflexivity].
      destruct (0 <? y); destruct (0 <? x); right; split; reflexivity.
Qed.

Lemma prompt_renders_scores_witness :
  JSString.Includes movedWristPrompt
    (JSString.newline ++ "- 1: difference = 45.00" ++ JSString.newline).
Proof.
  apply (proj1 (proj2 (@prompt_renders_scores wholeDigits movedWristDeltas
                         88.75 referencePose practicePose)) 1%nat 45).
  reflexivity.
Defined.

Lemma analyze_unknown_landmark_after_store_witness :
  exists result,
    snd (getFeedback unit "fb-reference-practice"
           (fst (analyze playScript wholeDigits referencePose practicePose
                   (world [] unknownJointScript))))
    = Returned result.
Proof.
  apply (@analyze_unknown_landmark_after_store Script unit playScript
           wholeDigits referencePose practicePose
           (world [] unknownJointScript)
           ["[LEFT_ELBOW, TAIL]"; "TRUE"]%list ["TRUE"]%list
           "Keep your tail level." "[LEFT_ELBOW, TAIL]").
  - reflexivity.
  - reflexivity.
  - exists "TAIL". split; [vm_compute; tauto | reflexivity].
Defined.

Lemma identical_snapshots_deltas_witness :
  calculateAccuracy
    (computeAngleDifference (frameOf "reference" missingWristSnapshot)
       (frameOf "practice" missingWristSnapshot))
  = (if existsb (fun angle => negb (isNaN angle))
          (calculateLimbAngles atan2_directions missingWristSnapshot)
     then 100 else 0).
Proof.
  apply (@identical_snapshots_deltas atan2_directions missingWristSnapshot
           "reference" "practice" 1 1 atan2_directions_in_range).
Defined.

Lemma calculateLimbAngles_range_witness :
  Forall AngleValue (calculateLimbAngles atan2_directions perfectSnapshot).
Proof.
  apply (@calculateLimbAngles_range atan2_directions perfectSnapshot
           atan2_directions_in_range).
Defined.

Lemma calculateAccuracy_mean_and_range_witness :
  calculateAccuracy [0; 45; NaN; 0] = accuracy [0; 45; NaN; 0]
  /\ calculateAccuracy [NaN; NaN] = 0.
Proof.
  split.
  - apply (proj1 (calculateAccuracy_mean_and_range [0; 45; NaN; 0])).
    vm_compute. discriminate.
  - apply (proj1 (proj2 (calculateAccuracy_mean_and_range [NaN; NaN]))).
    repeat constructor.
Defined.

Lemma computeAngleDifference_cases_witness :
  nth_error (computeAngleDifference longReference shortPractice) 2
  = Some 0.
Proof.
  apply (proj1 (@computeAngleDifference_cases longReference shortPractice
                  2 90 eq_refl)).
  reflexivity.
Defined.

Lemma calculateLimbAngles_example_witness :
  calculateLimbAngles atan2_directions perfectSnapshot
  = [180; 135; 180; 135]%list.
Proof.
  apply (@calculateLimbAngles_example atan2_directions);
    reflexivity.
Defined.

Lemma getFeedback_found_iff_stored_witness :
  exists entry,
    In entry [earlierRecord]
    /\ feedbackID entry = "fb-reference-practice"
    /\ find (fun f => String.eqb (feedbackID f) "fb-reference-practice")
         [earlierRecord] = Some entry
    /\ snd (getFeedback unit "fb-reference-practice"
              (world [earlierRecord] []))
       = Returned (feedback entry, accuracyValue entry).
Proof.
  apply (proj2 (proj2 (proj2
           (@getFeedback_found_iff_stored Script unit
              "fb-reference-practice" (world [earlierRecord] []))))).
  exists earlierRecord. split; [left; reflexivity | reflexivity].
Defined.

Lemma validate_empty_answer_throws_witness :
  validateExistingLandmarks unit "[]" (world [] [])
  = (world [] [], Thrown (UnknownLandmark EmptyString)).
Proof.
  apply (proj1 (proj2 (proj2
           (@validate_empty_answer_throws Script unit playScript wholeDigits
              "[]" (world [] []) (or_introl eq_refl))))).
Defined.

Lemma analyze_twice_same_identifier_witness :
  snd (getFeedback unit "fb-reference-practice"
         (fst (analyze playScript wholeDigits referencePose practicePose
                 (fst (analyze playScript wholeDigits referencePose
                         practicePose (world [] twoAnalysesScript))))))
  = Returned ("Lift the left wrist.",
              accuracyValue
                (recordOf referencePose practicePose
                   "Lift the left wrist.")).
Proof.
  apply (@analyze_twice_same_identifier Script unit playScript wholeDigits
           referencePose practicePose referencePose practicePose
           (world [] twoAnalysesScript)
           ["[LEFT_WRIST]"; "TRUE"; "Lower the right elbow.";
            "[RIGHT_ELBOW]"; "TRUE"]%list
           ["[RIGHT_ELBOW]"; "TRUE"]%list
           "Lift the left wrist." "Lower the right elbow."
           eq_refl eq_refl).
  - reflexivity.
  - vm_compute. reflexivity.
  - intros (entry & Hin & _). exact Hin.
Defined.

End Witnesses.

(** * Part III: further properties of the code *)

(** ** The runs of [analyze] *)

Section Runs.
Import JSNumber Frame Feedback Spec Checks.
Local Open Scope list_scope.
Variable LLM : Type.
Variable LLMError : Type.
Variable executeLLM : LLM -> string -> LLM * (LLMError + string).
Variable finiteToString : number -> string.

Local Abbreviation getFeedback := (Feedback.getFeedback LLMError).
Local Abbreviation analyze := (Feedback.analyze executeLLM finiteToString).
Local Abbreviation validate := (Feedback.validateExistingLandmarks LLMError).

(** Every run of [analyze], by the answers of the model. *)
Lemma analyze_run (referenceFrameData practiceFrameData : FrameData)
    (w : World LLM) :
  analyze referenceFrameData practiceFrameData w
  = let feedbackID := identifierOf referenceFrameData practiceFrameData in
    match
      executeLLM (llm w)
        (primaryPrompt finiteToString referenceFrameData practiceFrameData)
    with
    | (l1, inl e) =>
        (after (feedbackList w) l1 (warnings w), Thrown (LLMFailure e))
    | (l1, inr aiFeedback) =>
        let entries :=
          feedbackList w
          ++ [recordOf referenceFrameData practiceFrameData aiFeedback] in
        match
          executeLLM l1 (createCheckExistingLandmarkPrompt aiFeedback)
        with
        | (l2, inl e) =>
            (after entries l2 (warnings w), Thrown (LLMFailure e))
        | (l2, inr existingLandmarks) =>
            match
              find (fun lm => negb (in_PoseLandmark lm))
                (extractedLandmarks existingLandmarks)
            with
            | Some lm =>
                (after entries l2 (warnings w), Thrown (UnknownLandmark lm))
            | None =>
                match executeLLM l2 (createCheckMoodPrompt aiFeedback) with
                | (l3, inl e) =>
                    (after entries l3 (warnings w), Thrown (LLMFailure e))
                | (l3, inr isPositive) =>
                    (after entries l3
                       ((warnings w ++ moodWarning feedbackID isPositive)
                        ++ lengthWarning feedbackID aiFeedback),
                     Returned feedbackID)
                end
            end
        end
    end.
Proof.
  cbv zeta. unfold Feedback.analyze, bind at 1, await_executeLLM at 1.
  unfold primaryPrompt.
  destruct (executeLLM (llm w) _) as [l1 [e | aiFeedback]];
    [reflexivity | ].
  unfold bind at 1, push. unfold bind at 1, await_executeLLM at 1.
  cbn [llm feedbackList warnings].
  destruct (executeLLM l1 _) as [l2 [e | existingLandmarks]];
    [reflexivity | ].
  unfold bind at 1. rewrite validate_first_unknown.
  destruct (find _ (extractedLandmarks existingLandmarks));
    [reflexivity | ].
  unfold bind at 1, await_executeLLM at 1. cbn [llm feedbackList warnings].
  destruct (executeLLM l2 _) as [l3 [e | isPositive]]; [reflexivity | ].
  unfold bind, console_warn, ret, moodWarning, lengthWarning, after,
    identifierOf.
  cbn [llm feedbackList warnings].
  destruct (String.eqb _ "TRUE"); destruct (Nat.ltb 500 _);
    cbn [negb]; rewrite ?app_nil_r; reflexivity.
Qed.

Lemma find_valid_tokens (l : list string) :
  Forall (fun token => in_PoseLandmark token = true) l ->
  find (fun lm => negb (in_PoseLandmark lm)) l = None.
Proof.
  induction 1 as [ | token l Htoken _ IH]; simpl; [reflexivity | ].
  rewrite Htoken. exact IH.
Qed.

Lemma getFeedback_unchanged_store (feedbackID : string) (w w' : World LLM) :
  feedbackList w' = feedbackList w ->
  snd (getFeedback feedbackID w') = snd (getFeedback feedbackID w).
Proof.
  intros H. unfold Feedback.getFeedback. rewrite H.
  destruct (find _ (feedbackList w)); reflexivity.
Qed.

Lemma getFeedback_earlier_record (feedbackID : string) (w w' : World LLM)
    (later : list FeedbackEntry) :
  feedbackList w' = feedbackList w ++ later ->
  stored feedbackID (feedbackList w) ->
  snd (getFeedback feedbackID w') = snd (getFeedback feedbackID w).
Proof.
  intros H Hst. unfold Feedback.getFeedback. rewrite H.
  destruct (find (fun f => String.eqb (Feedback.feedbackID f) feedbackID)
              (feedbackList w)) as [entry | ] eqn:Hfind.
  - rewrite (find_app_first _ _ later Hfind). reflexivity.
  - apply find_none_iff in Hfind. contradiction.
Qed.

(** X1: When the first request fails, [analyze] throws the failure of the
    model and stores nothing: the store and the warnings are as before,
    and an identifier that was not stored is still not found. *)
Theorem analyze_first_request_fails
    (referenceFrameData practiceFrameData : FrameData)
    (w : World LLM) (l1 : LLM) (e : LLMError) :
  executeLLM (llm w)
    (primaryPrompt finiteToString referenceFrameData practiceFrameData)
  = (l1, inl e) ->
  let w' := fst (analyze referenceFrameData practiceFrameData w) in
  let feedbackID := identifierOf referenceFrameData practiceFrameData in
  analyze referenceFrameData practiceFrameData w
  = (after (feedbackList w) l1 (warnings w), Thrown (LLMFailure e))
  /\ (~ stored feedbackID (feedbackList w) ->
      snd (getFeedback feedbackID w')
      = Thrown (FeedbackNotFound feedbackID)).
Proof.
  intros H1 w' feedbackID.
  assert (Hrun :
    analyze referenceFrameData practiceFrameData w
    = (after (feedbackList w) l1 (warnings w), Thrown (LLMFailure e)))
    by (rewrite analyze_run; cbv zeta; rewrite H1; reflexivity).
  split; [exact Hrun | ].
  intros Hno. unfold w'. rewrite Hrun. cbn [fst].
  unfold Feedback.getFeedback, after. cbn [feedbackList].
  apply find_none_iff in Hno. rewrite Hno. reflexivity.
Qed.

(** X2: When the first request succeeds and one of the two later requests
    fails, [analyze] throws the failure of the model, no identifier is
    returned, and the record stays stored with the feedback of the
    first answer; no warning is written. *)
Theorem analyze_later_request_fails
    (referenceFrameData practiceFrameData : FrameData)
    (w : World LLM) (l1 : LLM) (aiFeedback : string) :
  executeLLM (llm w)
    (primaryPrompt finiteToString referenceFrameData practiceFrameData)
  = (l1, inr aiFeedback) ->
  let entries :=
    feedbackList w
    ++ [recordOf referenceFrameData practiceFrameData aiFeedback] in
  (forall (l2 : LLM) (e : LLMError),
      executeLLM l1 (createCheckExistingLandmarkPrompt aiFeedback)
      = (l2, inl e) ->
      analyze referenceFrameData practiceFrameData w
      = (after entries l2 (warnings w), Thrown (LLMFailure e)))
  /\ (forall (l2 l3 : LLM) (existingLandmarks : string) (e : LLMError),
        executeLLM l1 (createCheckExistingLandmarkPrompt aiFeedback)
        = (l2, inr existingLandmarks) ->
        Forall (fun token => in_PoseLandmark token = true)
          (extractedLandmarks existingLandmarks) ->
        executeLLM l2 (createCheckMoodPrompt aiFeedback) = (l3, inl e) ->
        analyze referenceFrameData practiceFrameData w
        = (after entries l3 (warnings w), Thrown (LLMFailure e))).
Proof.
  intros H1 entries. split.
  - intros l2 e H2. rewrite analyze_run. cbv zeta. rewrite H1, H2.
    reflexivity.
  - intros l2 l3 existingLandmarks e H2 Hvalid H3.
    rewrite analyze_run. cbv zeta.
    rewrite H1, H2, (find_valid_tokens Hvalid), H3. reflexivity.
Qed.

(** X3: When the three requests succeed and every token of the second
    answer is a property of the enum object, [analyze] returns the
    identifier; it has stored one record, with the first answer and the
    accuracy of the deltas, and written at most two warnings: for the
    mood when the third answer, trimmed and in upper case, is not
    [TRUE], then for the length when the feedback has more than 500
    words. *)
Theorem analyze_succeeds
    (referenceFrameData practiceFrameData : FrameData)
    (w : World LLM) (l1 l2 l3 : LLM)
    (aiFeedback existingLandmarks isPositive : string) :
  executeLLM (llm w)
    (primaryPrompt finiteToString referenceFrameData practiceFrameData)
  = (l1, inr aiFeedback) ->
  executeLLM l1 (createCheckExistingLandmarkPrompt aiFeedback)
  = (l2, inr existingLandmarks) ->
  Forall (fun token => in_PoseLandmark token = true)
    (extractedLandmarks existingLandmarks) ->
  executeLLM l2 (createCheckMoodPrompt aiFeedback) = (l3, inr isPositive) ->
  let feedbackID := identifierOf referenceFrameData practiceFrameData in
  analyze referenceFrameData practiceFrameData w
  = (after
       (feedbackList w
        ++ [{| Feedback.feedbackID := feedbackID;
               Feedback.referenceFrameData := referenceFrameData;
               Feedback.practiceFrameData := practiceFrameData;
               feedback := aiFeedback;
               accuracyValue :=
                 calculateAccuracy
                   (computeAngleDifference referenceFrameData
                      practiceFrameData) |}])
       l3
       ((warnings w ++ moodWarning feedbackID isPositive)
        ++ lengthWarning feedbackID aiFeedback),
     Returned feedbackID).
Proof.
  intros H1 H2 Hvalid H3 feedbackID.
  rewrite analyze_run. cbv zeta.
  rewrite H1, H2, (find_valid_tokens Hvalid), H3. reflexivity.
Qed.

(** X4: Whatever the model answers, [analyze] keeps the records it found:
    the store grows by at most one record, at its end; [getFeedback]
    answers as before on every identifier that was stored; the warnings
    written before stay; and [analyze] never throws the "not found"
    error. *)
Theorem analyze_keeps_earlier_records
    (referenceFrameData practiceFrameData : FrameData) (w : World LLM) :
  let w' := fst (analyze referenceFrameData practiceFrameData w) in
  (exists later,
      feedbackList w' = feedbackList w ++ later /\ List.length later <= 1)
  /\ (forall feedbackID : string,
        stored feedbackID (feedbackList w) ->
        snd (getFeedback feedbackID w') = snd (getFeedback feedbackID w))
  /\ (exists written, warnings w' = warnings w ++ written)
  /\ (forall feedbackID : string,
        snd (analyze referenceFrameData practiceFrameData w)
        <> Thrown (FeedbackNotFound feedbackID)).
Proof.
  intros w'.
  assert (Hall :
    (exists later,
        feedbackList w' = feedbackList w ++ later /\ List.length later <= 1)
    /\ (exists written, warnings w' = warnings w ++ written)
    /\ (forall feedbackID : string,
          snd (analyze referenceFrameData practiceFrameData w)
          <> Thrown (FeedbackNotFound feedbackID))).
  { unfold w'. rewrite analyze_run. cbv zeta.
    destruct (executeLLM (llm w) _) as [l1 [e | aiFeedback]].
    { split; [exists []; rewrite app_nil_r; split; [reflexivity | simpl; lia]
             | split; [exists []; rewrite app_nil_r; reflexivity
                      | intros feedbackID; discriminate]]. }
    destruct (executeLLM l1 _) as [l2 [e | existingLandmarks]].
    { split; [eexists; split; [reflexivity | simpl; lia]
             | split; [exists []; rewrite app_nil_r; reflexivity
                      | intros feedbackID; discriminate]]. }
    destruct (find _ (extractedLandmarks existingLandmarks)).
    { split; [eexists; split; [reflexivity | simpl; lia]
             | split; [exists []; rewrite app_nil_r; reflexivity
                      | intros feedbackID; discriminate]]. }
    destruct (executeLLM l2 _) as [l3 [e | isPositive]].
    { split; [eexists; split; [reflexivity | simpl; lia]
             | split; [exists []; rewrite app_nil_r; reflexivity
                      | intros feedbackID; discriminate]]. }
    split; [eexists; split; [reflexivity | simpl; lia] | ].
    split; [ | intros feedbackID; discriminate].
    eexists. cbn [fst warnings after]. rewrite <- app_assoc. reflexivity. }
  destruct Hall as ((later & Hlater & Hlen) & Hwarn & Hnever).
  split; [exists later; split; assumption | ].
  split; [ | split; assumption].
  intros feedbackID Hst.
  apply getFeedback_earlier_record with (later := later); assumption.
Qed.

(** X5: The identifier [analyze] returns can be looked up: [getFeedback]
    on it returns, and leaves the world as it is; when the identifier
    was not stored before, it returns the text of the first answer of
    the model and the accuracy of the deltas of the two frames. *)
Theorem analyze_then_getFeedback
    (referenceFrameData practiceFrameData : FrameData)
    (w w' : World LLM) (feedbackID : string) :
  analyze referenceFrameData practiceFrameData w
  = (w', Returned feedbackID) ->
  (exists result, getFeedback feedbackID w' = (w', Returned result))
  /\ (~ stored feedbackID (feedbackList w) ->
      exists (l1 : LLM) (aiFeedback : string),
        executeLLM (llm w)
          (primaryPrompt finiteToString referenceFrameData
             practiceFrameData) = (l1, inr aiFeedback)
        /\ getFeedback feedbackID w'
           = (w', Returned
                    (aiFeedback,
                     calculateAccuracy
                       (computeAngleDifference referenceFrameData
                          practiceFrameData)))).
Proof.
  rewrite analyze_run. cbv zeta.
  destruct (executeLLM (llm w) _) as [l1 [e | aiFeedback]];
    [discriminate | ].
  destruct (executeLLM l1 _) as [l2 [e | existingLandmarks]];
    [discriminate | ].
  destruct (find _ (extractedLandmarks existingLandmarks));
    [discriminate | ].
  destruct (executeLLM l2 _) as [l3 [e | isPositive]]; [discriminate | ].
  intros Hrun. injection Hrun as Hw' Hid. subst w' feedbackID.
  set (feedbackID := identifierOf referenceFrameData practiceFrameData).
  set (entry := recordOf referenceFrameData practiceFrameData aiFeedback).
  unfold Feedback.getFeedback, after. cbn [feedbackList].
  destruct (find (fun f => String.eqb (Feedback.feedbackID f) feedbackID)
              (feedbackList w)) as [earlier | ] eqn:Hfind.
  - rewrite (find_app_first _ _ [entry] Hfind). split.
    + eexists. reflexivity.
    + intros Hno. apply find_none_iff in Hno. congruence.
  - rewrite (find_app_later _ _ [entry] Hfind). cbn [find].
    replace (Feedback.feedbackID entry) with feedbackID by reflexivity.
    rewrite String.eqb_refl. split.
    + eexists. reflexivity.
    + intros _. exists l1, aiFeedback. split; reflexivity.
Qed.

(** X6: The identifier joins the two frame identifiers with a dash, so two
    different pairs of frames can share it: when the first reference
    identifier ends with what the second practice identifier starts
    with, the two analyses store their records under one identifier,
    and [getFeedback] on the identifier returned for the second pair
    answers with the feedback and the accuracy of the first. *)
Theorem identifier_collision (a b c : string)
    (reference1 practice1 reference2 practice2 : FrameData)
    (w0 : World LLM) (l1 l2 : LLM) (feedback1 feedback2 : string) :
  id reference1 = (a ++ "-" ++ b)%string -> id practice1 = c ->
  id reference2 = a -> id practice2 = (b ++ "-" ++ c)%string ->
  let w1 := fst (analyze reference1 practice1 w0) in
  let w2 := fst (analyze reference2 practice2 w1) in
  executeLLM (llm w0) (primaryPrompt finiteToString reference1 practice1)
  = (l1, inr feedback1) ->
  executeLLM (llm w1) (primaryPrompt finiteToString reference2 practice2)
  = (l2, inr feedback2) ->
  let feedbackID := identifierOf reference2 practice2 in
  identifierOf reference1 practice1 = feedbackID
  /\ feedbackList w2
     = feedbackList w0
       ++ [recordOf reference1 practice1 feedback1;
           recordOf reference2 practice2 feedback2]
  /\ (~ stored feedbackID (feedbackList w0) ->
      snd (getFeedback feedbackID w2)
      = Returned
          (feedback1,
           calculateAccuracy
             (computeAngleDifference reference1 practice1))).
Proof.
  intros Hr1 Hp1 Hr2 Hp2 w1 w2 H1 H2 feedbackID.
  assert (Hid : identifierOf reference1 practice1 = feedbackID).
  { unfold feedbackID, identifierOf. rewrite Hr1, Hp1, Hr2, Hp2.
    rewrite !append_assoc. reflexivity. }
  assert (Hw1 := H1). apply analyze_appends in Hw1.
  assert (Hw2 := H2). apply analyze_appends in Hw2.
  fold w1 in Hw1. fold w2 in Hw2.
  split; [exact Hid | ].
  split; [rewrite Hw2, Hw1, <- app_assoc; reflexivity | ].
  intros Hno. apply find_none_iff in Hno.
  unfold Feedback.getFeedback. rewrite Hw2, Hw1, <- app_assoc.
  rewrite (find_app_later _ _ _ Hno). cbn [app find].
  replace (Feedback.feedbackID (recordOf reference1 practice1 feedback1))
    with feedbackID by (symmetry; exact Hid).
  rewrite String.eqb_refl. reflexivity.
Qed.

End Runs.

(** ** White space, words and [trim] *)

Module TextFacts.
Import JSString Text StringFacts.
Local Open Scope string_scope.

(** *** The tokens of a string *)

Lemma tokens_ws1 (c1 : ascii) (r : string) :
  ws1 c1 = true -> tokens (String c1 r) = (true, singleton c1) :: tokens r.
Proof. intros H. simpl. rewrite H. reflexivity. Qed.

Lemma tokens_ws2 (c1 c2 : ascii) (r : string) :
  ws1 c1 = false -> ws2 c1 c2 = true ->
  tokens (String c1 (String c2 r)) = (true, of_list [c1; c2]) :: tokens r.
Proof. intros H1 H2. simpl. rewrite H1, H2. reflexivity. Qed.

Lemma tokens_ws3 (c1 c2 c3 : ascii) (r : string) :
  ws1 c1 = false -> ws2 c1 c2 = false -> ws3 c1 c2 c3 = true ->
  tokens (String c1 (String c2 (String c3 r)))
  = (true, of_list [c1; c2; c3]) :: tokens r.
Proof. intros H1 H2 H3. simpl. rewrite H1, H2, H3. reflexivity. Qed.

Lemma tokens_other (c1 : ascii) (r : string) :
  ws1 c1 = false ->
  (forall c2 r2, r = String c2 r2 -> ws2 c1 c2 = false) ->
  (forall c2 c3 r3, r = String c2 (String c3 r3) -> ws3 c1 c2 c3 = false) ->
  tokens (String c1 r) = (false, singleton c1) :: tokens r.
Proof.
  intros H1 H2 H3. cbn [tokens]. rewrite H1.
  destruct r as [ | c2 r2]; [reflexivity | ].
  rewrite (H2 c2 r2 eq_refl).
  destruct r2 as [ | c3 r3]; [reflexivity | ].
  rewrite (H3 c2 c3 r3 eq_refl). reflexivity.
Qed.

Lemma wordByte_spec (c : ascii) :
  wordByte c = true ->
  ws1 c = false
  /\ (forall c2, ws2 c c2 = false)
  /\ (forall c2 c3, ws3 c c2 c3 = false).
Proof.
  unfold wordByte. cbn [forallb].
  rewrite !andb_true_iff, !negb_true_iff, !Nat.eqb_neq.
  intros (H1 & H194 & H225 & H226 & H227 & H239 & _).
  split; [exact H1 | ]. split.
  - intros c2. unfold ws2.
    destruct (Nat.eqb_spec (code c) 194); [contradiction | reflexivity].
  - intros c2 c3. unfold ws3. cbv zeta.
    destruct (Nat.eqb_spec (code c) 225); [contradiction | ].
    destruct (Nat.eqb_spec (code c) 226); [contradiction | ].
    destruct (Nat.eqb_spec (code c) 227); [contradiction | ].
    destruct (Nat.eqb_spec (code c) 239); [contradiction | ].
    reflexivity.
Qed.

Lemma tokens_wordByte (c : ascii) (r : string) :
  wordByte c = true -> tokens (String c r) = (false, singleton c) :: tokens r.
Proof.
  intros H. apply wordByte_spec in H as (H1 & H2 & H3).
  apply tokens_other; auto.
Qed.

(** A word is read byte by byte, whatever follows it. *)
Lemma tokens_word_app (s r : string) :
  wordBytes s = true -> tokens (s ++ r) = (byteTokens s ++ tokens r)%list.
Proof.
  induction s as [ | c s IH]; [reflexivity | ].
  cbn [wordBytes]. intros H. apply andb_prop in H as [Hc Hs].
  change (String c s ++ r) with (String c (s ++ r)).
  rewrite (@tokens_wordByte c (s ++ r) Hc), (IH Hs). reflexivity.
Qed.

(** The strings of white space, by their first character. *)
Lemma whitespaceOnly_cases (c1 : ascii) (r1 : string) :
  whitespaceOnly (String c1 r1) = true ->
  (ws1 c1 = true /\ whitespaceOnly r1 = true)
  \/ (exists c2 r2,
         r1 = String c2 r2 /\ ws1 c1 = false /\ ws2 c1 c2 = true
         /\ whitespaceOnly r2 = true)
  \/ (exists c2 c3 r3,
         r1 = String c2 (String c3 r3) /\ ws1 c1 = false
         /\ ws2 c1 c2 = false /\ ws3 c1 c2 c3 = true
         /\ whitespaceOnly r3 = true).
Proof.
  unfold whitespaceOnly. cbn [tokens].
  destruct (ws1 c1) eqn:H1.
  - intros H. left. split; [reflexivity | exact H].
  - destruct r1 as [ | c2 r2]; [discriminate | ].
    destruct (ws2 c1 c2) eqn:H2.
    + intros H. right. left. exists c2, r2. repeat split; assumption.
    + destruct r2 as [ | c3 r3]; [discriminate | ].
      destruct (ws3 c1 c2 c3) eqn:H3; [ | discriminate].
      intros H. right. right. exists c2, c3, r3. repeat split; assumption.
Qed.

Lemma whitespaceOnly_ind (P : string -> Prop) :
  P EmptyString ->
  (forall c1 r, ws1 c1 = true -> whitespaceOnly r = true -> P r ->
                P (String c1 r)) ->
  (forall c1 c2 r, ws1 c1 = false -> ws2 c1 c2 = true ->
                   whitespaceOnly r = true -> P r ->
                   P (String c1 (String c2 r))) ->
  (forall c1 c2 c3 r, ws1 c1 = false -> ws2 c1 c2 = false ->
                      ws3 c1 c2 c3 = true ->
                      whitespaceOnly r = true -> P r ->
                      P (String c1 (String c2 (String c3 r)))) ->
  forall s, whitespaceOnly s = true -> P s.
Proof.
  intros H0 Hone Htwo Hthree s.
  remember (String.length s) as n eqn:Hn.
  revert s Hn. induction n as [n IH] using lt_wf_ind. intros s Hn Hs.
  destruct s as [ | c1 r1]; [exact H0 | ].
  destruct (whitespaceOnly_cases _ _ Hs)
    as [[H1 Hr] | [(c2 & r2 & -> & H1 & H2 & Hr)
                  | (c2 & c3 & r3 & -> & H1 & H2 & H3 & Hr)]].
  - apply Hone; try assumption.
    apply (IH (String.length r1)); [simpl in Hn; lia | reflexivity | exact Hr].
  - apply Htwo; try assumption.
    apply (IH (String.length r2)); [simpl in Hn; lia | reflexivity | exact Hr].
  - apply Hthree; try assumption.
    apply (IH (String.length r3)); [simpl in Hn; lia | reflexivity | exact Hr].
Qed.

(** White space is read character by character, whatever follows
    it. *)
Lemma tokens_ws_app (a r : string) :
  whitespaceOnly a = true -> tokens (a ++ r) = (tokens a ++ tokens r)%list.
Proof.
  intros Ha. revert r. pattern a. revert a Ha.
  apply whitespaceOnly_ind.
  - reflexivity.
  - intros c1 a H1 _ IH r.
    change (String c1 a ++ r) with (String c1 (a ++ r)).
    rewrite !(@tokens_ws1 c1 _ H1), IH. reflexivity.
  - intros c1 c2 a H1 H2 _ IH r.
    change (String c1 (String c2 a) ++ r)
      with (String c1 (String c2 (a ++ r))).
    rewrite !(@tokens_ws2 c1 c2 _ H1 H2), IH. reflexivity.
  - intros c1 c2 c3 a H1 H2 H3 _ IH r.
    change (String c1 (String c2 (String c3 a)) ++ r)
      with (String c1 (String c2 (String c3 (a ++ r)))).
    rewrite !(@tokens_ws3 c1 c2 c3 _ H1 H2 H3), IH. reflexivity.
Qed.

Lemma tokens_ws_all (a : string) :
  whitespaceOnly a = true -> forallb fst (tokens a) = true.
Proof. intros H. exact H. Qed.


(** *** Back from the tokens to the string *)

Lemma untokens_cons (t : token) (l : list token) :
  untokens (t :: l) = snd t ++ untokens l.
Proof.
  unfold untokens. destruct l as [ | t' l]; simpl.
  - rewrite append_nil_r. reflexivity.
  - reflexivity.
Qed.


Lemma untokens_byteTokens (s : string) : untokens (byteTokens s) = s.
Proof.
  induction s as [ | c s IH]; [reflexivity | ].
  change (byteTokens (String c s)) with ((false, singleton c) :: byteTokens s).
  rewrite untokens_cons, IH. reflexivity.
Qed.


(** *** [trim] *)

Lemma dropWhile_app_all {A} (p : A -> bool) (l1 l2 : list A) :
  forallb p l1 = true -> dropWhile p (l1 ++ l2) = dropWhile p l2.
Proof.
  induction l1 as [ | x l1 IH]; [reflexivity | ].
  simpl. intros H. apply andb_prop in H as [-> H]. auto.
Qed.

Lemma dropWhile_startsWithWord (l : list token) :
  startsWithWord l = true -> dropWhile fst l = l.
Proof.
  destruct l as [ | t l]; [reflexivity | ].
  simpl. intros H. apply negb_true_iff in H. rewrite H. reflexivity.
Qed.

Lemma startsWithWord_app (l1 l2 : list token) :
  l1 <> [] -> startsWithWord (l1 ++ l2) = startsWithWord l1.
Proof. destruct l1; [congruence | reflexivity]. Qed.

(** What [trim] keeps when the tokens are white space, a trimmed
    middle and white space. *)
Lemma trim_tokens (s : string) (before middle behind : list token) :
  tokens s = (before ++ middle ++ behind)%list ->
  forallb fst before = true -> forallb fst behind = true ->
  trimmed middle = true ->
  trim s = untokens middle.
Proof.
  intros Hs Hbefore Hbehind Hmiddle. unfold trim. rewrite Hs.
  rewrite (@dropWhile_app_all _ _ _ _ Hbefore).
  apply andb_prop in Hmiddle as [Hstart Hend].
  destruct middle as [ | t middle].
  - simpl app. rewrite (@dropWhile_all _ _ _ Hbehind). reflexivity.
  - rewrite dropWhile_startsWithWord
      by (rewrite startsWithWord_app by discriminate; exact Hstart).
    unfold dropWhileEnd. rewrite rev_app_distr.
    rewrite dropWhile_app_all
      by (rewrite forallb_forall in *; intros x Hx;
          apply Hbehind, in_rev; exact Hx).
    rewrite (@dropWhile_startsWithWord _ Hend), rev_involutive.
    reflexivity.
Qed.

Lemma byteTokens_nonempty (s : string) :
  s <> EmptyString -> byteTokens s <> [].
Proof. destruct s; [congruence | discriminate]. Qed.

Lemma byteTokens_app (s t : string) :
  byteTokens (s ++ t) = (byteTokens s ++ byteTokens t)%list.
Proof.
  induction s as [ | c s IH]; [reflexivity | ].
  change (String c s ++ t) with (String c (s ++ t)).
  change (byteTokens (String c (s ++ t)))
    with ((false, singleton c) :: byteTokens (s ++ t)).
  rewrite IH. reflexivity.
Qed.

Lemma byteTokens_all_words (s : string) :
  forallb (fun t : token => negb (fst t)) (byteTokens s) = true.
Proof. induction s as [ | c s IH]; [reflexivity | exact IH]. Qed.

Lemma all_words_trimmed (l : list token) :
  forallb (fun t : token => negb (fst t)) l = true -> trimmed l = true.
Proof.
  intros H. unfold trimmed.
  assert (Hstart : forall l',
             forallb (fun t : token => negb (fst t)) l' = true ->
             startsWithWord l' = true).
  { intros [ | t l'] Hl; [reflexivity | ].
    simpl in Hl. apply andb_prop in Hl as [Ht _]. exact Ht. }
  rewrite (Hstart _ H). apply Hstart.
  rewrite forallb_forall in *. intros x Hx. apply H, in_rev. exact Hx.
Qed.

Lemma byteTokens_trimmed (s : string) : trimmed (byteTokens s) = true.
Proof. apply all_words_trimmed, byteTokens_all_words. Qed.

(** [trim] on a word between white space. *)
Lemma trim_word (lead w trail : string) :
  whitespaceOnly lead = true -> whitespaceOnly trail = true ->
  wordBytes w = true ->
  trim (lead ++ w ++ trail) = w.
Proof.
  intros Hlead Htrail Hw.
  rewrite <- (untokens_byteTokens w) at 2.
  apply trim_tokens with (before := tokens lead) (behind := tokens trail).
  - rewrite (@tokens_ws_app _ _ Hlead), (@tokens_word_app _ _ Hw). reflexivity.
  - exact Hlead.
  - exact Htrail.
  - apply byteTokens_trimmed.
Qed.

(** *** Sentences *)







(** *** [split] on runs of white space *)





End TextFacts.

(** ** Commas and brackets *)

Module ListFacts.
Import JSString Text StringFacts TextFacts Frame.
Local Open Scope string_scope.

Lemma noneOf_app (codes : list nat) (s t : string) :
  noneOf codes (s ++ t) = noneOf codes s && noneOf codes t.
Proof.
  induction s as [ | c s IH]; [reflexivity | ].
  simpl. rewrite IH, andb_assoc. reflexivity.
Qed.

Lemma noneOf_incl (codes codes' : list nat) (s : string) :
  incl codes' codes -> noneOf codes s = true -> noneOf codes' s = true.
Proof.
  intros Hincl. induction s as [ | c s IH]; [reflexivity | ].
  simpl. rewrite !andb_true_iff, !forallb_forall. intros [Hc Hs].
  split; [intros k Hk; apply Hc, Hincl, Hk | apply IH, Hs].
Qed.

Lemma noneOf_byte (c0 c : ascii) (r : string) :
  noneOf [code c0] (String c r) = true ->
  Ascii.eqb c c0 = false /\ noneOf [code c0] r = true.
Proof.
  simpl. rewrite !andb_true_iff, negb_true_iff, Nat.eqb_neq.
  intros [[Hc _] Hr]. split; [ | exact Hr].
  apply eqb_code_neq. exact Hc.
Qed.

(** The white space and the names hold no comma and no bracket. *)
Lemma ws_free (codes : list nat) (a : string) :
  incl codes [44; 91; 93] -> whitespaceOnly a = true ->
  noneOf codes a = true.
Proof.
  intros Hincl Ha. apply noneOf_incl with (codes := [44; 91; 93]).
  - exact Hincl.
  - apply whitespaceOnly_noneOf. exact Ha.
Qed.

Lemma name_free (p : PoseLandmark) : noneOf [44; 91; 93] (name p) = true.
Proof. destruct p; reflexivity. Qed.

Lemma name_word (p : PoseLandmark) : wordBytes (name p) = true.
Proof. destruct p; reflexivity. Qed.

Lemma name_nonempty (p : PoseLandmark) : name p <> EmptyString.
Proof. destruct p; discriminate. Qed.

Lemma incl_one (k : nat) : In k [44; 91; 93] -> incl [k] [44; 91; 93].
Proof. intros Hk x [<- | []]. exact Hk. Qed.

(** *** [split(",")] *)

Lemma split_free (s : string) :
  noneOf [44] s = true -> split "," s = [s].
Proof.
  induction s as [ | c r IH]; [reflexivity | ]. intros H.
  apply (noneOf_byte ","%char) in H as [H Hr]. simpl.
  rewrite H, IH by assumption. reflexivity.
Qed.

Lemma split_piece (p r : string) :
  noneOf [44] p = true ->
  split "," (p ++ String ","%char r) = p :: split "," r.
Proof.
  induction p as [ | c p IH]; [reflexivity | ]. intros H.
  apply (noneOf_byte ","%char) in H as [H Hp].
  change (String c p ++ String ","%char r)
    with (String c (p ++ String ","%char r)).
  cbn [split]. rewrite H, IH by assumption. reflexivity.
Qed.

Lemma join_cons (sep x : string) (l : list string) :
  l <> [] -> join sep (x :: l) = x ++ sep ++ join sep l.
Proof. destruct l; [congruence | reflexivity]. Qed.

Lemma split_join (pieces : list string) :
  pieces <> [] ->
  Forall (fun piece => noneOf [44] piece = true) pieces ->
  split "," (join "," pieces) = pieces.
Proof.
  induction pieces as [ | x pieces IH]; [congruence | ].
  intros _ Hall. inversion Hall as [ | x' l' Hx Hl]; subst.
  destruct pieces as [ | y pieces].
  - apply split_free. exact Hx.
  - rewrite join_cons by discriminate.
    change ("," ++ join "," (y :: pieces))
      with (String ","%char (join "," (y :: pieces))).
    rewrite split_piece by exact Hx.
    rewrite IH by (try discriminate; exact Hl). reflexivity.
Qed.

(** Text before the first piece and behind the last one. *)
Lemma join_before (sep pre x : string) (l : list string) :
  pre ++ join sep (x :: l) = join sep ((pre ++ x) :: l).
Proof.
  destruct l as [ | y l]; [reflexivity | ].
  rewrite (@join_cons sep x), (@join_cons sep (pre ++ x)) by discriminate.
  rewrite append_assoc. reflexivity.
Qed.

Lemma join_behind (sep post x : string) (l : list string) :
  join sep (l ++ [x]) ++ post = join sep (l ++ [x ++ post]).
Proof.
  induction l as [ | y l IH]; [reflexivity | ].
  change ((y :: l) ++ [x])%list with (y :: (l ++ [x]))%list.
  change ((y :: l) ++ [(x ++ post)%string])%list
    with (y :: (l ++ [(x ++ post)%string]))%list.
  rewrite (@join_cons sep y (l ++ [x])%list),
    (@join_cons sep y (l ++ [(x ++ post)%string])%list)
    by (destruct l; discriminate).
  rewrite !append_assoc, IH. reflexivity.
Qed.

(** *** The brackets *)

Lemma removeLeading_bracket (s : string) :
  removeLeading "[" ("[" ++ s) = s.
Proof. reflexivity. Qed.

Lemma removeLeading_free (s : string) :
  noneOf [91] s = true -> removeLeading "[" s = s.
Proof.
  destruct s as [ | c r]; [reflexivity | ]. intros H.
  apply (noneOf_byte "["%char) in H as [H _]. simpl. rewrite H.
  reflexivity.
Qed.

Lemma removeLeading_first (c : ascii) (r : string) :
  noneOf [91] (String c EmptyString) = true ->
  removeLeading "[" (String c r) = String c r.
Proof.
  intros H. apply (noneOf_byte "["%char) in H as [H _]. simpl. rewrite H.
  reflexivity.
Qed.

Lemma removeTrailing_bracket (s : string) :
  removeTrailing "]" (s ++ "]") = s.
Proof.
  induction s as [ | c s IH]; [reflexivity | ].
  change (String c s ++ "]") with (String c (s ++ "]")).
  cbn [removeTrailing]. rewrite IH.
  destruct s; reflexivity.
Qed.

Lemma removeTrailing_free (s : string) :
  noneOf [93] s = true -> removeTrailing "]" s = s.
Proof.
  induction s as [ | c r IH]; [reflexivity | ]. intros H.
  apply (noneOf_byte "]"%char) in H as [H Hr]. cbn [removeTrailing].
  destruct r as [ | c' r']; [rewrite H; reflexivity | ].
  rewrite IH by assumption. reflexivity.
Qed.

Lemma removeTrailing_behind (s t : string) :
  t <> EmptyString -> noneOf [93] t = true ->
  removeTrailing "]" (s ++ t) = s ++ t.
Proof.
  intros Hne Ht. induction s as [ | c s IH].
  - apply removeTrailing_free. exact Ht.
  - change (String c s ++ t) with (String c (s ++ t)).
    cbn [removeTrailing]. rewrite IH.
    destruct (s ++ t) eqn:Hst; [ | reflexivity].
    destruct s; [simpl in Hst; congruence | discriminate].
Qed.

(** *** The pieces of a list of names *)

Lemma listed_pieces (items : list (string * PoseLandmark)) :
  listed items = join "," (map pieceOf items).
Proof. reflexivity. Qed.

Lemma piece_free (codes : list nat) (item : string * PoseLandmark) :
  incl codes [44; 91; 93] -> whitespaceOnly (fst item) = true ->
  noneOf codes (pieceOf item) = true.
Proof.
  intros Hincl Ha. unfold pieceOf. rewrite noneOf_app.
  rewrite (@ws_free _ _ Hincl Ha).
  apply noneOf_incl with (codes := [44; 91; 93]);
    [exact Hincl | apply name_free].
Qed.

Lemma pieces_free (codes : list nat) (items : list (string * PoseLandmark)) :
  incl codes [44; 91; 93] ->
  Forall (fun item => whitespaceOnly (fst item) = true) items ->
  Forall (fun piece => noneOf codes piece = true) (map pieceOf items).
Proof.
  intros Hincl Hall. apply Forall_map. revert Hall. apply Forall_impl.
  intros item Ha. apply piece_free; assumption.
Qed.

Lemma join_free (codes : list nat) (pieces : list string) :
  noneOf codes "," = true ->
  Forall (fun piece => noneOf codes piece = true) pieces ->
  noneOf codes (join "," pieces) = true.
Proof.
  intros Hsep. induction 1 as [ | x l Hx Hl IH]; [reflexivity | ].
  destruct l as [ | y l]; [exact Hx | ].
  rewrite join_cons by discriminate.
  rewrite !noneOf_app, Hx, Hsep, IH. reflexivity.
Qed.

Lemma trim_piece (item : string * PoseLandmark) :
  whitespaceOnly (fst item) = true -> trim (pieceOf item) = name (snd item).
Proof.
  intros Ha. unfold pieceOf.
  rewrite <- (append_nil_r (name (snd item))) at 1.
  apply trim_word; [exact Ha | reflexivity | apply name_word].
Qed.

Lemma trim_pieces (items : list (string * PoseLandmark)) :
  Forall (fun item => whitespaceOnly (fst item) = true) items ->
  map trim (map pieceOf items) = map (fun item => name (snd item)) items.
Proof.
  induction 1 as [ | item items Ha _ IH]; [reflexivity | ].
  simpl. rewrite IH, (@trim_piece _ Ha). reflexivity.
Qed.

End ListFacts.

(** ** The answers [validateExistingLandmarks] accepts and rejects *)

Section Validator.
Import JSString Text StringFacts TextFacts ListFacts Frame Feedback.
Local Open Scope string_scope.
Variable LLM : Type.
Variable LLMError : Type.

Local Abbreviation validate := (Feedback.validateExistingLandmarks LLMError).

Lemma names_valid (items : list (string * PoseLandmark)) :
  Forall (fun token => in_PoseLandmark token = true)
    (map (fun item => name (snd item)) items).
Proof.
  apply Forall_map, Forall_forall. intros [a p] _. destruct p; reflexivity.
Qed.

Lemma find_first_unknown (valid : list string) (lm : string)
    (later : list string) :
  Forall (fun token => in_PoseLandmark token = true) valid ->
  in_PoseLandmark lm = false ->
  find (fun lm => negb (in_PoseLandmark lm)) (valid ++ lm :: later)%list
  = Some lm.
Proof.
  intros Hvalid Hlm. induction Hvalid as [ | token l Htoken _ IH]; simpl.
  - rewrite Hlm. reflexivity.
  - rewrite Htoken. exact IH.
Qed.

Lemma extracted_listed (items : list (string * PoseLandmark)) :
  items <> [] ->
  Forall (fun item => whitespaceOnly (fst item) = true) items ->
  map trim (split "," (listed items))
  = map (fun item => name (snd item)) items.
Proof.
  intros Hne Hall. rewrite listed_pieces, split_join.
  - apply trim_pieces. exact Hall.
  - destruct items; [congruence | discriminate].
  - apply pieces_free; [ | exact Hall]. intros k [<- | []]. left. reflexivity.
Qed.

Lemma listed_free (k : nat) (items : list (string * PoseLandmark)) :
  k = 91 \/ k = 93 ->
  Forall (fun item => whitespaceOnly (fst item) = true) items ->
  noneOf [k] (listed items) = true.
Proof.
  intros Hk Hall. rewrite listed_pieces. apply join_free.
  - destruct Hk as [-> | ->]; reflexivity.
  - apply pieces_free; [ | exact Hall].
    intros x [<- | []]. destruct Hk as [-> | ->]; simpl; tauto.
Qed.

(** X7: The answer in the format the request asks for, [[A, B, ...]] with
    names of the enum and any white space before each name, is read as
    the list of the names and accepted, with or without the brackets;
    the validation leaves the world as it is. *)
Theorem validate_accepts_listed_names
    (items : list (string * PoseLandmark)) (w : World LLM) :
  items <> [] ->
  Forall (fun item => whitespaceOnly (fst item) = true) items ->
  extractedLandmarks ("[" ++ listed items ++ "]")
  = map (fun item => name (snd item)) items
  /\ extractedLandmarks (listed items)
     = map (fun item => name (snd item)) items
  /\ validate ("[" ++ listed items ++ "]") w = (w, Returned tt)
  /\ validate (listed items) w = (w, Returned tt).
Proof.
  intros Hne Hall.
  assert (H1 : extractedLandmarks ("[" ++ listed items ++ "]")
               = map (fun item => name (snd item)) items).
  { unfold extractedLandmarks.
    rewrite removeLeading_bracket, removeTrailing_bracket.
    apply extracted_listed; assumption. }
  assert (H2 : extractedLandmarks (listed items)
               = map (fun item => name (snd item)) items).
  { unfold extractedLandmarks.
    rewrite removeLeading_free by (apply listed_free; auto).
    rewrite removeTrailing_free by (apply listed_free; auto).
    apply extracted_listed; assumption. }
  split; [exact H1 | ]. split; [exact H2 | ].
  split; rewrite validate_first_unknown.
  - rewrite H1, (find_valid_tokens (names_valid items)). reflexivity.
  - rewrite H2, (find_valid_tokens (names_valid items)). reflexivity.
Qed.

Lemma name_bracket_unknown (p : PoseLandmark) :
  in_PoseLandmark (name p ++ "]") = false.
Proof. destruct p; reflexivity. Qed.

Lemma bracket_unknown (s : string) : in_PoseLandmark ("[" ++ s) = false.
Proof. reflexivity. Qed.

(** X8: White space behind the closing bracket, a line break for one,
    keeps the bracket in the last token: the names before the last are
    read as they are, the last one with the bracket, and the validation
    throws the unknown-landmark error for it. *)
Theorem validate_rejects_text_after_bracket
    (earlier : list (string * PoseLandmark)) (a : string)
    (p : PoseLandmark) (trail : string) (w : World LLM) :
  Forall (fun item => whitespaceOnly (fst item) = true) earlier ->
  whitespaceOnly a = true -> gap trail ->
  let answer := "[" ++ listed (earlier ++ [(a, p)]) ++ "]" ++ trail in
  extractedLandmarks answer
  = (map (fun item => name (snd item)) earlier
     ++ [(name p ++ "]")%string])%list
  /\ validate answer w = (w, Thrown (UnknownLandmark (name p ++ "]"))).
Proof.
  intros Hall Ha [Hne Htrail] answer.
  assert (H1 : extractedLandmarks answer
               = (map (fun item => name (snd item)) earlier
                  ++ [(name p ++ "]")%string])%list).
  { unfold answer, extractedLandmarks.
    rewrite removeLeading_bracket.
    rewrite <- append_assoc.
    rewrite removeTrailing_behind;
      [ | exact Hne | apply ws_free; [apply incl_one; simpl; tauto
                                     | exact Htrail]].
    rewrite append_assoc, listed_pieces, map_app. cbn [map].
    rewrite join_behind, split_join.
    - rewrite map_app. cbn [map]. rewrite (trim_pieces Hall).
      f_equal. f_equal. unfold pieceOf. cbn [fst snd].
      rewrite append_assoc.
      replace (name p ++ "]" ++ trail) with ((name p ++ "]") ++ trail)
        by (rewrite append_assoc; reflexivity).
      apply trim_word; [exact Ha | exact Htrail | ].
      destruct p; reflexivity.
    - destruct earlier; discriminate.
    - apply Forall_app. split.
      + apply pieces_free; [ | exact Hall].
        intros k [<- | []]. left. reflexivity.
      + constructor; [ | constructor].
        rewrite !noneOf_app.
        rewrite (@piece_free [44] (a, p)),
          (@ws_free [44] trail); try assumption; try reflexivity;
          intros k [<- | []]; left; reflexivity. }
  split; [exact H1 | ].
  rewrite validate_first_unknown, H1.
  rewrite find_first_unknown;
    [reflexivity | apply names_valid | apply name_bracket_unknown].
Qed.

(** X9: White space before the opening bracket keeps the bracket in the
    first token, and the validation throws the unknown-landmark error
    for it. *)
Theorem validate_rejects_text_before_bracket
    (lead : string) (p : PoseLandmark)
    (later : list (string * PoseLandmark)) (w : World LLM) :
  gap lead ->
  Forall (fun item => whitespaceOnly (fst item) = true) later ->
  let answer := lead ++ "[" ++ listed ((EmptyString, p) :: later) ++ "]" in
  extractedLandmarks answer
  = ("[" ++ name p) :: map (fun item => name (snd item)) later
  /\ validate answer w = (w, Thrown (UnknownLandmark ("[" ++ name p))).
Proof.
  intros [Hne Hlead] Hall answer.
  assert (H1 : extractedLandmarks answer
               = ("[" ++ name p)
                   :: map (fun item => name (snd item)) later).
  { unfold answer, extractedLandmarks.
    destruct lead as [ | c lead]; [congruence | ].
    change (String c lead ++ "[" ++ listed ((EmptyString, p) :: later) ++ "]")
      with (String c (lead ++ "[" ++ listed ((EmptyString, p) :: later)
                      ++ "]")).
    rewrite removeLeading_first.
    2:{ pose proof (@ws_free [91] _ (@incl_one 91 ltac:(simpl; tauto)) Hlead)
          as Hfree.
        cbn [noneOf forallb] in Hfree |- *.
        apply andb_prop in Hfree as [Hfree _]. rewrite Hfree. reflexivity. }
    change (String c (lead ++ "[" ++ listed ((EmptyString, p) :: later)
                      ++ "]"))
      with (String c lead ++ "[" ++ listed ((EmptyString, p) :: later)
            ++ "]").
    replace (String c lead ++ "[" ++ listed ((EmptyString, p) :: later)
             ++ "]")
      with ((String c lead ++ "[" ++ listed ((EmptyString, p) :: later))
            ++ "]")
      by (rewrite !append_assoc; reflexivity).
    rewrite removeTrailing_bracket.
    rewrite listed_pieces. cbn [map].
    replace (String c lead ++ "[" ++ join "," (pieceOf (EmptyString, p)
                                                 :: map pieceOf later))
      with (join "," ((String c lead ++ "[" ++ name p)
                        :: map pieceOf later))
      by (rewrite <- (@join_before "," (String c lead) ("[" ++ name p)),
            <- (@join_before "," "[" (name p)); reflexivity).
    rewrite split_join.
    - cbn [map]. rewrite (trim_pieces Hall). f_equal.
      rewrite <- (append_nil_r ("[" ++ name p)) at 1.
      rewrite <- append_assoc.
      rewrite append_assoc.
      apply trim_word; [exact Hlead | reflexivity | ].
      destruct p; reflexivity.
    - discriminate.
    - constructor.
      + rewrite !noneOf_app.
        rewrite (@ws_free [44] _ (@incl_one 44 ltac:(simpl; tauto)) Hlead).
        destruct p; reflexivity.
      + apply pieces_free; [ | exact Hall].
        intros k [<- | []]. left. reflexivity. }
  split; [exact H1 | ].
  rewrite validate_first_unknown, H1. cbn [find].
  rewrite bracket_unknown. reflexivity.
Qed.

(** X10: The validation asks whether a token is a property of the enum
    object, so it accepts tokens that name no landmark: the numbers of
    the enum and the properties every object inherits. *)
Theorem validate_accepts_other_properties (key : string) (w : World LLM) :
  In key (map (fun p => ofNat (index p)) members ++ Object_prototype_keys) ->
  (forall p : PoseLandmark, key <> name p)
  /\ in_PoseLandmark key = true
  /\ extractedLandmarks ("[" ++ key ++ "]") = [key]
  /\ validate ("[" ++ key ++ "]") w = (w, Returned tt).
Proof.
  intros Hkey.
  assert (H : (forall p : PoseLandmark, key <> name p)
              /\ in_PoseLandmark key = true
              /\ extractedLandmarks ("[" ++ key ++ "]") = [key]).
  { cbn in Hkey.
    repeat (destruct Hkey as [<- | Hkey];
            [split; [intros p; destruct p; discriminate
                    | split; reflexivity] | ]).
    contradiction. }
  destruct H as (Hname & Hin & Htokens).
  split; [exact Hname | ]. split; [exact Hin | ]. split; [exact Htokens | ].
  rewrite validate_first_unknown, Htokens. cbn [find].
  rewrite Hin. reflexivity.
Qed.

End Validator.

(** ** The mood and the length of the feedback *)

Section MoodAndLength.
Import JSString Text StringFacts TextFacts Feedback Checks.
Local Open Scope string_scope.

Lemma wordByte_upper (c : ascii) :
  wordByte (upper c) = true -> wordByte c = true.
Proof.
  destruct c as [[ | ] [ | ] [ | ] [ | ] [ | ] [ | ] [ | ] [ | ]];
    intros H; exact H.
Qed.

Lemma wordBytes_toUpperCase (t : string) :
  wordBytes (toUpperCase t) = true -> wordBytes t = true.
Proof.
  induction t as [ | c t IH]; [reflexivity | ].
  cbn [toUpperCase wordBytes]. rewrite !andb_true_iff.
  intros [Hc Ht]. split; [apply wordByte_upper, Hc | apply IH, Ht].
Qed.



End MoodAndLength.

(** ** Empty items and capitals *)

Section Items.
Import JSString Text StringFacts TextFacts ListFacts Frame Feedback.
Local Open Scope string_scope.
Variable LLM : Type.
Variable LLMError : Type.

Local Abbreviation validate := (Feedback.validateExistingLandmarks LLMError).

Lemma join_snoc (sep x : string) (l : list string) :
  l <> [] -> join sep (l ++ [x]) = join sep l ++ sep ++ x.
Proof.
  induction l as [ | y l IH]; [congruence | ]. intros _.
  destruct l as [ | z l]; [reflexivity | ].
  change ((y :: z :: l) ++ [x])%list with (y :: ((z :: l) ++ [x]))%list.
  rewrite (@join_cons sep y ((z :: l) ++ [x])%list) by discriminate.
  rewrite (@join_cons sep y (z :: l)) by discriminate.
  rewrite IH by discriminate. rewrite !append_assoc. reflexivity.
Qed.

(** X11: A comma behind the last name leaves an empty item, which is no
    property of the enum object: the names are read, then the empty
    token, and the validation throws the unknown-landmark error for
    it. *)
Theorem validate_rejects_empty_item
    (items : list (string * PoseLandmark)) (a : string) (w : World LLM) :
  items <> [] ->
  Forall (fun item => whitespaceOnly (fst item) = true) items ->
  whitespaceOnly a = true ->
  let answer := "[" ++ listed items ++ "," ++ a ++ "]" in
  extractedLandmarks answer
  = (map (fun item => name (snd item)) items ++ [EmptyString])%list
  /\ validate answer w = (w, Thrown (UnknownLandmark EmptyString)).
Proof.
  intros Hne Hall Ha answer.
  assert (H1 : extractedLandmarks answer
               = (map (fun item => name (snd item)) items
                  ++ [EmptyString])%list).
  { unfold answer, extractedLandmarks.
    rewrite removeLeading_bracket.
    replace (listed items ++ "," ++ a ++ "]")
      with ((listed items ++ "," ++ a) ++ "]")
      by (rewrite !append_assoc; reflexivity).
    rewrite removeTrailing_bracket, listed_pieces.
    rewrite <- join_snoc by (destruct items; [congruence | discriminate]).
    rewrite split_join.
    - rewrite map_app. cbn [map].
      rewrite (trim_pieces Hall), (trim_whitespaceOnly _ Ha). reflexivity.
    - destruct items; discriminate.
    - apply Forall_app. split.
      + apply pieces_free; [ | exact Hall].
        intros k [<- | []]. left. reflexivity.
      + constructor; [ | constructor].
        apply ws_free; [ | exact Ha].
        intros k [<- | []]. left. reflexivity. }
  split; [exact H1 | ].
  rewrite validate_first_unknown, H1.
  rewrite find_first_unknown; [reflexivity | apply names_valid | reflexivity].
Qed.

Lemma free_upper (c : ascii) :
  forallb (fun k => negb (Nat.eqb (code (upper c)) k)) [44; 91; 93] = true ->
  forallb (fun k => negb (Nat.eqb (code c) k)) [44; 91; 93] = true.
Proof.
  destruct c as [[ | ] [ | ] [ | ] [ | ] [ | ] [ | ] [ | ] [ | ]];
    intros H; exact H.
Qed.

Lemma noneOf_toUpperCase (t : string) :
  noneOf [44; 91; 93] (toUpperCase t) = true ->
  noneOf [44; 91; 93] t = true.
Proof.
  induction t as [ | c t IH]; [reflexivity | ].
  cbn [toUpperCase noneOf]. rewrite !andb_true_iff.
  intros [Hc Ht]. split; [apply free_upper, Hc | apply IH, Ht].
Qed.

Lemma key_cases (t : string) :
  in_PoseLandmark t = true ->
  In t (map fst PoseLandmark_entries ++ Object_prototype_keys).
Proof.
  unfold in_PoseLandmark. intros H.
  apply existsb_exists in H as (key & Hin & Heq).
  apply String.eqb_eq in Heq. subst key. exact Hin.
Qed.

(** X12: The validation is sensitive to case: a name of the enum written
    with any lower-case letter is no property of the enum object, and
    the validation throws the unknown-landmark error for it. *)
Theorem validate_is_case_sensitive (t : string) (p : PoseLandmark)
    (w : World LLM) :
  toUpperCase t = name p -> t <> name p ->
  in_PoseLandmark t = false
  /\ extractedLandmarks ("[" ++ t ++ "]") = [t]
  /\ validate ("[" ++ t ++ "]") w = (w, Thrown (UnknownLandmark t)).
Proof.
  intros Hupper Hother.
  assert (Hin : in_PoseLandmark t = false).
  { destruct (in_PoseLandmark t) eqn:Hin; [exfalso | reflexivity].
    apply key_cases in Hin. cbn in Hin.
    repeat (destruct Hin as [<- | Hin];
            [destruct p; try discriminate; apply Hother; reflexivity | ]).
    exact Hin. }
  assert (Hword : wordBytes t = true)
    by (apply wordBytes_toUpperCase; rewrite Hupper; apply name_word).
  assert (Hfree : noneOf [44; 91; 93] t = true)
    by (apply noneOf_toUpperCase; rewrite Hupper; apply name_free).
  assert (Htokens : extractedLandmarks ("[" ++ t ++ "]") = [t]).
  { unfold extractedLandmarks.
    rewrite removeLeading_bracket, removeTrailing_bracket.
    rewrite split_free
      by (apply noneOf_incl with (codes := [44; 91; 93]);
          [intros k [<- | []]; left; reflexivity | exact Hfree]).
    cbn [map]. f_equal.
    rewrite <- (append_nil_r t) at 1.
    apply (@trim_word EmptyString t EmptyString); [reflexivity | reflexivity | ].
    exact Hword. }
  split; [exact Hin | ]. split; [exact Htokens | ].
  rewrite validate_first_unknown, Htokens. cbn [find]. rewrite Hin.
  reflexivity.
Qed.

End Items.

(** ** More on the difference scorer *)

Section Deltas.
Import JSNumber Frame Feedback Spec SF64 Binary64 NumberFacts.
Local Open Scope float_scope.

(** *** The sign of a rounded number *)

Lemma binary_round_aux_abs (sx sy : bool) (M E : Z) (l : location) :
  SFabs (binary_round_aux prec emax sx M E l)
  = SFabs (binary_round_aux prec emax sy M E l).
Proof.
  unfold binary_round_aux.
  destruct (shr_fexp prec emax M E l) as [mrs1 e1].
  destruct (shr_fexp prec emax _ e1 loc_Exact) as [mrs2 e2].
  destruct (shr_m mrs2); try reflexivity.
  destruct (e2 <=? emax - prec)%Z; reflexivity.
Qed.

Lemma binary_normalize_opp_abs (M e : Z) :
  SFabs (binary_normalize prec emax (- M) e false)
  = SFabs (binary_normalize prec emax M e false).
Proof.
  destruct M as [ | p | p]; simpl; try reflexivity;
    unfold binary_round;
    destruct (shl_align p e _) as [mz ez];
    apply binary_round_aux_abs.
Qed.

Lemma SFsub_swap_abs (x y : spec_float) :
  SFabs (SF64sub x y) = SFabs (SF64sub y x).
Proof.
  destruct x as [sx | sx | | sx mx ex]; destruct y as [sy | sy | | sy my ey];
    try reflexivity.
  - destruct sx, sy; reflexivity.
  - destruct sx, sy; reflexivity.
  - rewrite !SFsub_finite, (Z.min_comm ey ex).
    rewrite <- binary_normalize_opp_abs. do 2 f_equal. lia.
Qed.

Lemma abs_sub_swap (p r : number) : Math_abs (p - r) = Math_abs (r - p).
Proof.
  apply Prim2SF_inj. unfold Math_abs.
  rewrite !FloatAxioms.abs_spec, !FloatAxioms.sub_spec.
  apply SFsub_swap_abs.
Qed.

Lemma isNaN_abs (x : number) : isNaN (Math_abs x) = isNaN x.
Proof.
  destruct (isNaN x) eqn:Hx.
  - apply NaN_unique in Hx. subst x. reflexivity.
  - apply is_nan_false. apply is_nan_false in Hx.
    unfold Math_abs. rewrite FloatAxioms.abs_spec.
    destruct (Prim2SF x); simpl; congruence.
Qed.

Lemma abs_abs (x : number) : Math_abs (Math_abs x) = Math_abs x.
Proof.
  apply Prim2SF_inj. unfold Math_abs. rewrite !FloatAxioms.abs_spec.
  destruct (Prim2SF x); reflexivity.
Qed.

Lemma numericDeltas_abs (d : list number) :
  numericDeltas (map Math_abs d) = map Math_abs (numericDeltas d).
Proof.
  induction d as [ | x d IH]; [reflexivity | ].
  simpl. rewrite isNaN_abs. destruct (isNaN x); simpl; rewrite IH; reflexivity.
Qed.

(** The accuracy reads the deltas through their absolute values. *)
Lemma calculateAccuracy_abs (d : list number) :
  calculateAccuracy (map Math_abs d) = calculateAccuracy d.
Proof.
  rewrite !calculateAccuracy_loop, numericDeltas_abs.
  destruct (numericDeltas d) as [ | x numeric]; [reflexivity | ].
  cbn [map]. rewrite abs_abs.
  replace (map Math_abs (map Math_abs numeric)) with (map Math_abs numeric);
    [reflexivity | ].
  rewrite map_map. apply map_ext. intros a. rewrite abs_abs. reflexivity.
Qed.

(** The deltas, position by position. *)
Lemma computeAngleDifference_map (reference practice : FrameData) :
  computeAngleDifference reference practice
  = map (fun i =>
           match nth_error (angles practice) i with
           | Some p => p - nth i (angles reference) NaN
           | None => 0
           end)
      (seq 0 (List.length (angles reference))).
Proof. unfold computeAngleDifference. rewrite fold_left_push. reflexivity. Qed.

(** X15: There is one delta for each angle of the reference, whatever the
    practice frame holds; the practice angles beyond the length of the
    reference, the identifiers, the landmarks and the frame numbers
    play no part; without a reference angle there is no delta. *)
Theorem computeAngleDifference_shape
    (reference practice reference' practice' : FrameData) :
  List.length (computeAngleDifference reference practice)
  = List.length (angles reference)
  /\ (angles reference' = angles reference ->
      firstn (List.length (angles reference)) (angles practice')
      = firstn (List.length (angles reference)) (angles practice) ->
      computeAngleDifference reference' practice'
      = computeAngleDifference reference practice)
  /\ (angles reference = [] ->
      computeAngleDifference reference practice = []).
Proof.
  split; [apply computeAngleDifference_length | ]. split.
  - intros Hr Hp. rewrite !computeAngleDifference_map, Hr.
    apply map_ext_in. intros i Hi. apply in_seq in Hi.
    assert (Hnth : nth_error (angles practice') i
                   = nth_error (angles practice) i).
    { apply (f_equal (fun l => nth_error l i)) in Hp.
      rewrite !nth_error_firstn in Hp.
      destruct (Nat.ltb_spec i (List.length (angles reference)));
        [exact Hp | lia]. }
    rewrite Hnth. reflexivity.
  - intros Hr. rewrite computeAngleDifference_map, Hr. reflexivity.
Qed.

(** X16: With as many practice angles as reference angles, the two frames
    can be exchanged: every delta keeps its absolute value, an
    undefined delta stays undefined, and the accuracy is the same. *)
Theorem calculateAccuracy_symmetric (reference practice : FrameData) :
  List.length (angles reference) = List.length (angles practice) ->
  map Math_abs (computeAngleDifference reference practice)
  = map Math_abs (computeAngleDifference practice reference)
  /\ map isNaN (computeAngleDifference reference practice)
     = map isNaN (computeAngleDifference practice reference)
  /\ calculateAccuracy (computeAngleDifference reference practice)
     = calculateAccuracy (computeAngleDifference practice reference).
Proof.
  intros Hlen.
  assert (Habs :
    map Math_abs (computeAngleDifference reference practice)
    = map Math_abs (computeAngleDifference practice reference)).
  { rewrite !computeAngleDifference_map, !map_map, Hlen.
    apply map_ext_in. intros i Hi. apply in_seq in Hi.
    destruct (nth_error (angles practice) i) as [p | ] eqn:Hp;
      [ | apply nth_error_None in Hp; lia].
    destruct (nth_error (angles reference) i) as [r | ] eqn:Hr;
      [ | apply nth_error_None in Hr; lia].
    rewrite (nth_error_nth _ _ NaN Hp), (nth_error_nth _ _ NaN Hr).
    apply abs_sub_swap. }
  split; [exact Habs | ]. split.
  - apply (f_equal (map isNaN)) in Habs. rewrite !map_map in Habs.
    erewrite map_ext in Habs by (intros a; apply isNaN_abs).
    symmetry in Habs.
    erewrite map_ext in Habs by (intros a; apply isNaN_abs).
    symmetry. exact Habs.
  - rewrite <- (calculateAccuracy_abs (computeAngleDifference reference _)).
    rewrite Habs. apply calculateAccuracy_abs.
Qed.

Lemma constant_map {A B C} (c : C) (l : list A) (l' : list B) :
  List.length l = List.length l' ->
  map (fun _ => c) l = map (fun _ => c) l'.
Proof.
  revert l'. induction l as [ | x l IH]; intros [ | y l'] H;
    try discriminate; [reflexivity | ].
  simpl. f_equal. apply IH. simpl in H. lia.
Qed.

Lemma numericDeltas_zeros {A} (l : list A) :
  numericDeltas (map (fun _ => 0) l) = map (fun _ => 0) l.
Proof. induction l as [ | x l IH]; simpl; [ | rewrite IH]; reflexivity. Qed.

Lemma calculateAccuracy_zeros {A} (l : list A) :
  l <> [] -> calculateAccuracy (map (fun _ => 0) l) = 100.
Proof.
  intros Hl. rewrite calculateAccuracy_loop, numericDeltas_zeros.
  destruct l as [ | x l]; [congruence | ].
  change (map (fun _ : A => 0) (x :: l))
    with (0 :: map (fun _ : A => 0) l).
  cbv iota.
  change (0 :: map (fun _ : A => 0) l)
    with (map (fun _ : A => 0) (x :: l)).
  unfold sumOf, countOf. rewrite sum_zeros.
  rewrite zero_div_counted; [reflexivity | ].
  apply count_counted; [left; reflexivity | discriminate].
Qed.

(** X17: A practice frame without any angle is scored as a perfect match:
    every delta is 0, whatever the reference angles are, undefined ones
    included, and the accuracy is 100. *)
Theorem missing_practice_angles_score_full
    (reference practice : FrameData) :
  angles practice = [] -> angles reference <> [] ->
  computeAngleDifference reference practice
  = map (fun _ => 0) (angles reference)
  /\ calculateAccuracy (computeAngleDifference reference practice) = 100.
Proof.
  intros Hp Hr.
  assert (Hd : computeAngleDifference reference practice
               = map (fun _ => 0) (angles reference)).
  { rewrite computeAngleDifference_map, Hp.
    rewrite (@constant_map _ _ _ 0 (angles reference)
               (seq 0 (List.length (angles reference))))
      by (rewrite length_seq; reflexivity).
    apply map_ext. intros i. destruct i; reflexivity. }
  split; [exact Hd | ]. rewrite Hd. apply calculateAccuracy_zeros. exact Hr.
Qed.

(** *** The size of a delta *)

Lemma SFabs_signed (x : spec_float) : signed false x -> SFabs x = x.
Proof. destruct x as [s | s | | s m e]; simpl; intros H; subst; tauto. Qed.

Lemma SFsub_abs_le_ordered (mx : positive) (ex : Z) (my : positive)
    (ey : Z) (mb : positive) (eb : Z) :
  bounded prec emax mx ex = true -> bounded prec emax mb eb = true ->
  SFleb (S754_finite false mx ex) (S754_finite false mb eb) = true ->
  (Zpos my * 2 ^ (ey - Z.min ex ey) <= Zpos mx * 2 ^ (ex - Z.min ex ey))%Z ->
  SFleb (SFabs (SF64sub (S754_finite false mx ex) (S754_finite false my ey)))
    (S754_finite false mb eb) = true.
Proof.
  intros Hbx Hbb Hle Hord. rewrite SFsub_finite. unfold cond_Zopp.
  set (ez := Z.min ex ey) in *.
  set (M := (Zpos mx * 2 ^ (ex - ez) - Zpos my * 2 ^ (ey - ez))%Z).
  assert (HM : (0 <= M)%Z) by (unfold M; lia).
  rewrite (SFabs_signed _ (binary_normalize_signed ez HM)).
  assert (Hy : (0 < Zpos my * 2 ^ (ey - ez))%Z)
    by (apply Z.mul_pos_pos; [lia | apply Z.pow_pos_nonneg; unfold ez; lia]).
  apply SFleb_finite in Hle.
  set (e0 := Z.min ez eb).
  assert (He0 : (e0 <= ez /\ e0 <= eb /\ e0 <= ex)%Z)
    by (unfold e0, ez; lia).
  apply binary_normalize_le with (e0 := e0); try lia; [ | exact Hbb].
  apply Z.le_trans with (Zpos mx * 2 ^ (ex - ez) * 2 ^ (ez - e0))%Z.
  - apply Z.mul_le_mono_nonneg_r; [apply Z.pow_nonneg; lia | unfold M; lia].
  - rewrite rescale by (unfold ez; lia).
    apply lex_scaled_le; try assumption; lia.
Qed.

(** The difference of two numbers from zero to a bound is at most the
    bound, in absolute value. *)
Lemma SFsub_abs_le (x y : spec_float) (mb : positive) (eb : Z) :
  valid_binary x = true -> valid_binary y = true ->
  bounded prec emax mb eb = true ->
  nonneg x -> nonneg y ->
  SFleb x (S754_finite false mb eb) = true ->
  SFleb y (S754_finite false mb eb) = true ->
  SFleb (SFabs (SF64sub x y)) (S754_finite false mb eb) = true.
Proof.
  intros Hvx Hvy Hbb Hx Hy Hlx Hly.
  destruct x as [sx | [ | ] | | [ | ] mx ex]; simpl in Hx; try tauto;
    try discriminate;
    destruct y as [sy | [ | ] | | [ | ] my ey]; simpl in Hy; try tauto;
    try discriminate.
  - destruct sx, sy; reflexivity.
  - simpl in Hvx, Hvy.
    destruct (Z.le_gt_cases
                (Zpos my * 2 ^ (ey - Z.min ex ey))
                (Zpos mx * 2 ^ (ex - Z.min ex ey))) as [Hord | Hord].
    + apply SFsub_abs_le_ordered; assumption.
    + rewrite SFsub_swap_abs.
      apply SFsub_abs_le_ordered; try assumption.
      rewrite (Z.min_comm ey ex). lia.
Qed.

Lemma AngleValue_spec (a : number) :
  AngleValue a -> isNaN a = false ->
  nonneg (Prim2SF a) /\ SFleb (Prim2SF a) (Prim2SF 180) = true.
Proof.
  intros [Hnan | [Hlo Hhi]] Ha; [congruence | ].
  apply le_spec in Hlo, Hhi. split; [ | exact Hhi].
  rewrite Prim2SF_0 in Hlo. rewrite Prim2SF_180 in Hhi.
  destruct (Prim2SF a) as [s | [ | ] | | [ | ] m e]; simpl;
    try exact I; discriminate.
Qed.

Lemma delta_size (p r : number) :
  AngleValue p -> AngleValue r ->
  isNaN (p - r) = true \/ le (Math_abs (p - r)) 180.
Proof.
  intros Hp Hr.
  destruct (isNaN p) eqn:Hnp; [left; apply sub_NaN; auto | ].
  destruct (isNaN r) eqn:Hnr; [left; apply sub_NaN; auto | ].
  right. destruct (AngleValue_spec Hp Hnp) as [Hp0 Hp180].
  destruct (AngleValue_spec Hr Hnr) as [Hr0 Hr180].
  apply le_spec. unfold Math_abs.
  rewrite FloatAxioms.abs_spec, FloatAxioms.sub_spec.
  rewrite Prim2SF_180 in *.
  apply SFsub_abs_le; try assumption; try apply Prim2SF_valid.
  reflexivity.
Qed.

(** Every delta of two sequences of angle values is undefined or at
    most 180 degrees in absolute value, whatever the lengths of the
    sequences. *)
Lemma deltas_size (reference practice : FrameData) :
  Forall AngleValue (angles reference) ->
  Forall AngleValue (angles practice) ->
  Forall (fun delta => isNaN delta = true \/ le (Math_abs delta) 180)
    (computeAngleDifference reference practice).
Proof.
  intros Hr Hp. rewrite computeAngleDifference_map.
  apply Forall_map, Forall_forall. intros i Hi. apply in_seq in Hi.
  destruct (nth_error (angles practice) i) as [p | ] eqn:Hpi.
  - apply delta_size.
    + rewrite Forall_forall in Hp. apply Hp.
      apply nth_error_In with (n := i). exact Hpi.
    + rewrite Forall_forall in Hr. apply Hr. apply nth_In. lia.
  - right. reflexivity.
Qed.

Variable Math_atan2 : number -> number -> number.

(** X18: The extractor and the scorer together: for the angles of any two
    arrays of landmarks, there are four deltas, each one undefined or
    at most 180 degrees in absolute value, and the accuracy lies
    between 0 and 100, for every [Math.atan2] that keeps to its
    range. *)
Theorem deltas_of_extracted_angles
    (referenceLandmarks practiceLandmarks : Landmarks)
    (referenceId practiceId : string)
    (referenceNumber practiceNumber : number) :
  atan2_in_range Math_atan2 ->
  let reference :=
    {| id := referenceId; landmarks := referenceLandmarks;
       angles := calculateLimbAngles Math_atan2 referenceLandmarks;
       frameNumber := referenceNumber |} in
  let practice :=
    {| id := practiceId; landmarks := practiceLandmarks;
       angles := calculateLimbAngles Math_atan2 practiceLandmarks;
       frameNumber := practiceNumber |} in
  let deltas := computeAngleDifference reference practice in
  List.length deltas = 4%nat
  /\ Forall (fun delta => isNaN delta = true \/ le (Math_abs delta) 180)
       deltas
  /\ le 0 (calculateAccuracy deltas)
  /\ le (calculateAccuracy deltas) 100.
Proof.
  intros Hrange reference practice deltas. split; [ | split].
  - unfold deltas. rewrite computeAngleDifference_length.
    cbn [angles reference]. rewrite calculateLimbAngles_map. reflexivity.
  - apply deltas_size; cbn [angles reference practice];
      apply calculateLimbAngles_angle_values; exact Hrange.
  - apply calculateAccuracy_range.
Qed.

End Deltas.

(** ** More on the angle extractor *)

Section Joints.
Import JSNumber Frame Feedback Spec NumberFacts.
Local Open Scope float_scope.
Variable Math_atan2 : number -> number -> number.

Lemma limbAngle_missing (frameLandmarks : Landmarks)
    (start end_ : PoseLandmark) :
  at_index frameLandmarks (index start) = None
  \/ at_index frameLandmarks (index end_) = None ->
  limbAngle Math_atan2 frameLandmarks (start, end_) = NaN.
Proof.
  unfold limbAngle, tryLimbAngle. intros [H | H]; rewrite H.
  - reflexivity.
  - destruct (at_index frameLandmarks (index start)); reflexivity.
Qed.

Lemma limbAngle_same_joints (frameLandmarks frameLandmarks' : Landmarks)
    (connection : PoseLandmark * PoseLandmark) :
  (forall p : PoseLandmark,
      at_index frameLandmarks' (index p) = at_index frameLandmarks (index p)) ->
  limbAngle Math_atan2 frameLandmarks' connection
  = limbAngle Math_atan2 frameLandmarks connection.
Proof.
  intros H. destruct connection as [start end_].
  unfold limbAngle, tryLimbAngle. rewrite !H. reflexivity.
Qed.

Lemma at_index_firstn (frameLandmarks : Landmarks) (n i : nat) :
  i < n -> at_index (firstn n frameLandmarks) i = at_index frameLandmarks i.
Proof.
  intros Hi. unfold at_index. rewrite nth_error_firstn.
  destruct (Nat.ltb_spec i n); [reflexivity | lia].
Qed.

Lemma index_below_6 (p : PoseLandmark) : index p < 6.
Proof. destruct p; simpl; lia. Qed.

(** X19: A connection with an endpoint that is absent, as a hole or beyond
    the end of the array, gets the angle [NaN] and the call still
    returns its four angles; the angles depend on the landmarks of the
    six joints only, so that entries from the seventh on are ignored;
    an empty array gives four undefined angles. *)
Theorem calculateLimbAngles_missing_joints
    (frameLandmarks frameLandmarks' : Landmarks) :
  (forall (i : nat) (start end_ : PoseLandmark),
      nth_error LIMB_CONNECTIONS i = Some (start, end_) ->
      at_index frameLandmarks (index start) = None
      \/ at_index frameLandmarks (index end_) = None ->
      nth_error (calculateLimbAngles Math_atan2 frameLandmarks) i
      = Some NaN)
  /\ ((forall p : PoseLandmark,
         at_index frameLandmarks' (index p)
         = at_index frameLandmarks (index p)) ->
      calculateLimbAngles Math_atan2 frameLandmarks'
      = calculateLimbAngles Math_atan2 frameLandmarks)
  /\ (firstn 6 frameLandmarks' = firstn 6 frameLandmarks ->
      calculateLimbAngles Math_atan2 frameLandmarks'
      = calculateLimbAngles Math_atan2 frameLandmarks)
  /\ calculateLimbAngles Math_atan2 [] = [NaN; NaN; NaN; NaN].
Proof.
  assert (Hsame :
    (forall p : PoseLandmark,
        at_index frameLandmarks' (index p)
        = at_index frameLandmarks (index p)) ->
    calculateLimbAngles Math_atan2 frameLandmarks'
    = calculateLimbAngles Math_atan2 frameLandmarks).
  { intros H. rewrite !calculateLimbAngles_map. apply map_ext.
    intros connection. apply limbAngle_same_joints. exact H. }
  split; [ | split; [exact Hsame | split]].
  - intros i start end_ Hi Hmissing. rewrite calculateLimbAngles_map.
    rewrite (map_nth_error _ _ _ Hi). f_equal.
    apply limbAngle_missing. exact Hmissing.
  - intros Hfirst. apply Hsame. intros p.
    rewrite <- (@at_index_firstn frameLandmarks' 6 _ (index_below_6 p)).
    rewrite <- (@at_index_firstn frameLandmarks 6 _ (index_below_6 p)).
    rewrite Hfirst. reflexivity.
  - reflexivity.
Qed.

End Joints.

(** ** The helper [adjustLandmarks] of the tests *)

Section Adjust.
Import JSNumber Frame Feedback Tests NumberFacts.
Local Open Scope float_scope.

Lemma landmarkIndices_seq : landmarkIndices = seq 0 6.
Proof. reflexivity. Qed.

(** *** One point changed *)

Lemma setPoint_length (a : Landmarks) (idx : nat) (point : number * number) :
  List.length (setPoint a idx point) = List.length a.
Proof.
  revert idx. induction a as [ | p a IH]; intros idx; [reflexivity | ].
  destruct idx; simpl; [ | rewrite IH]; reflexivity.
Qed.

Lemma setPoint_same (a : Landmarks) (idx : nat) (point : number * number) :
  idx < List.length a ->
  nth_error (setPoint a idx point) idx = Some (Some point).
Proof.
  revert idx. induction a as [ | p a IH]; intros idx H; [simpl in H; lia | ].
  destruct idx; [reflexivity | ]. simpl. apply IH. simpl in H. lia.
Qed.

Lemma setPoint_other (a : Landmarks) (idx i : nat)
    (point : number * number) :
  i <> idx -> nth_error (setPoint a idx point) i = nth_error a i.
Proof.
  revert idx i. induction a as [ | p a IH]; intros idx i H.
  - destruct idx; reflexivity.
  - destruct idx, i; try reflexivity; try congruence.
    simpl. apply IH. congruence.
Qed.

Lemma at_index_nth_error (a : Landmarks) (i : nat)
    (point : number * number) :
  at_index a i = Some point <-> nth_error a i = Some (Some point).
Proof.
  unfold at_index. destruct (nth_error a i) as [[q | ] | ]; split;
    congruence.
Qed.

Lemma at_index_inside (a : Landmarks) (i : nat) (point : number * number) :
  at_index a i = Some point -> i < List.length a.
Proof.
  intros H. apply at_index_nth_error in H. apply nth_error_Some.
  rewrite H. discriminate.
Qed.

(** *** The loop *)


(** The loop when no point it reaches is missing. *)
Lemma adjustLoop_normal (changes : Landmarks) (indices : list nat)
    (original : Landmarks) (console : list string) :
  NoDup indices ->
  (forall idx, In idx indices -> inside original changes idx = true ->
               at_index original idx <> None
               /\ at_index changes idx <> None) ->
  let run := adjustLoop changes indices original console in
  completion run = Normal
  /\ List.length (adjusted run) = List.length original
  /\ (forall i,
        ~ (In i indices /\ inside original changes i = true) ->
        nth_error (adjusted run) i = nth_error original i)
  /\ (forall i x y dx dy,
        In i indices -> at_index original i = Some (x, y) ->
        at_index changes i = Some (dx, dy) ->
        at_index (adjusted run) i = Some (x + dx, y + dy))
  /\ console_error run
     = (console
        ++ map missingLandmark
             (filter (fun idx => negb (inside original changes idx))
                indices))%list.
Proof.
  revert original console.
  induction indices as [ | idx indices IH]; intros original console Hnd Hok.
  - cbn. repeat split; try reflexivity.
    + intros i x y dx dy [].
    + rewrite app_nil_r. reflexivity.
  - inversion Hnd as [ | idx' l' Hnotin Hnd']; subst.
    cbn [adjustLoop].
    destruct (inside original changes idx) eqn:Hin.
    + destruct (Hok idx (or_introl eq_refl) Hin) as [Ho Hc].
      destruct (at_index original idx) as [[x y] | ] eqn:Hox;
        [ | congruence].
      destruct (at_index changes idx) as [[dx dy] | ] eqn:Hcx;
        [ | congruence].
      set (original' := setPoint original idx (x + dx, y + dy)).
      assert (Hlen : List.length original' = List.length original)
        by apply setPoint_length.
      assert (Hinside : forall j,
                 inside original' changes j = inside original changes j)
        by (intros j; unfold inside; rewrite Hlen; reflexivity).
      assert (Hother : forall j, j <> idx ->
                 at_index original' j = at_index original j).
      { intros j Hj. unfold at_index, original'.
        rewrite setPoint_other by exact Hj. reflexivity. }
      assert (Hidx : idx < List.length original).
      { apply at_index_inside in Hox. exact Hox. }
      destruct (IH original' console Hnd') as (H1 & H2 & H3 & H4 & H5).
      { intros j Hj Hjin. rewrite Hinside in Hjin.
        rewrite Hother by (intros ->; contradiction).
        apply Hok; [right; exact Hj | exact Hjin]. }
      split; [exact H1 | ]. split; [rewrite H2; exact Hlen | ].
      split; [ | split].
      * intros i Hi. rewrite H3.
        -- apply setPoint_other. intros ->. apply Hi.
           split; [left; reflexivity | exact Hin].
        -- intros [Hiin Hiinside]. apply Hi. rewrite Hinside in Hiinside.
           split; [right; exact Hiin | exact Hiinside].
      * intros i x0 y0 dx0 dy0 [<- | Hi] Hoi Hci.
        -- rewrite Hox in Hoi. rewrite Hcx in Hci.
           injection Hoi as <- <-. injection Hci as <- <-.
           apply at_index_nth_error. rewrite H3.
           ++ apply setPoint_same. exact Hidx.
           ++ intros [Hiin _]. contradiction.
        -- apply H4; [exact Hi | | exact Hci].
           rewrite Hother by (intros ->; contradiction). exact Hoi.
      * rewrite H5. cbn [filter]. rewrite Hin. cbn [negb].
        f_equal. f_equal. apply filter_ext. intros j.
        rewrite Hinside. reflexivity.
    + destruct (IH original (console ++ [missingLandmark idx])%list Hnd')
        as (H1 & H2 & H3 & H4 & H5).
      { intros j Hj Hjin. apply Hok; [right; exact Hj | exact Hjin]. }
      split; [exact H1 | ]. split; [exact H2 | ]. split; [ | split].
      * intros i Hi. apply H3. intros [Hiin Hiinside]. apply Hi.
        split; [right; exact Hiin | exact Hiinside].
      * intros i x y dx dy [<- | Hi] Hoi Hci.
        -- apply at_index_inside in Hoi. apply at_index_inside in Hci.
           unfold inside in Hin.
           apply andb_false_iff in Hin as [Hin | Hin];
             apply Nat.ltb_ge in Hin; lia.
        -- apply H4; assumption.
      * rewrite H5. cbn [filter]. rewrite Hin. cbn [negb map].
        rewrite <- app_assoc. reflexivity.
Qed.

Lemma add_zero (x : number) : x <> neg_zero -> x + 0 = x.
Proof.
  intros Hx. apply Prim2SF_inj. rewrite FloatAxioms.add_spec, Prim2SF_0.
  destruct (Prim2SF x) as [s | s | | s m e] eqn:Hsx; try reflexivity.
  destruct s; [ | reflexivity].
  exfalso. apply Hx. apply Prim2SF_inj. rewrite Hsx. reflexivity.
Qed.

Lemma in_indices (i : nat) : In i landmarkIndices <-> i < 6.
Proof. rewrite landmarkIndices_seq, in_seq. lia. Qed.





(** X22: Changes that are all zero give back the same landmarks, provided
    that no coordinate is the negative zero (which the addition of 0
    turns into the positive zero): the practice pose of the test
    [testPerfectPoses] is the reference pose. *)
Theorem adjustLandmarks_zero_changes (original changes : Landmarks) :
  (forall idx, idx < 6 -> inside original changes idx = true ->
               at_index original idx <> None
               /\ at_index changes idx = Some (0, 0)) ->
  (forall i x y, i < 6 -> at_index original i = Some (x, y) ->
                 x <> neg_zero /\ y <> neg_zero) ->
  adjusted (adjustLandmarks original changes) = original
  /\ completion (adjustLandmarks original changes) = Normal.
Proof.
  intros Hok Hzero.
  destruct (@adjustLoop_normal changes landmarkIndices original []
              ltac:(rewrite landmarkIndices_seq; apply seq_NoDup))
    as (H1 & H2 & H3 & H4 & H5).
  { intros idx Hidx Hinside. apply in_indices in Hidx.
    destruct (Hok idx Hidx Hinside) as [Ho Hc].
    split; [exact Ho | rewrite Hc; discriminate]. }
  fold (adjustLandmarks original changes) in H1, H2, H3, H4, H5.
  split; [ | exact H1].
  apply nth_error_ext. intros i.
  destruct (Nat.lt_ge_cases i 6) as [Hi | Hi].
  - destruct (inside original changes i) eqn:Hinside.
    + destruct (Hok i Hi Hinside) as [Ho Hc].
      destruct (at_index original i) as [[x y] | ] eqn:Hox;
        [ | congruence].
      pose proof (H4 i x y 0 0 (proj2 (in_indices i) Hi) Hox Hc) as Hnew.
      destruct (Hzero i x y Hi Hox) as [Hx Hy].
      rewrite (add_zero Hx), (add_zero Hy) in Hnew.
      apply at_index_nth_error in Hnew, Hox. rewrite Hox. exact Hnew.
    + apply H3. intros [_ Hinside']. congruence.
  - apply H3. intros [Hin _]. apply in_indices in Hin. lia.
Qed.

Section MissingJoint.
Import Spec.
Variable Math_atan2 : number -> number -> number.

(** X23: A joint that the practice snapshot lacks stays missing through the
    three steps: [adjustLandmarks] does not create it, each connection
    that ends at it gets the angle [NaN], and the delta of that
    connection is [NaN] whatever the reference angle is. *)
Theorem missing_joint_stays_undefined
    (original changes : Landmarks) (reference : FrameData)
    (practiceId : string) (practiceNumber : number)
    (i : nat) (start end_ : PoseLandmark) (r : number) :
  (forall idx, idx < 6 -> inside original changes idx = true ->
               at_index original idx <> None
               /\ at_index changes idx <> None) ->
  nth_error LIMB_CONNECTIONS i = Some (start, end_) ->
  at_index original (index start) = None
  \/ at_index original (index end_) = None ->
  nth_error (angles reference) i = Some r ->
  let practiceLandmarks := adjusted (adjustLandmarks original changes) in
  let practice :=
    {| id := practiceId; landmarks := practiceLandmarks;
       angles := calculateLimbAngles Math_atan2 practiceLandmarks;
       frameNumber := practiceNumber |} in
  completion (adjustLandmarks original changes) = Normal
  /\ nth_error (angles practice) i = Some NaN
  /\ nth_error (computeAngleDifference reference practice) i = Some NaN.
Proof.
  intros Hok Hi Hmissing Hr practiceLandmarks practice.
  destruct (@adjustLoop_normal changes landmarkIndices original []
              ltac:(rewrite landmarkIndices_seq; apply seq_NoDup))
    as (H1 & H2 & H3 & H4 & H5).
  { intros idx Hidx. apply Hok, in_indices, Hidx. }
  fold (adjustLandmarks original changes) in H1, H2, H3, H4, H5.
  assert (Hstill : forall p : PoseLandmark,
             at_index original (index p) = None ->
             at_index practiceLandmarks (index p) = None).
  { intros p Hp. unfold practiceLandmarks, at_index. rewrite H3.
    - exact Hp.
    - intros [Hin Hinside].
      destruct (Hok (index p) (index_below_6 p) Hinside) as [Ho _].
      contradiction. }
  assert (Hangle : nth_error (angles practice) i = Some NaN).
  { cbn [angles practice]. rewrite calculateLimbAngles_map.
    rewrite (map_nth_error _ _ _ Hi). f_equal.
    apply limbAngle_missing.
    destruct Hmissing as [H | H]; [left | right]; apply Hstill, H. }
  split; [exact H1 | ]. split; [exact Hangle | ].
  rewrite (computeAngleDifference_nth reference practice i Hr), Hangle.
  apply f_equal. apply NaN_unique, sub_NaN. left. reflexivity.
Qed.

End MissingJoint.

End Adjust.

(** ** More on the request text *)

Section Request.
Import JSString JSNumber Frame Feedback.
Local Open Scope string_scope.
Variable LLM : Type.
Variable LLMError : Type.
Variable finiteToString : number -> string.

Local Abbreviation validate := (Feedback.validateExistingLandmarks LLMError).

Lemma prefix_Includes (sub s : string) :
  String.prefix sub s = true -> exists post, s = sub ++ post.
Proof.
  revert s. induction sub as [ | c sub IH]; intros s H.
  - exists s. reflexivity.
  - destruct s as [ | c' s]; [discriminate | ]. simpl in H.
    destruct (ascii_dec c c') as [<- | ]; [ | discriminate].
    destruct (IH s H) as (post & ->). exists post. reflexivity.
Qed.

(** What the test [includes] finds is there. *)
Lemma includes_Includes (s sub : string) :
  includes s sub = true -> Includes s sub.
Proof.
  induction s as [ | c s IH]; rewrite includes_unfold; intros H;
    apply orb_prop in H as [H | H].
  - destruct (prefix_Includes _ _ H) as (post & Hpost).
    exists EmptyString, post. exact Hpost.
  - discriminate.
  - destruct (prefix_Includes _ _ H) as (post & Hpost).
    exists EmptyString, post. exact Hpost.
  - destruct (IH H) as (pre & post & ->).
    exists (String c pre), post. reflexivity.
Qed.

Lemma promptReference_text :
  promptReference
  = newline ++ newline
    ++ "Reference Landmarks Coordinates (PoseLandmark enum index order):"
    ++ newline.
Proof. reflexivity. Qed.

Lemma promptPractice_text :
  promptPractice
  = newline
    ++ "Practice Landmarks Coordinates (PoseLandmark enum index order):"
    ++ newline.
Proof. reflexivity. Qed.

Lemma promptEnum_text :
  promptEnum = newline ++ "PoseLandmark enum for reference:" ++ newline.
Proof. reflexivity. Qed.

(** X24: The request lists the vocabulary the validation enforces: for each
    landmark of the enum it has the line of its number and its name,
    and no line for the reverse entries of the enum object; a list
    with that name alone passes the validation. *)
Theorem prompt_lists_the_vocabulary (differences : list number)
    (accuracyValue : number)
    (referenceFrameData practiceFrameData : FrameData)
    (p : PoseLandmark) (w : World LLM) :
  let prompt :=
    createFeedbackPrompt finiteToString differences accuracyValue
      referenceFrameData practiceFrameData in
  Includes prompt
    (newline ++ ofNat (index p) ++ " = " ++ name p ++ newline)
  /\ filterMap enumLine PoseLandmark_entries
     = map (fun q => ofNat (index q) ++ " = " ++ name q) members
  /\ in_PoseLandmark (name p) = true
  /\ validate ("[" ++ name p ++ "]") w = (w, Returned tt).
Proof.
  intros prompt. split; [ | split; [reflexivity | split]].
  - unfold prompt, createFeedbackPrompt.
    do 10 apply Includes_app_r. apply includes_Includes.
    destruct p; vm_compute; reflexivity.
  - destruct p; reflexivity.
  - rewrite validate_first_unknown. destruct p; reflexivity.
Qed.

(** X25: The request shows the landmarks of the two frames as JSON arrays
    under their headings, the reference first; a missing landmark is
    written [null] at its place, so that the entries keep the order of
    the enum, and a coordinate that is not finite is written [null]. *)
Theorem prompt_shows_the_landmarks (differences : list number)
    (accuracyValue : number)
    (referenceFrameData practiceFrameData : FrameData) :
  let prompt :=
    createFeedbackPrompt finiteToString differences accuracyValue
      referenceFrameData practiceFrameData in
  Includes prompt
    ("Reference Landmarks Coordinates (PoseLandmark enum index order):"
     ++ newline
     ++ JSON_stringify finiteToString (landmarks referenceFrameData)
     ++ newline
     ++ "Practice Landmarks Coordinates (PoseLandmark enum index order):"
     ++ newline
     ++ JSON_stringify finiteToString (landmarks practiceFrameData)
     ++ newline ++ "PoseLandmark enum for reference:" ++ newline)
  /\ (forall (l : Landmarks) (i : nat),
        (i < List.length l)%nat ->
        nth_error (map (JSON_point finiteToString) l) i
        = Some match at_index l i with
               | Some (x, y) =>
                   "[" ++ JSON_number finiteToString x ++ ","
                   ++ JSON_number finiteToString y ++ "]"
               | None => "null"
               end)
  /\ JSON_stringify finiteToString [] = "[]"
  /\ (forall x : number,
        isNaN x = true \/ is_infinity x = true ->
        JSON_number finiteToString x = "null").
Proof.
  intros prompt. split; [ | split; [ | split]].
  - unfold prompt, createFeedbackPrompt.
    rewrite promptReference_text, promptPractice_text, promptEnum_text.
    exists (promptIntro ++ toFixed finiteToString accuracyValue 1
            ++ promptAngles
            ++ join newline
                 (map (angleLine finiteToString)
                    (Object_entries differences))
            ++ promptConnections
            ++ join ", " (map connectionText LIMB_CONNECTIONS)
            ++ newline ++ newline),
      (join newline (filterMap enumLine PoseLandmark_entries)
       ++ promptInstructions).
    rewrite !append_assoc. reflexivity.
  - intros l i Hi. rewrite nth_error_map. unfold at_index.
    destruct (nth_error l i) as [[[x y] | ] | ] eqn:Hl; try reflexivity.
    apply nth_error_None in Hl. lia.
  - reflexivity.
  - intros x Hx. unfold JSON_number, isNaN in *.
    destruct Hx as [-> | ->]; [reflexivity | rewrite orb_true_r; reflexivity].
Qed.

End Request.

(** ** The further properties at work on the examples *)

Section MoreWitnesses.
Import JSString JSNumber Frame Feedback Spec Checks Tests Text.
Import Examples MoreExamples.
Local Open Scope string_scope.
Local Open Scope list_scope.
Local Open Scope float_scope.

(** A model that does not answer at all. *)
Lemma analyze_first_request_fails_witness :
  analyze playScript wholeDigits referencePose practicePose (world [] [])
  = (after [] [] [], Thrown (LLMFailure tt)).
Proof.
  apply (proj1 (@analyze_first_request_fails Script unit playScript
                  wholeDigits referencePose practicePose (world [] [])
                  [] tt eq_refl)).
Defined.

(** A model that stops after the feedback, and one that stops after the
    list of the joints. *)
Lemma analyze_later_request_fails_witness :
  analyze playScript wholeDigits referencePose practicePose
    (world [] oneAnswerScript)
  = (after [recordOf referencePose practicePose "Lift the left wrist."]
       [] [],
     Thrown (LLMFailure tt))
  /\ analyze playScript wholeDigits referencePose practicePose
       (world [] twoAnswersScript)
     = (after [recordOf referencePose practicePose "Lift the left wrist."]
          [] [],
        Thrown (LLMFailure tt)).
Proof.
  split.
  - apply (proj1 (@analyze_later_request_fails Script unit playScript
                    wholeDigits referencePose practicePose
                    (world [] oneAnswerScript) [] "Lift the left wrist."
                    eq_refl) [] tt).
    reflexivity.
  - apply (proj2 (@analyze_later_request_fails Script unit playScript
                    wholeDigits referencePose practicePose
                    (world [] twoAnswersScript) ["[LEFT_WRIST]"%string]
                    "Lift the left wrist." eq_refl)
             [] [] "[LEFT_WRIST]"%string tt).
    + reflexivity.
    + vm_compute. repeat constructor.
    + reflexivity.
Defined.

(** A model whose third answer is [false]: the identifier is returned
    and the mood warning written. *)
Lemma analyze_succeeds_witness :
  analyze playScript wholeDigits referencePose practicePose
    (world [] gloomyScript)
  = (after [recordOf referencePose practicePose "Lift the left wrist."]
       [] [MoodNotPositive "fb-reference-practice"],
     Returned "fb-reference-practice"%string).
Proof.
  apply (@analyze_succeeds Script unit playScript wholeDigits
           referencePose practicePose (world [] gloomyScript)
           ["[LEFT_WRIST, LEFT_ELBOW]"%string; "false"%string]
           ["false"%string] []
           "Lift the left wrist." "[LEFT_WRIST, LEFT_ELBOW]" "false").
  - reflexivity.
  - reflexivity.
  - vm_compute. repeat constructor.
  - reflexivity.
Defined.

Lemma analyze_keeps_earlier_records_witness :
  snd (getFeedback unit "fb-reference-practice"
         (fst (analyze playScript wholeDigits referencePose practicePose
                 (world [earlierRecord] gloomyScript))))
  = Returned ("Well done."%string, 100).
Proof.
  rewrite (proj1 (proj2 (@analyze_keeps_earlier_records Script unit
                           playScript wholeDigits referencePose
                           practicePose
                           (world [earlierRecord] gloomyScript)))
             "fb-reference-practice"%string).
  - vm_compute. reflexivity.
  - exists earlierRecord. split; [left; reflexivity | reflexivity].
Defined.

Lemma analyze_then_getFeedback_witness :
  exists result,
    getFeedback unit "fb-reference-practice"
      (fst (analyze playScript wholeDigits referencePose practicePose
              (world [] twoAnalysesScript)))
    = (fst (analyze playScript wholeDigits referencePose practicePose
              (world [] twoAnalysesScript)),
       Returned result).
Proof.
  apply (proj1 (@analyze_then_getFeedback Script unit playScript
                  wholeDigits referencePose practicePose
                  (world [] twoAnalysesScript)
                  (fst (analyze playScript wholeDigits referencePose
                          practicePose (world [] twoAnalysesScript)))
                  "fb-reference-practice"%string ltac:(vm_compute; reflexivity))).
Defined.

Lemma identifier_collision_witness :
  snd (getFeedback unit "fb-take-1-a"
         (fst (analyze playScript wholeDigits secondReference secondPractice
                 (fst (analyze playScript wholeDigits firstReference
                         firstPractice (world [] twoAnalysesScript))))))
  = Returned
      ("Lift the left wrist."%string,
       calculateAccuracy
         (computeAngleDifference firstReference firstPractice)).
Proof.
  apply (proj2 (proj2
           (@identifier_collision Script unit playScript wholeDigits
              "take"%string "1"%string "a"%string
              firstReference firstPractice secondReference secondPractice
              (world [] twoAnalysesScript)
              ["[LEFT_WRIST]"; "TRUE"; "Lower the right elbow.";
               "[RIGHT_ELBOW]"; "TRUE"]%string
              ["[RIGHT_ELBOW]"; "TRUE"]%string
              "Lift the left wrist." "Lower the right elbow."
              eq_refl eq_refl eq_refl eq_refl eq_refl
              ltac:(vm_compute; reflexivity)))).
  intros (entry & Hin & _). exact Hin.
Defined.

(** The answer ["[LEFT_WRIST, LEFT_ELBOW]"]. *)
Lemma validate_accepts_listed_names_witness :
  validateExistingLandmarks unit "[LEFT_WRIST, LEFT_ELBOW]"
    (world [] [])
  = (world [] [], Returned tt).
Proof.
  apply (proj1 (proj2 (proj2
           (@validate_accepts_listed_names Script unit
              [(EmptyString, LEFT_WRIST); (" "%string, LEFT_ELBOW)]
              (world [] []) ltac:(discriminate)
              ltac:(repeat constructor))))).
Defined.

(** The answer ["[LEFT_WRIST]"] followed by a line break. *)
Lemma validate_rejects_text_after_bracket_witness :
  validateExistingLandmarks unit ("[LEFT_WRIST]" ++ newline)%string
    (world [] [])
  = (world [] [], Thrown (UnknownLandmark "LEFT_WRIST]")).
Proof.
  apply (proj2 (@validate_rejects_text_after_bracket Script unit
                  [] EmptyString LEFT_WRIST newline (world [] [])
                  ltac:(constructor) eq_refl
                  ltac:(split; [discriminate | reflexivity]))).
Defined.

Lemma validate_rejects_text_before_bracket_witness :
  validateExistingLandmarks unit " [LEFT_WRIST, LEFT_ELBOW]" (world [] [])
  = (world [] [], Thrown (UnknownLandmark "[LEFT_WRIST")).
Proof.
  apply (proj2 (@validate_rejects_text_before_bracket Script unit
                  " "%string LEFT_WRIST [(" "%string, LEFT_ELBOW)]
                  (world [] [])
                  ltac:(split; [discriminate | reflexivity])
                  ltac:(repeat constructor))).
Defined.

Lemma validate_accepts_other_properties_witness :
  validateExistingLandmarks unit "[toString]" (world [] [])
  = (world [] [], Returned tt).
Proof.
  apply (proj2 (proj2 (proj2
           (@validate_accepts_other_properties Script unit
              "toString"%string (world [] [])
              ltac:(vm_compute; tauto))))).
Defined.

(** The answer ["[LEFT_WRIST, ]"], and the answer ["[left_wrist]"]. *)
Lemma validate_rejects_empty_item_witness :
  validateExistingLandmarks unit "[LEFT_WRIST, ]" (world [] [])
  = (world [] [], Thrown (UnknownLandmark EmptyString)).
Proof.
  apply (proj2 (@validate_rejects_empty_item Script unit
                  [(EmptyString, LEFT_WRIST)] " "%string (world [] [])
                  ltac:(discriminate) ltac:(repeat constructor) eq_refl)).
Defined.

Lemma validate_is_case_sensitive_witness :
  validateExistingLandmarks unit "[left_wrist]" (world [] [])
  = (world [] [], Thrown (UnknownLandmark "left_wrist")).
Proof.
  apply (proj2 (proj2 (@validate_is_case_sensitive Script unit
                         "left_wrist"%string LEFT_WRIST (world [] [])
                         eq_refl ltac:(discriminate)))).
Defined.



Lemma computeAngleDifference_shape_witness :
  computeAngleDifference longReference
    (frameWithAngles "practice" [135; 45; 90; 10; 20])
  = computeAngleDifference longReference
      (frameWithAngles "other" [135; 45; 90]).
Proof.
  apply (proj1 (proj2 (@computeAngleDifference_shape longReference
                         (frameWithAngles "other" [135; 45; 90])
                         longReference
                         (frameWithAngles "practice" [135; 45; 90; 10; 20])))).
  - reflexivity.
  - reflexivity.
Defined.

Lemma calculateAccuracy_symmetric_witness :
  calculateAccuracy
    (computeAngleDifference (frameWithAngles "reference" [180; NaN; 90])
       (frameWithAngles "practice" [135; 45; 100]))
  = calculateAccuracy
      (computeAngleDifference (frameWithAngles "practice" [135; 45; 100])
         (frameWithAngles "reference" [180; NaN; 90])).
Proof.
  apply (proj2 (proj2 (@calculateAccuracy_symmetric
                         (frameWithAngles "reference" [180; NaN; 90])
                         (frameWithAngles "practice" [135; 45; 100])
                         eq_refl))).
Defined.

Lemma missing_practice_angles_score_full_witness :
  calculateAccuracy
    (computeAngleDifference longReference (frameWithAngles "practice" []))
  = 100.
Proof.
  apply (proj2 (@missing_practice_angles_score_full longReference
                  (frameWithAngles "practice" []) eq_refl
                  ltac:(discriminate))).
Defined.

Lemma deltas_of_extracted_angles_witness :
  Forall (fun delta => isNaN delta = true \/ le (Math_abs delta) 180)
    (computeAngleDifference (frameOf "reference" perfectSnapshot)
       (frameOf "practice" missingWristSnapshot)).
Proof.
  apply (proj1 (proj2 (@deltas_of_extracted_angles atan2_directions
                         perfectSnapshot missingWristSnapshot
                         "reference"%string "practice"%string 1 1
                         atan2_directions_in_range))).
Defined.

Lemma calculateLimbAngles_missing_joints_witness :
  nth_error (calculateLimbAngles atan2_directions missingWristSnapshot) 3
  = Some NaN.
Proof.
  apply (proj1 (@calculateLimbAngles_missing_joints atan2_directions
                  missingWristSnapshot []) 3%nat RIGHT_ELBOW RIGHT_WRIST
           eq_refl).
  right. reflexivity.
Defined.

(** The test [testMissingLandmarks]: the right wrist is missing. *)
Lemma missing_joint_stays_undefined_witness :
  nth_error
    (computeAngleDifference (frameOf "reference" perfectSnapshot)
       {| id := "practice";
          landmarks :=
            adjusted (adjustLandmarks missingWristSnapshot wristInward);
          angles :=
            calculateLimbAngles atan2_directions
              (adjusted (adjustLandmarks missingWristSnapshot wristInward));
          frameNumber := 1 |}) 3
  = Some NaN.
Proof.
  apply (proj2 (proj2
           (@missing_joint_stays_undefined atan2_directions
              missingWristSnapshot wristInward
              (frameOf "reference" perfectSnapshot) "practice"%string 1
              3%nat RIGHT_ELBOW RIGHT_WRIST 135
              ltac:(intros idx Hidx Hin;
                    do 5 (destruct idx as [ | idx];
                          [vm_compute; split; discriminate | ]);
                    vm_compute in Hin; discriminate)
              eq_refl (or_intror eq_refl)
              ltac:(vm_compute; reflexivity)))).
Defined.



Lemma positive_not_neg_zero (x : number) :
  is_zero x = false -> x <> neg_zero.
Proof. intros H ->. discriminate. Qed.

(** The practice pose of the test [testPerfectPoses]. *)
Lemma adjustLandmarks_zero_changes_witness :
  adjusted (adjustLandmarks perfectSnapshot noChange) = perfectSnapshot.
Proof.
  apply (proj1 (@adjustLandmarks_zero_changes perfectSnapshot noChange
                  ltac:(intros idx Hidx _;
                        do 6 (destruct idx as [ | idx];
                              [vm_compute; split; [discriminate | reflexivity] | ]);
                        lia)
                  ltac:(intros i x y Hi Hxy;
                        do 6 (destruct i as [ | i];
                              [injection Hxy as <- <-;
                               split; apply positive_not_neg_zero;
                               reflexivity | ]);
                        lia))).
Defined.

Lemma prompt_lists_the_vocabulary_witness :
  Includes movedWristPrompt (newline ++ "4 = LEFT_WRIST" ++ newline).
Proof.
  apply (proj1 (@prompt_lists_the_vocabulary Script unit wholeDigits
                  movedWristDeltas 88.75 referencePose practicePose
                  LEFT_WRIST (world [] []))).
Defined.

Lemma prompt_shows_the_landmarks_witness :
  Includes movedWristPrompt
    ("Reference Landmarks Coordinates (PoseLandmark enum index order):"
     ++ newline ++ "[[2,4],[4,4],[2,3],[4,3],[1,2],[5,2]]" ++ newline
     ++ "Practice Landmarks Coordinates (PoseLandmark enum index order):"
     ++ newline ++ "[[2,4],[4,4],[2,3],[4,3],[1,2],[5,2]]" ++ newline
     ++ "PoseLandmark enum for reference:" ++ newline).
Proof.
  apply (proj1 (@prompt_shows_the_landmarks wholeDigits movedWristDeltas
                  88.75 referencePose practicePose)).
Defined.

End MoreWitnesses.
